(** * Transport agent: route resolution engine

    A shallow embedding of [src/agent/transport_agent.py] (class
    [TransportAgent]) together with the parts of the Python runtime it
    relies on: [str] methods, [datetime.strptime] for the format "%H:%M",
    binary64 arithmetic, [round], stable sorting and
    [difflib.SequenceMatcher.ratio].

    Conventions.
    - A Python [str] is a [string]; a character is a code point below 256
      (Latin-1), which is the range on which the tables of whitespace and
      case mapping below are exact.
    - A Python [int] is a [Z]; indices and lengths are [nat].
    - A Python [float] is a [spec_float] at binary64 precision.
    - A call that may raise returns a [result]. *)

From Stdlib Require Import ZArith Ascii String SpecFloat Lia.
From stdpp Require Import gmap strings list sorting.

Local Open Scope Z_scope.

(** ** Exceptions *)

Inductive exn : Type :=
| ValueError
| OverflowError
| ZeroDivisionError
| IndexError.

Inductive result (A : Type) : Type :=
| Ok (a : A)
| Raise (e : exn).

Arguments Ok {A} a.
Arguments Raise {A} e.

Definition rbind {A B : Type} (c : result A) (f : A -> result B) : result B :=
  match c with
  | Ok a => f a
  | Raise e => Raise e
  end.

Notation "'let*' x ':=' c 'in' k" := (rbind c (fun x => k))
  (at level 10, x name, c at level 100, k at level 200).

(** [for x in l: acc = f(acc, x)] where the body may raise. *)
Fixpoint foldM {A B : Type} (f : B -> A -> result B) (l : list A) (acc : B)
  : result B :=
  match l with
  | [] => Ok acc
  | x :: l' => let* acc' := f acc x in foldM f l' acc'
  end.

(** ** Characters and [str] methods *)

Module Py.

Definition code (c : ascii) : N := N_of_ascii c.

(** [str.isspace] on one character, as used by [strip] and [split]. *)
Definition isspace (c : ascii) : bool :=
  let n := code c in
  ((9 <=? n) && (n <=? 13) || (28 <=? n) && (n <=? 32)
   || (n =? 133) || (n =? 160))%N.

(** [str.lower] on one character. *)
Definition lower_char (c : ascii) : ascii :=
  let n := code c in
  if ((65 <=? n) && (n <=? 90)
      || (192 <=? n) && (n <=? 222) && negb (n =? 215))%N
  then ascii_of_N (n + 32)
  else c.

Fixpoint lower (s : string) : string :=
  match s with
  | EmptyString => EmptyString
  | String c s' => String (lower_char c) (lower s')
  end.

Fixpoint lstrip (s : string) : string :=
  match s with
  | EmptyString => EmptyString
  | String c s' => if isspace c then lstrip s' else s
  end.

Definition rstrip (s : string) : string :=
  String.rev (lstrip (String.rev s)).

Definition strip (s : string) : string := rstrip (lstrip s).

(** [str.split()] without a separator: the maximal runs of characters
    that are not whitespace.  [cur] is the current run, reversed. *)
Fixpoint split_go (cur : string) (s : string) : list string :=
  match s with
  | EmptyString =>
      match cur with
      | EmptyString => []
      | _ => [String.rev cur]
      end
  | String c s' =>
      if isspace c then
        match cur with
        | EmptyString => split_go EmptyString s'
        | _ => String.rev cur :: split_go EmptyString s'
        end
      else split_go (String c cur) s'
  end.

Definition split (s : string) : list string := split_go EmptyString s.

(** [sep.join(l)]. *)
Fixpoint join (sep : string) (l : list string) : string :=
  match l with
  | [] => EmptyString
  | [x] => x
  | x :: l' => x +:+ sep +:+ join sep l'
  end.

(** [x in y] on strings. *)
Fixpoint contains (y x : string) : bool :=
  String.prefix x y
  || match y with
     | EmptyString => false
     | String _ y' => contains y' x
     end.

(** Truth value of a string: [not s] is [negb (truthy s)]. *)
Definition truthy (s : string) : bool :=
  match s with
  | EmptyString => false
  | _ => true
  end.

(** [s[lo:hi]] on a list, for [0 <= lo]. *)
Definition slice {A : Type} (l : list A) (lo hi : nat) : list A :=
  take (hi - lo) (drop lo l).

(** [l[0]] and [l[-1]]. *)
Definition first {A : Type} (l : list A) : result A :=
  match l with
  | [] => Raise IndexError
  | x :: _ => Ok x
  end.

Definition last {A : Type} (l : list A) : result A :=
  match list.last l with
  | None => Raise IndexError
  | Some x => Ok x
  end.

(** [l[i]] for [0 <= i]. *)
Definition getitem {A : Type} (l : list A) (i : nat) : result A :=
  match l !! i with
  | Some x => Ok x
  | None => Raise IndexError
  end.

(** [l.index(x)]: first position of [x], [None] for [ValueError]. *)
Fixpoint index {A : Type} `{EqDecision A} (l : list A) (x : A) : option nat :=
  match l with
  | [] => None
  | y :: l' => if decide (y = x) then Some 0%nat else S <$> index l' x
  end.

(** [sorted(l, key=...)] where [lt] compares the keys: a stable sort,
    written as an insertion sort. *)
Section Sorted.
Context {A : Type} (lt : A -> A -> bool).

Fixpoint insert_sorted (x : A) (l : list A) : list A :=
  match l with
  | [] => [x]
  | y :: l' => if lt y x then y :: insert_sorted x l' else x :: l
  end.

Definition sorted (l : list A) : list A := foldr insert_sorted [] l.
End Sorted.

End Py.

(** ** [datetime.strptime(text, "%H:%M")]

    The format compiles to the regular expression
    [(2[0-3]|[0-1]\d|\d):([0-5]\d|\d)], matched at the start of the text;
    text left over after the match is an error. *)

Module Strptime.

Definition digit (c : ascii) : option Z :=
  let n := Py.code c in
  if ((48 <=? n) && (n <=? 57))%N then Some (Z.of_N n - 48) else None.

(** The group for [%M] and the end of the pattern: the value of the
    minutes and the text left over. *)
Definition minute (s : string) : option (Z * string) :=
  match s with
  | String c1 (String c2 rest as s1) =>
      match digit c1, digit c2 with
      | Some d1, Some d2 =>
          if d1 <=? 5 then Some (10 * d1 + d2, rest) else Some (d1, s1)
      | Some d1, None => Some (d1, s1)
      | None, _ => None
      end
  | String c1 EmptyString =>
      match digit c1 with
      | Some d1 => Some (d1, EmptyString)
      | None => None
      end
  | EmptyString => None
  end.

(** What follows the group for [%H]: a colon and the minutes. *)
Definition colon_minute (s : string) : option (Z * string) :=
  match s with
  | String ":" rest => minute rest
  | _ => None
  end.

(** The alternatives of the group for [%H], in the order of the
    pattern; an alternative whose continuation fails is abandoned for the
    next one. *)
Definition hour_two (s : string) : option (Z * Z * string) :=
  match s with
  | String c1 (String c2 rest) =>
      match digit c1, digit c2 with
      | Some d1, Some d2 =>
          if ((d1 =? 2) && (d2 <=? 3)) || (d1 <=? 1) then
            match colon_minute rest with
            | Some (m, rest') => Some (10 * d1 + d2, m, rest')
            | None => None
            end
          else None
      | _, _ => None
      end
  | _ => None
  end.

Definition hour_one (s : string) : option (Z * Z * string) :=
  match s with
  | String c1 rest =>
      match digit c1 with
      | Some d1 =>
          match colon_minute rest with
          | Some (m, rest') => Some (d1, m, rest')
          | None => None
          end
      | None => None
      end
  | EmptyString => None
  end.

Definition regex_match (s : string) : option (Z * Z * string) :=
  match hour_two s with
  | Some r => Some r
  | None => hour_one s
  end.

(** The pair (hour, minute) of the parsed [datetime]. *)
Definition strptime (s : string) : result (Z * Z) :=
  match regex_match s with
  | None => Raise ValueError
  | Some (h, m, EmptyString) => Ok (h, m)
  | Some (_, _, String _ _) => Raise ValueError
  end.

End Strptime.

(** ** [float]: binary64 arithmetic *)

Module Float.

Definition prec : Z := 53.
Definition emax : Z := 1024.

Abbreviation float := spec_float.

Definition mul : float -> float -> float := SFmul prec emax.
Definition div : float -> float -> float := SFdiv prec emax.
Definition add : float -> float -> float := SFadd prec emax.
Definition ltb : float -> float -> bool := SFltb.

(** Conversion of an [int], rounded to nearest, ties to even.  An [int]
    too large for a [float] gives an infinity here; [of_int_checked]
    raises [OverflowError] for it, as the conversion does. *)
Definition of_int (n : Z) : float := binary_normalize prec emax n 0 false.

Definition of_int_checked (n : Z) : result float :=
  match of_int n with
  | S754_infinity _ => Raise OverflowError
  | x => Ok x
  end.

(** The literals of the program. *)
Definition zero : float := S754_zero false.
Definition one : float := S754_finite false 4503599627370496 (-52).
Definition two : float := S754_finite false 4503599627370496 (-51).
Definition lit_0_12 : float := S754_finite false 8646911284551352 (-56).
Definition lit_0_70 : float := S754_finite false 6305039478318694 (-53).

(** [a / b] on two [int]s: the quotient of the integers, rounded once. *)
Definition exact (n : Z) : float :=
  match n with
  | Z0 => S754_zero false
  | Zpos p => S754_finite false p 0
  | Zneg p => S754_finite true p 0
  end.

Definition int_truediv (a b : Z) : result float :=
  if b =? 0 then Raise ZeroDivisionError
  else match div (exact a) (exact b) with
       | S754_infinity _ => Raise OverflowError
       | x => Ok x
       end.

(** [m / d] rounded to the nearest integer, ties to even ([0 < d]). *)
Definition div_half_even (m d : Z) : Z :=
  let q := m / d in
  let r := m mod d in
  match 2 * r ?= d with
  | Lt => q
  | Gt => q + 1
  | Eq => if Z.even q then q else q + 1
  end.

(** [round(x)] with one argument. *)
Definition round (x : float) : result Z :=
  match x with
  | S754_zero _ => Ok 0
  | S754_infinity _ => Raise OverflowError
  | S754_nan => Raise ValueError
  | S754_finite s m e =>
      let v := match e with
               | Zneg p => div_half_even (Zpos m) (2 ^ Zpos p)
               | _ => Zpos m * 2 ^ e
               end in
      Ok (if s then - v else v)
  end.

End Float.

(** ** [difflib.SequenceMatcher(None, a, b).ratio()]

    The matcher is built with no junk predicate and with the automatic
    junk heuristic on, which are the defaults. *)

Module Difflib.

Definition item (l : list ascii) (i : nat) : ascii := nth i l Ascii.zero.

Section SequenceMatcher.
Variables a b : list ascii.

(** [__chain_b]: for each element of [b] the positions where it
    occurs, in increasing order. *)
Definition b2j_all : gmap ascii (list nat) :=
  fold_left
    (fun (m : gmap ascii (list nat)) '(i, elt) =>
       <[elt := default [] (m !! elt) ++ [i]]> m)
    (zip (seq 0 (length b)) b) ∅.

(** The elements that occur more than [n // 100 + 1] times in a [b] of
    200 elements or more ("popular") are removed. *)
Definition b2j : gmap ascii (list nat) :=
  let n := length b in
  if (200 <=? n)%nat then
    filter (fun kv : ascii * list nat =>
              (length kv.2 <= n / 100 + 1)%nat) b2j_all
  else b2j_all.

(** [bjunk] is the empty set. *)
Definition isbjunk (c : ascii) : bool := false.

Definition j2len_get (j2len : gmap nat nat) (j : nat) : nat :=
  match j with
  | O => 0%nat
  | S j' => default 0%nat (j2len !! j')
  end.

(** The loop over the positions [j] of [a[i]] in [b].  The state is
    [newj2len] and the best block so far; [j2len_get j2len j] is
    [j2len.get(j-1, 0)]. *)
Fixpoint inner_loop (i blo bhi : nat) (j2len : gmap nat nat)
    (js : list nat) (newj2len : gmap nat nat) (best : nat * nat * nat)
  : gmap nat nat * (nat * nat * nat) :=
  match js with
  | [] => (newj2len, best)
  | j :: js' =>
      if (j <? blo)%nat then inner_loop i blo bhi j2len js' newj2len best
      else if (bhi <=? j)%nat then (newj2len, best)
      else
        let k := (j2len_get j2len j + 1)%nat in
        let newj2len' := <[j := k]> newj2len in
        let best' :=
          if (best.2 <? k)%nat then ((i + 1 - k)%nat, (j + 1 - k)%nat, k)
          else best in
        inner_loop i blo bhi j2len js' newj2len' best'
  end.

Definition outer_loop (alo ahi blo bhi : nat)
  : gmap nat nat * (nat * nat * nat) :=
  fold_left
    (fun '(j2len, best) i =>
       inner_loop i blo bhi j2len (default [] (b2j !! item a i)) ∅ best)
    (seq alo (ahi - alo)) (∅, (alo, blo, 0%nat)).

(** The two kinds of [while] loop that grow the block at its ends;
    [ok] is the test on [b]'s element. *)
Fixpoint extend_left (ok : ascii -> bool) (alo blo : nat)
    (besti bestj bestsize : nat) {struct besti} : nat * nat * nat :=
  match besti, bestj with
  | S i', S j' =>
      if (alo <? besti)%nat && (blo <? bestj)%nat && ok (item b j')
         && bool_decide (item a i' = item b j')
      then extend_left ok alo blo i' j' (S bestsize)
      else (besti, bestj, bestsize)
  | _, _ => (besti, bestj, bestsize)
  end.

Fixpoint extend_right (fuel : nat) (ok : ascii -> bool) (ahi bhi : nat)
    (besti bestj bestsize : nat) {struct fuel} : nat * nat * nat :=
  match fuel with
  | O => (besti, bestj, bestsize)
  | S fuel' =>
      if (besti + bestsize <? ahi)%nat && (bestj + bestsize <? bhi)%nat
         && ok (item b (bestj + bestsize))
         && bool_decide (item a (besti + bestsize)
                         = item b (bestj + bestsize))
      then extend_right fuel' ok ahi bhi besti bestj (S bestsize)
      else (besti, bestj, bestsize)
  end.

(** One pass of each loop; the second one stops at [ahi] at the
    latest, so [ahi - (besti + bestsize)] iterations are enough. *)
Definition extend (ok : ascii -> bool) (alo ahi blo bhi : nat)
    (best : nat * nat * nat) : nat * nat * nat :=
  let '(besti, bestj, bestsize) := best in
  let '(besti, bestj, bestsize) :=
    extend_left ok alo blo besti bestj bestsize in
  extend_right (ahi - (besti + bestsize)) ok ahi bhi besti bestj bestsize.

Definition find_longest_match (alo ahi blo bhi : nat) : nat * nat * nat :=
  let best := (outer_loop alo ahi blo bhi).2 in
  let best := extend (fun c => negb (isbjunk c)) alo ahi blo bhi best in
  extend isbjunk alo ahi blo bhi best.

(** The [while queue] loop of [get_matching_blocks].  The queue is a
    stack, its top at the head of the list. *)
Fixpoint blocks_loop (fuel : nat) (queue : list (nat * nat * nat * nat))
    (matching_blocks : list (nat * nat * nat))
  : option (list (nat * nat * nat)) :=
  match queue with
  | [] => Some matching_blocks
  | (alo, ahi, blo, bhi) :: queue' =>
      match fuel with
      | O => None
      | S fuel' =>
          let '(i, j, k) := find_longest_match alo ahi blo bhi in
          if (k =? 0)%nat then blocks_loop fuel' queue' matching_blocks
          else
            let queue1 :=
              if (alo <? i)%nat && (blo <? j)%nat
              then (alo, i, blo, j) :: queue' else queue' in
            let queue2 :=
              if (i + k <? ahi)%nat && (j + k <? bhi)%nat
              then ((i + k)%nat, ahi, (j + k)%nat, bhi) :: queue1
              else queue1 in
            blocks_loop fuel' queue2 (matching_blocks ++ [(i, j, k)])
      end
  end.

Definition block_ltb (x y : nat * nat * nat) : bool :=
  let '(i1, j1, k1) := x in
  let '(i2, j2, k2) := y in
  if negb (i1 =? i2)%nat then (i1 <? i2)%nat
  else if negb (j1 =? j2)%nat then (j1 <? j2)%nat
  else (k1 <? k2)%nat.

(** The loop that merges adjacent blocks. *)
Definition collapse (blocks : list (nat * nat * nat))
  : list (nat * nat * nat) :=
  let '(non_adjacent, (i1, j1, k1)) :=
    fold_left
      (fun '(non_adjacent, (i1, j1, k1)) '(i2, j2, k2) =>
         if ((i1 + k1 =? i2) && (j1 + k1 =? j2))%nat
         then (non_adjacent, (i1, j1, (k1 + k2)%nat))
         else ((if (k1 =? 0)%nat then non_adjacent
                else non_adjacent ++ [(i1, j1, k1)]),
               (i2, j2, k2)))
      blocks ([], (0%nat, 0%nat, 0%nat)) in
  if (k1 =? 0)%nat then non_adjacent else non_adjacent ++ [(i1, j1, k1)].

(** Every turn of the loop takes one range from the queue, and a turn
    that finds a block splits its range into at most two shorter ones:
    [2 * len(a) + 1] turns empty the queue. *)
Definition get_matching_blocks : list (nat * nat * nat) :=
  let la := length a in
  let lb := length b in
  let matching_blocks :=
    default [] (blocks_loop (2 * la + 1) [(0%nat, la, 0%nat, lb)] []) in
  collapse (Py.sorted block_ltb matching_blocks) ++ [(la, lb, 0%nat)].

Definition _calculate_ratio (matches length : nat) : Float.float :=
  if (length =? 0)%nat then Float.one
  else Float.div (Float.mul Float.two (Float.of_int (Z.of_nat matches)))
                 (Float.of_int (Z.of_nat length)).

Definition matches : nat :=
  foldr (fun triple acc => (triple.2 + acc)%nat) 0%nat get_matching_blocks.

Definition ratio : Float.float :=
  _calculate_ratio matches (length a + length b).

End SequenceMatcher.

Definition str_ratio (a b : string) : Float.float :=
  ratio (list_ascii_of_string a) (list_ascii_of_string b).

End Difflib.

(** ** Data model *)

Record RouteRow : Type := {
  route_id : string;
  from_stop : string;
  to_stop : string;
  bus_number : string;
  departure_time : string;
  departure_minutes : Z;
  duration_minutes : Z;
  stops : list string
}.

(** The attributes of a [TransportAgent] that the queries read.  The
    routes come from [_load_csv]; the lists of options are not used by the
    queries. *)
Record TransportAgent : Type := {
  routes : list RouteRow;
  known_stops : list string;
  stop_lookup : gmap string string;
  aliases : gmap string string
}.

(** The dictionary returned by [find_route]. *)
Record RoutePayload : Type := {
  p_bus_number : string;
  p_departure_time : string;
  p_duration_minutes : Z;
  p_stops : list string
}.

(** The dictionary built for a first or a second leg. *)
Record Leg : Type := {
  l_transfer_stop : string;
  l_bus_number : string;
  l_departure_time : string;
  l_departure_minutes : Z;
  l_duration_minutes : Z;
  l_stops : list string
}.

(** The dictionary returned by [suggest_alternative]; its ["type"] is the
    constant ["transfer"]. *)
Record TransferPlan : Type := {
  t_from_stop : string;
  t_to_stop : string;
  t_transfer_stop : string;
  t_leg1 : RoutePayload;
  t_leg2 : RoutePayload;
  t_total_duration_minutes : Z
}.

(** ** Tuples used as sort keys *)

Definition str_ltb (x y : string) : bool := String.ltb x y.

(** [(a1, b1, c1) < (a2, b2, c2)] on [(int, int, str)]. *)
Definition key3_ltb (x y : Z * Z * string) : bool :=
  let '(a1, b1, c1) := x in
  let '(a2, b2, c2) := y in
  if negb (a1 =? a2) then a1 <? a2
  else if negb (b1 =? b2) then b1 <? b2
  else str_ltb c1 c2.

(** The same on [(int, int, int, str)]. *)
Definition key4_ltb (x y : Z * Z * Z * string) : bool :=
  let '(a1, b1, c1, d1) := x in
  let '(a2, b2, c2, d2) := y in
  if negb (a1 =? a2) then a1 <? a2
  else key3_ltb (b1, c1, d1) (b2, c2, d2).

(** ** The methods of [TransportAgent] *)

Definition _normalize (value : string) : string :=
  Py.join " " (Py.split (Py.lower (Py.strip value))).

Definition _clock_to_minutes (hhmm : string) : result Z :=
  let* parsed := Strptime.strptime hhmm in
  Ok (parsed.1 * 60 + parsed.2).

Definition _parse_time (value : string) : option Z :=
  let text := Py.strip value in
  if negb (Py.truthy text) then None
  else match _clock_to_minutes text with
       | Ok minutes => Some minutes
       | Raise _ => None
       end.

Definition _build_stop_list (routes : list RouteRow) : list string :=
  (fold_left
     (fun state route =>
        fold_left
          (fun '(ordered, seen) stop =>
             let key := _normalize stop in
             if decide (key ∈ (seen : gset string)) then (ordered, seen)
             else (ordered ++ [stop], seen ∪ {[key]}))
          (stops route) state)
     routes ([], ∅)).1.

Definition alias_table : gmap string string :=
  <["gomti nagr" := "gomti nagar"]>
  (<["gomtinagar" := "gomti nagar"]>
  (<["charbagh station" := "charbagh"]>
  (<["railway station" := "charbagh"]>
  (<["station" := "charbagh"]>
  (<["amausi" := "amausi airport"]>
  (<["airport" := "amausi airport"]> ∅)))))).

(** [__init__], once [_load_csv] has returned the routes. *)
Definition init (routes : list RouteRow) : TransportAgent :=
  let known_stops := _build_stop_list routes in
  {| routes := routes;
     known_stops := known_stops;
     stop_lookup :=
       fold_left (fun (m : gmap string string) stop =>
                    <[_normalize stop := stop]> m) known_stops ∅;
     aliases := alias_table |}.

(** The score of one known stop in [_resolve_stop]. *)
Definition stop_score (key stop_key : string) : Float.float :=
  let score := Difflib.str_ratio key stop_key in
  if Py.contains stop_key key || Py.contains key stop_key
  then Float.add score Float.lit_0_12
  else score.

Definition _resolve_stop (self : TransportAgent) (raw_stop : string)
  : option string :=
  let key := _normalize raw_stop in
  if negb (Py.truthy key) then None
  else
    let key := default key (aliases self !! key) in
    match stop_lookup self !! key with
    | Some stop => Some stop
    | None =>
        let '(best_name, best_score) :=
          fold_left
            (fun '(best_name, best_score) stop =>
               let stop_key := _normalize stop in
               let score := stop_score key stop_key in
               if Float.ltb best_score score then (Some stop, score)
               else (best_name, best_score))
            (known_stops self) (None, Float.zero) in
        match best_name with
        | None => None
        | Some name =>
            if Float.ltb best_score Float.lit_0_70 then None else Some name
        end
    end.

(** [for end in range(start + 1, len(normalized_stops))] with its test. *)
Definition first_end (normalized_stops : list string) (to_key : string)
    (start : nat) : option nat :=
  List.find
    (fun end_ => bool_decide (normalized_stops !! end_ = Some to_key))
    (seq (start + 1) (length normalized_stops - (start + 1))).

Definition _route_leg (stops : list string) (from_stop to_stop : string)
  : option (nat * nat) :=
  let normalized_stops := map _normalize stops in
  let from_key := _normalize from_stop in
  let to_key := _normalize to_stop in
  match Py.index normalized_stops from_key with
  | None => None
  | Some start =>
      match first_end normalized_stops to_key start with
      | Some end_ => Some (start, end_)
      | None => None
      end
  end.

Definition _find_stop_index (stops : list string) (stop_name : string)
  : option nat :=
  let target := _normalize stop_name in
  let normalized := map _normalize stops in
  Py.index normalized target.

(** [not resolved]: the stop is [None] or the empty string. *)
Definition unresolved (resolved : option string) : bool :=
  match resolved with
  | None => true
  | Some s => negb (Py.truthy s)
  end.

Definition route_key (after_minutes : option Z) (route : RouteRow)
  : Z * Z * string :=
  match after_minutes with
  | Some after => (departure_minutes route - after, duration_minutes route,
                   route_id route)
  | None => (duration_minutes route, departure_minutes route, route_id route)
  end.

Definition route_payload (route : RouteRow) (start_idx end_idx : nat)
  : RoutePayload :=
  {| p_bus_number := bus_number route;
     p_departure_time := departure_time route;
     p_duration_minutes := duration_minutes route;
     p_stops := Py.slice (stops route) start_idx (end_idx + 1) |}.

(** The list [matches] at the end of the loop over the routes. *)
Definition find_route_matches (self : TransportAgent)
    (resolved_from resolved_to : string) (after_minutes : option Z)
  : list ((Z * Z * string) * RoutePayload) :=
  fold_left
    (fun matches route =>
       match _route_leg (stops route) resolved_from resolved_to with
       | None => matches
       | Some (start_idx, end_idx) =>
           if match after_minutes with
              | Some after => departure_minutes route <? after
              | None => false
              end
           then matches
           else matches ++ [(route_key after_minutes route,
                             route_payload route start_idx end_idx)]
       end)
    (routes self) [].

Definition find_route (self : TransportAgent)
    (from_stop to_stop after_time : string) : option RoutePayload :=
  let resolved_from := _resolve_stop self from_stop in
  let resolved_to := _resolve_stop self to_stop in
  if unresolved resolved_from || unresolved resolved_to then None
  else
    let resolved_from := default "" resolved_from in
    let resolved_to := default "" resolved_to in
    let after_minutes := _parse_time after_time in
    let matches :=
      find_route_matches self resolved_from resolved_to after_minutes in
    (* [if not matches: return None]: the sorted list is empty exactly
       when [matches] is *)
    match Py.sorted (fun x y => key3_ltb x.1 y.1) matches with
    | [] => None
    | item :: _ => Some item.2
    end.

Definition _segment_duration (route : RouteRow) (start_idx end_idx : Z)
  : result Z :=
  let total_edges := Z.max 1 (Z.of_nat (length (stops route)) - 1) in
  let segment_edges := Z.max 1 (end_idx - start_idx) in
  let* fraction := Float.int_truediv segment_edges total_edges in
  let* duration := Float.of_int_checked (duration_minutes route) in
  let* rounded := Float.round (Float.mul duration fraction) in
  Ok (Z.max 5 rounded).

(** The key of [_best_second_leg_for_first_leg]. *)
Definition key_fn (first_departure : Z) (leg : Leg) : Z * Z * string :=
  let departure := l_departure_minutes leg in
  let wait := departure - first_departure in
  let wait := if wait <? 0 then wait + 24 * 60 else wait in
  (wait, l_duration_minutes leg, l_bus_number leg).

Definition _best_second_leg_for_first_leg (candidates : list Leg)
    (first_departure : Z) : result Leg :=
  Py.first
    (Py.sorted
       (fun x y => key3_ltb (key_fn first_departure x) (key_fn first_departure y))
       candidates).

Definition leg_payload (route : RouteRow) (transfer_stop : string)
    (duration : Z) (lo hi : nat) : Leg :=
  {| l_transfer_stop := transfer_stop;
     l_bus_number := bus_number route;
     l_departure_time := departure_time route;
     l_departure_minutes := departure_minutes route;
     l_duration_minutes := duration;
     l_stops := Py.slice (stops route) lo hi |}.

(** [for transfer_idx in range(start_idx + 1, len(route.stops))]. *)
Definition add_first_legs (route : RouteRow) (start_idx : nat)
    (first_legs : list Leg) : result (list Leg) :=
  foldM
    (fun first_legs transfer_idx =>
       let* transfer_stop := Py.getitem (stops route) transfer_idx in
       let* duration :=
         _segment_duration route (Z.of_nat start_idx) (Z.of_nat transfer_idx) in
       Ok (first_legs
             ++ [leg_payload route transfer_stop duration
                   start_idx (transfer_idx + 1)]))
    (seq (start_idx + 1) (length (stops route) - (start_idx + 1)))
    first_legs.

(** [for transfer_idx in range(0, end_idx)]. *)
Definition add_second_legs (route : RouteRow) (end_idx : nat)
    (second_legs_by_transfer : gmap string (list Leg))
  : result (gmap string (list Leg)) :=
  foldM
    (fun (second_legs_by_transfer : gmap string (list Leg)) transfer_idx =>
       let* transfer_stop := Py.getitem (stops route) transfer_idx in
       let* duration :=
         _segment_duration route (Z.of_nat transfer_idx) (Z.of_nat end_idx) in
       let leg := leg_payload route transfer_stop duration
                    transfer_idx (end_idx + 1) in
       let transfer_key := _normalize transfer_stop in
       Ok (<[transfer_key :=
               default [] (second_legs_by_transfer !! transfer_key) ++ [leg]]>
             second_legs_by_transfer))
    (seq 0 end_idx)
    second_legs_by_transfer.

(** The first loop of [suggest_alternative], over the routes. *)
Definition collect_legs (self : TransportAgent)
    (resolved_from resolved_to : string) (after_minutes : option Z)
  : result (list Leg * gmap string (list Leg)) :=
  foldM
    (fun '(first_legs, second_legs_by_transfer) route =>
       let* first_legs :=
         match _find_stop_index (stops route) resolved_from with
         | Some start_idx =>
             if match after_minutes with
                | None => true
                | Some after => after <=? departure_minutes route
                end
             then add_first_legs route start_idx first_legs
             else Ok first_legs
         | None => Ok first_legs
         end in
       let* second_legs_by_transfer :=
         match _find_stop_index (stops route) resolved_to with
         | Some end_idx => add_second_legs route end_idx second_legs_by_transfer
         | None => Ok second_legs_by_transfer
         end in
       Ok (first_legs, second_legs_by_transfer))
    (routes self) ([], ∅).

(** The test that rejects a pairing: both conjuncts of the [if]. *)
Definition same_endpoints (leg1 leg2 : Leg) : result bool :=
  let* first1 := Py.first (l_stops leg1) in
  let* first2 := Py.first (l_stops leg2) in
  if bool_decide (_normalize first1 = _normalize first2) then
    let* last1 := Py.last (l_stops leg1) in
    let* last2 := Py.last (l_stops leg2) in
    Ok (bool_decide (_normalize last1 = _normalize last2))
  else Ok false.

Definition plan_payload (resolved_from resolved_to : string)
    (leg1 leg2 : Leg) (total_duration : Z) : TransferPlan :=
  {| t_from_stop := resolved_from;
     t_to_stop := resolved_to;
     t_transfer_stop := l_transfer_stop leg1;
     t_leg1 := {| p_bus_number := l_bus_number leg1;
                  p_departure_time := l_departure_time leg1;
                  p_duration_minutes := l_duration_minutes leg1;
                  p_stops := l_stops leg1 |};
     t_leg2 := {| p_bus_number := l_bus_number leg2;
                  p_departure_time := l_departure_time leg2;
                  p_duration_minutes := l_duration_minutes leg2;
                  p_stops := l_stops leg2 |};
     t_total_duration_minutes := total_duration |}.

(** The body of the second loop, [for leg1 in first_legs]. *)
Definition plan_step (resolved_from resolved_to : string)
    (second_legs_by_transfer : gmap string (list Leg))
    (best_plan : option ((Z * Z * Z * string) * TransferPlan)) (leg1 : Leg)
  : result (option ((Z * Z * Z * string) * TransferPlan)) :=
  let transfer_key := _normalize (l_transfer_stop leg1) in
  let leg2_candidates := default [] (second_legs_by_transfer !! transfer_key) in
  match leg2_candidates with
  | [] => Ok best_plan
  | _ =>
      let* leg2 :=
        _best_second_leg_for_first_leg leg2_candidates
          (l_departure_minutes leg1) in
      let* same := same_endpoints leg1 leg2 in
      if same then Ok best_plan
      else
        let wait_minutes :=
          Z.max 0 (l_departure_minutes leg2 - l_departure_minutes leg1) in
        let total_duration :=
          l_duration_minutes leg1 + l_duration_minutes leg2 + wait_minutes in
        let sort_key :=
          (total_duration, l_departure_minutes leg1, l_departure_minutes leg2,
           l_bus_number leg1) in
        let payload :=
          plan_payload resolved_from resolved_to leg1 leg2 total_duration in
        match best_plan with
        | None => Ok (Some (sort_key, payload))
        | Some best =>
            if key4_ltb sort_key best.1 then Ok (Some (sort_key, payload))
            else Ok best_plan
        end
  end.

(** The value of [best_plan] at the end of [suggest_alternative]. *)
Definition best_plan (self : TransportAgent)
    (resolved_from resolved_to : string) (after_minutes : option Z)
  : result (option ((Z * Z * Z * string) * TransferPlan)) :=
  let* legs := collect_legs self resolved_from resolved_to after_minutes in
  foldM (plan_step resolved_from resolved_to legs.2) legs.1 None.

Definition suggest_alternative (self : TransportAgent)
    (from_stop to_stop after_time : string) : result (option TransferPlan) :=
  let resolved_from := _resolve_stop self from_stop in
  let resolved_to := _resolve_stop self to_stop in
  if unresolved resolved_from || unresolved resolved_to then Ok None
  else
    let resolved_from := default "" resolved_from in
    let resolved_to := default "" resolved_to in
    let after_minutes := _parse_time after_time in
    let* best := best_plan self resolved_from resolved_to after_minutes in
    Ok (snd <$> best).

(** ** The built-ins of [_load_csv]: [str.split(sep)] and [int(str)] *)

Module Builtin.

(** [s.split(sep)] for a separator of one character: the pieces between
    the occurrences of [sep], empty ones included.  [cur] is the current
    piece, reversed. *)
Fixpoint split_char_go (sep : ascii) (cur : string) (s : string)
  : list string :=
  match s with
  | EmptyString => [String.rev cur]
  | String c s' =>
      if Ascii.eqb c sep then String.rev cur :: split_char_go sep EmptyString s'
      else split_char_go sep (String c cur) s'
  end.

Definition split_char (sep : ascii) (s : string) : list string :=
  split_char_go sep EmptyString s.

(** The whitespace that [int] accepts around a number: the ASCII
    whitespace and, above 127, the characters of [str.isspace]. *)
Definition int_space (c : ascii) : bool :=
  let n := Py.code c in
  ((9 <=? n) && (n <=? 13) || (n =? 32) || (n =? 133) || (n =? 160))%N.

Fixpoint skip_spaces (s : string) : string :=
  match s with
  | EmptyString => EmptyString
  | String c s' => if int_space c then skip_spaces s' else s
  end.

(** The digits of a number, with single underscores allowed between
    two digits: the value and the number of digits.  [after_digit] tells
    whether the previous character was a digit. *)
Fixpoint digits (acc : Z) (count : nat) (after_digit : bool) (s : string)
  : option (Z * nat) :=
  match s with
  | EmptyString => if after_digit then Some (acc, count) else None
  | String c s' =>
      match Strptime.digit c with
      | Some d => digits (10 * acc + d) (S count) true s'
      | None =>
          if Ascii.eqb c "_" && after_digit then digits acc count false s'
          else None
      end
  end.

(** The limit of [sys.int_max_str_digits]. *)
Definition int_max_str_digits : nat := 4300.

(** [int(s)] in base 10. *)
Definition int (s : string) : result Z :=
  let text := String.rev (skip_spaces (String.rev (skip_spaces s))) in
  let '(negative, body) :=
    match text with
    | String "+" rest => (false, rest)
    | String "-" rest => (true, rest)
    | _ => (false, text)
    end in
  match digits 0 0 false body with
  | Some (value, count) =>
      if (int_max_str_digits <? count)%nat then Raise ValueError
      else Ok (if negative then - value else value)
  | None => Raise ValueError
  end.

End Builtin.

(** ** [_load_csv]

    The rows are the dictionaries that [csv.DictReader] yields: a key for
    each column of the header, with the text of the field or [None] when
    the line is too short. *)

Inductive load_exn : Type :=
| KeyError (key : string)
| AttributeError
| TypeError
| Builtin_exn (e : exn).

Inductive loaded (A : Type) : Type :=
| Loaded (a : A)
| Failed (e : load_exn).

Arguments Loaded {A} a.
Arguments Failed {A} e.

Definition lbind {A B : Type} (c : loaded A) (f : A -> loaded B) : loaded B :=
  match c with
  | Loaded a => f a
  | Failed e => Failed e
  end.

Notation "'let+' x ':=' c 'in' k" := (lbind c (fun x => k))
  (at level 10, x name, c at level 100, k at level 200).

Definition lift {A : Type} (c : result A) : loaded A :=
  match c with
  | Ok a => Loaded a
  | Raise e => Failed (Builtin_exn e)
  end.

(** [row[key]]. *)
Definition field (row : gmap string (option string)) (key : string)
  : loaded (option string) :=
  match row !! key with
  | Some value => Loaded value
  | None => Failed (KeyError key)
  end.

(** A method call on a field: [AttributeError] on [None]. *)
Definition text (value : option string) : loaded string :=
  match value with
  | Some s => Loaded s
  | None => Failed AttributeError
  end.

(** [row[key].strip()]. *)
Definition stripped (row : gmap string (option string)) (key : string)
  : loaded string :=
  let+ value := field row key in
  let+ s := text value in
  Loaded (Py.strip s).

(** The body of the loop of [_load_csv]. *)
Definition load_row (row : gmap string (option string)) : loaded RouteRow :=
  let+ stops_field := field row "stops" in
  let+ stops_text := text stops_field in
  let stops :=
    Py.strip
      <$> List.filter (fun stop => Py.truthy (Py.strip stop))
            (Builtin.split_char "|" stops_text) in
  let+ departure := stripped row "departure_time" in
  let+ route_id := stripped row "route_id" in
  let+ from_stop := stripped row "from_stop" in
  let+ to_stop := stripped row "to_stop" in
  let+ bus_number := stripped row "bus_number" in
  let+ departure_minutes := lift (_clock_to_minutes departure) in
  let+ duration_field := field row "duration_minutes" in
  let+ duration_minutes :=
    match duration_field with
    | Some s => lift (Builtin.int s)
    | None => Failed TypeError
    end in
  Loaded {| route_id := route_id;
            from_stop := from_stop;
            to_stop := to_stop;
            bus_number := bus_number;
            departure_time := departure;
            departure_minutes := departure_minutes;
            duration_minutes := duration_minutes;
            stops := stops |}.

Fixpoint load_rows (reader : list (gmap string (option string)))
    (rows : list RouteRow) : loaded (list RouteRow) :=
  match reader with
  | [] => Loaded rows
  | row :: reader' =>
      let+ route := load_row row in
      load_rows reader' (rows ++ [route])
  end.

Definition _load_csv (reader : list (gmap string (option string)))
  : loaded (list RouteRow) :=
  load_rows reader [].

(** ** The lists of options

    [sorted({row.from_stop for row in self.routes})]: the set is given by
    the list of its elements in the order of their first appearance; the
    order in which a set is iterated does not change the sorted list, as
    [options_any_order] shows. *)

Definition from_options (routes : list RouteRow) : list string :=
  Py.sorted str_ltb (remove_dups (from_stop <$> routes)).

Definition to_options (routes : list RouteRow) : list string :=
  Py.sorted str_ltb (remove_dups (to_stop <$> routes)).

(** The dictionary returned by [get_options]. *)
Record Options : Type := {
  o_from_options : list string;
  o_to_options : list string
}.

Definition get_options (self : TransportAgent) : Options :=
  {| o_from_options := from_options (routes self);
     o_to_options := to_options (routes self) |}.

(** ** Auxiliary definitions for the statements *)

(** The candidate of one route, if the route is one. *)
Definition route_match (resolved_from resolved_to : string)
    (after_minutes : option Z) (route : RouteRow)
  : option ((Z * Z * string) * RoutePayload) :=
  match _route_leg (stops route) resolved_from resolved_to with
  | None => None
  | Some (start_idx, end_idx) =>
      if match after_minutes with
         | Some after => departure_minutes route <? after
         | None => false
         end
      then None
      else Some (route_key after_minutes route,
                 route_payload route start_idx end_idx)
  end.

(** A stop text that cannot be resolved, in the words of the
    specification: its normalized form is empty, or it is neither an alias
    nor the normalized form of a known stop and it scores below 0.70
    against every known stop. *)
Definition unresolvable (self : TransportAgent) (raw_stop : string) : bool :=
  let key := _normalize raw_stop in
  negb (Py.truthy key)
  || (bool_decide (aliases self !! key = None)
      && bool_decide (stop_lookup self !! key = None)
      && forallb (fun stop =>
                    Float.ltb (stop_score key (_normalize stop))
                      Float.lit_0_70)
           (known_stops self)).

(** The loop over the stops of one route keeps the set [seen] equal to the
    normalized names of [ordered], which are pairwise distinct. *)
Definition stop_list_inv (state : list string * gset string) : Prop :=
  (forall key, key ∈ state.2 <-> key ∈ _normalize <$> state.1)
  /\ NoDup (_normalize <$> state.1).

(** A first leg ends at its transfer stop. *)
Definition first_leg_ok (leg : Leg) : Prop :=
  last (l_stops leg) = Some (l_transfer_stop leg).

(** A second leg filed under [key] starts at its transfer stop, whose
    normalized name is [key]. *)
Definition second_legs_ok (second_legs_by_transfer : gmap string (list Leg))
  : Prop :=
  forall key legs leg,
    second_legs_by_transfer !! key = Some legs ->
    leg ∈ legs ->
    head (l_stops leg) = Some (l_transfer_stop leg)
    /\ _normalize (l_transfer_stop leg) = key.

(** What [suggest_alternative] promises about a plan. *)
Definition plan_ok (plan : TransferPlan) : Prop :=
  exists first1 last1 first2 last2,
    head (p_stops (t_leg1 plan)) = Some first1
    /\ last (p_stops (t_leg1 plan)) = Some last1
    /\ head (p_stops (t_leg2 plan)) = Some first2
    /\ last (p_stops (t_leg2 plan)) = Some last2
    /\ last1 = t_transfer_stop plan
    /\ _normalize last1 = _normalize first2
    /\ (_normalize first1, _normalize last1)
       <> (_normalize first2, _normalize last2).

(** The positions of [c] in [b], in increasing order. *)
Definition positions (b : list ascii) (c : ascii) : list nat :=
  filter (fun i => b !! i = Some c) (seq 0 (length b)).

(** The elements that the heuristic of [__chain_b] removes from [b2j]. *)
Definition popular (b : list ascii) (c : ascii) : bool :=
  (200 <=? length b)%nat
  && negb (length (positions b c) <=? length b / 100 + 1)%nat.

(** The list of [j] that the inner loop of [find_longest_match] visits
    for the element [a[i]]. *)
Definition visited (a b : list ascii) (i : nat) : list nat :=
  default [] (Difflib.b2j b !! Difflib.item a i).

(** The length of the run of visited cells that ends at [(i, j)]: the
    value that the loops store in [j2len] for [j] in the turn [i]. *)
Fixpoint run (a b : list ascii) (i j : nat) : nat :=
  if bool_decide (j ∈ visited a b i) then
    S (match i, j with
       | S i', S j' => run a b i' j'
       | _, _ => 0%nat
       end)
  else 0%nat.

(** The value of [j2len] at the start of the turn [i]. *)
Definition prev_row (a b : list ascii) (i j : nat) : nat :=
  match i with
  | O => 0%nat
  | S i' => run a b i' j
  end.

(** The mantissa of the [float] of a positive integer below [2^53]. *)
Definition mantissa (p : positive) : positive :=
  match (53 - Zpos (digits2_pos p))%Z with
  | Zpos k => Pos.iter xO p k
  | _ => p
  end.

(** The segment duration over exact arithmetic, in the words of the
    specification: [max(5, round(total * segment_edges / total_edges))]
    with the quotient taken in the rationals and rounded to the nearest
    integer, ties to even. *)
Definition segment_duration_exact (route : RouteRow) (start_idx end_idx : Z)
  : Z :=
  let total_edges := Z.max 1 (Z.of_nat (length (stops route)) - 1) in
  let segment_edges := Z.max 1 (end_idx - start_idx) in
  Z.max 5 (Float.div_half_even (duration_minutes route * segment_edges)
             total_edges).

(** The block [best] lies in the ranges [alo, ahi) and [blo, bhi). *)
Definition block_in (alo ahi blo bhi : nat) (best : nat * nat * nat) : Prop :=
  (alo <= best.1.1 /\ best.1.1 + best.2 <= ahi
   /\ blo <= best.1.2 /\ best.1.2 + best.2 <= bhi)%nat.

(** The entries of [j2len] at the start of the turn [i]: a run that ends
    at [(i - 1, j)] starts at or after [(alo, blo)]. *)
Definition runs_in (alo blo i : nat) (j2len : gmap nat nat) : Prop :=
  forall j v, j2len !! j = Some v -> (v + alo <= i /\ v + blo <= j + 1)%nat.

(** The work left in the queue of [get_matching_blocks]. *)
Definition queue_weight (queue : list (nat * nat * nat * nat)) : nat :=
  foldr (fun '(alo, ahi, _, _) acc => (2 * (ahi - alo) + 1 + acc)%nat) 0%nat
    queue.

(** The record [mrs] holds the quotient [N / D] and where the remainder
    lies with respect to the middle of [D]. *)
Definition encodes (mrs : shr_record) (N D : Z) : Prop :=
  shr_m mrs = N / D
  /\ shr_r mrs = (D <=? 2 * (N mod D))
  /\ shr_s mrs = negb (N mod D =? 0) && negb (2 * (N mod D) =? D).

(** Every character of [s] satisfies [P]. *)
Fixpoint all_chars (P : ascii -> bool) (s : string) : bool :=
  match s with
  | EmptyString => true
  | String c s' => P c && all_chars P s'
  end.

(** A text made of whitespace only, and a word: a text that is not empty
    and has no whitespace. *)
Definition blank (s : string) : bool := all_chars Py.isspace s.

Definition word (s : string) : bool :=
  Py.truthy s && all_chars (fun c => negb (Py.isspace c)) s.

(** The decimal digit [d] as a character, and a number below 100 written
    with two digits. *)
Definition digit_char (d : Z) : ascii := ascii_of_N (Z.to_N (48 + d)).

Definition two_digits (n : Z) : string :=
  String (digit_char (n / 10)) (String (digit_char (n mod 10)) "").

Definition one_digit (n : Z) : string := String (digit_char n) "".

(** The ways of writing [n] that [strptime] reads as [n]: with two digits,
    or with one digit when [n] is below 10. *)
Definition digit_forms (n : Z) : list string :=
  if n <? 10 then [two_digits n; one_digit n] else [two_digits n].

(** The check of [clock_forms_accepted] on all the hours and minutes. *)
Definition clock_forms_ok (h m : Z) : bool :=
  forallb
    (fun hh =>
       forallb
         (fun mm =>
            match _clock_to_minutes (hh +:+ ":" +:+ mm) with
            | Ok minutes => minutes =? h * 60 + m
            | Raise _ => false
            end)
         (digit_forms m))
    (digit_forms h).

(** The stops of all the routes, in the order of [_build_stop_list]. *)
Definition all_stops (routes : list RouteRow) : list string :=
  mjoin (stops <$> routes).

(** The stop at the position [i] of [l] is the first one of [l] with its
    normalized name. *)
Definition first_seen (l : list string) (i : nat) (stop : string) : Prop :=
  l !! i = Some stop
  /\ forall k other,
       (k < i)%nat -> l !! k = Some other ->
       _normalize other <> _normalize stop.

(** What the loop of [_build_stop_list] keeps true of its state, [l]
    being the stops seen so far. *)
Definition stop_list_seen (l : list string)
    (state : list string * gset string) : Prop :=
  (forall key, key ∈ state.2 <-> key ∈ _normalize <$> l)
  /\ (forall key, key ∈ _normalize <$> l -> key ∈ _normalize <$> state.1)
  /\ state.1 `sublist_of` l
  /\ forall stop, stop ∈ state.1 -> exists i, first_seen l i stop.

(** The loop of [_resolve_stop] over the known stops. *)
Definition resolve_loop (key : string) (l : list string)
    (best : option string * Float.float) : option string * Float.float :=
  fold_left
    (fun '(best_name, best_score) stop =>
       let stop_key := _normalize stop in
       let score := stop_score key stop_key in
       if Float.ltb best_score score then (Some stop, score)
       else (best_name, best_score))
    l best.

(** The stop at the position [i] of [l] is the best match of [key]: the
    stops before it score strictly less and no stop scores more. *)
Definition best_match (key : string) (l : list string) (i : nat)
    (stop : string) : Prop :=
  l !! i = Some stop
  /\ (forall k other,
        (k < i)%nat -> l !! k = Some other ->
        Float.ltb (stop_score key (_normalize other))
          (stop_score key (_normalize stop)) = true)
  /\ (forall other,
        other ∈ l ->
        Float.ltb (stop_score key (_normalize stop))
          (stop_score key (_normalize other)) = false).

(** The first leg of [suggest_alternative] on the route [route], from the
    first position of the resolved [from] stop to [transfer_idx]. *)
Definition first_leg_at (resolved_from : string) (after_minutes : option Z)
    (route : RouteRow) (start_idx transfer_idx : nat) (leg : Leg) : Prop :=
  _find_stop_index (stops route) resolved_from = Some start_idx
  /\ (start_idx < transfer_idx)%nat
  /\ (forall after, after_minutes = Some after ->
                    after <= departure_minutes route)
  /\ exists transfer_stop duration,
       stops route !! transfer_idx = Some transfer_stop
       /\ _segment_duration route (Z.of_nat start_idx) (Z.of_nat transfer_idx)
          = Ok duration
       /\ leg = leg_payload route transfer_stop duration
                  start_idx (transfer_idx + 1).

(** The second leg on the route [route], from [transfer_idx] to the first
    position of the resolved [to] stop. *)
Definition second_leg_at (resolved_to : string) (route : RouteRow)
    (transfer_idx end_idx : nat) (leg : Leg) : Prop :=
  _find_stop_index (stops route) resolved_to = Some end_idx
  /\ (transfer_idx < end_idx)%nat
  /\ exists transfer_stop duration,
       stops route !! transfer_idx = Some transfer_stop
       /\ _segment_duration route (Z.of_nat transfer_idx) (Z.of_nat end_idx)
          = Ok duration
       /\ leg = leg_payload route transfer_stop duration
                  transfer_idx (end_idx + 1).

(** The legs filed under [key] in [second_legs_by_transfer]. *)
Definition legs_at (second_legs_by_transfer : gmap string (list Leg))
    (key : string) : list Leg :=
  default [] (second_legs_by_transfer !! key).

(** The total duration and the sort key that the second loop of
    [suggest_alternative] computes for two legs. *)
Definition pair_total (leg1 leg2 : Leg) : Z :=
  l_duration_minutes leg1 + l_duration_minutes leg2
  + Z.max 0 (l_departure_minutes leg2 - l_departure_minutes leg1).

Definition pair_key (leg1 leg2 : Leg) : Z * Z * Z * string :=
  (pair_total leg1 leg2, l_departure_minutes leg1, l_departure_minutes leg2,
   l_bus_number leg1).

(** The loop pairs [leg1] with [leg2] and keeps the pairing: [leg2] is
    the best of the second legs filed under the transfer stop of [leg1], and
    the two legs do not have the same end stops. *)
Definition pairing (second_legs_by_transfer : gmap string (list Leg))
    (leg1 leg2 : Leg) : Prop :=
  let candidates :=
    legs_at second_legs_by_transfer (_normalize (l_transfer_stop leg1)) in
  candidates <> []
  /\ _best_second_leg_for_first_leg candidates (l_departure_minutes leg1)
     = Ok leg2
  /\ same_endpoints leg1 leg2 = Ok false.

(** ** Sample timetables *)

Module Sample.

(** Two direct routes from A to C, of 30 and of 45 minutes, the shorter
    one leaving first. *)
Definition route_30 : RouteRow :=
  {| route_id := "R1"; from_stop := "A"; to_stop := "C";
     bus_number := "10"; departure_time := "08:00";
     departure_minutes := 480; duration_minutes := 30;
     stops := ["A"; "B"; "C"] |}.

Definition route_45 : RouteRow :=
  {| route_id := "R2"; from_stop := "A"; to_stop := "C";
     bus_number := "20"; departure_time := "09:30";
     departure_minutes := 570; duration_minutes := 45;
     stops := ["A"; "C"] |}.

Definition direct : TransportAgent := init [route_45; route_30].

(** A timetable with a stop whose name is an alias of another stop. *)
Definition route_airport : RouteRow :=
  {| route_id := "R9"; from_stop := "Airport"; to_stop := "Amausi Airport";
     bus_number := "90"; departure_time := "07:15";
     departure_minutes := 435; duration_minutes := 20;
     stops := ["Airport"; "Amausi Airport"] |}.

Definition airport : TransportAgent := init [route_airport].

(** The example of the specification: A, B, C at 08:00 for 30 minutes and
    C, D at 08:20 for 15 minutes. *)
Definition route_abc : RouteRow :=
  {| route_id := "R1"; from_stop := "A"; to_stop := "C";
     bus_number := "10"; departure_time := "08:00";
     departure_minutes := 480; duration_minutes := 30;
     stops := ["A"; "B"; "C"] |}.

Definition route_cd : RouteRow :=
  {| route_id := "R2"; from_stop := "C"; to_stop := "D";
     bus_number := "20"; departure_time := "08:20";
     departure_minutes := 500; duration_minutes := 15;
     stops := ["C"; "D"] |}.

Definition transfer : TransportAgent := init [route_abc; route_cd].

Definition transfer_plan : TransferPlan :=
  {| t_from_stop := "A"; t_to_stop := "D"; t_transfer_stop := "C";
     t_leg1 := {| p_bus_number := "10"; p_departure_time := "08:00";
                  p_duration_minutes := 30; p_stops := ["A"; "B"; "C"] |};
     t_leg2 := {| p_bus_number := "20"; p_departure_time := "08:20";
                  p_duration_minutes := 15; p_stops := ["C"; "D"] |};
     t_total_duration_minutes := 65 |}.

(** A connection whose second bus leaves before the first one: A, B at
    10:00 and B, C at 08:00. *)
Definition route_ab_late : RouteRow :=
  {| route_id := "R3"; from_stop := "A"; to_stop := "B";
     bus_number := "30"; departure_time := "10:00";
     departure_minutes := 600; duration_minutes := 20;
     stops := ["A"; "B"] |}.

Definition route_bc_early : RouteRow :=
  {| route_id := "R4"; from_stop := "B"; to_stop := "C";
     bus_number := "40"; departure_time := "08:00";
     departure_minutes := 480; duration_minutes := 15;
     stops := ["B"; "C"] |}.

Definition late : TransportAgent := init [route_ab_late; route_bc_early].

Definition late_plan : TransferPlan :=
  {| t_from_stop := "A"; t_to_stop := "C"; t_transfer_stop := "B";
     t_leg1 := {| p_bus_number := "30"; p_departure_time := "10:00";
                  p_duration_minutes := 20; p_stops := ["A"; "B"] |};
     t_leg2 := {| p_bus_number := "40"; p_departure_time := "08:00";
                  p_duration_minutes := 15; p_stops := ["B"; "C"] |};
     t_total_duration_minutes := 35 |}.

(** A route of 11 stops that takes 45 minutes, and one of 13 stops that
    takes 210 minutes. *)
Definition route_11 : RouteRow :=
  {| route_id := "R5"; from_stop := "S0"; to_stop := "S10";
     bus_number := "50"; departure_time := "06:00";
     departure_minutes := 360; duration_minutes := 45;
     stops := ["S0"; "S1"; "S2"; "S3"; "S4"; "S5"; "S6"; "S7"; "S8"; "S9";
               "S10"] |}.

Definition route_13 : RouteRow :=
  {| route_id := "R6"; from_stop := "S0"; to_stop := "S12";
     bus_number := "60"; departure_time := "06:30";
     departure_minutes := 390; duration_minutes := 210;
     stops := ["S0"; "S1"; "S2"; "S3"; "S4"; "S5"; "S6"; "S7"; "S8"; "S9";
               "S10"; "S11"; "S12"] |}.

Definition route_3 : RouteRow :=
  {| route_id := "R7"; from_stop := "S0"; to_stop := "S2";
     bus_number := "70"; departure_time := "06:00";
     departure_minutes := 360; duration_minutes := 63;
     stops := ["S0"; "S1"; "S2"] |}.

(** Two routes through the centre of a town. *)
Definition route_city : RouteRow :=
  {| route_id := "R10"; from_stop := "Charbagh"; to_stop := "Gomti Nagar";
     bus_number := "11"; departure_time := "07:00";
     departure_minutes := 420; duration_minutes := 40;
     stops := ["Charbagh"; "Hazratganj"; "Gomti Nagar"] |}.

Definition route_air : RouteRow :=
  {| route_id := "R11"; from_stop := "Hazratganj";
     to_stop := "Amausi Airport";
     bus_number := "12"; departure_time := "07:30";
     departure_minutes := 450; duration_minutes := 50;
     stops := ["Hazratganj"; "Alambagh"; "Amausi Airport"] |}.

Definition city : TransportAgent := init [route_city; route_air].

(** A line of a timetable file, as [csv.DictReader] gives it, and the same
    line with a time that does not parse. *)
Definition csv_row : gmap string (option string) :=
  <["route_id" := Some "R1"]>
  (<["from_stop" := Some "Charbagh"]>
  (<["to_stop" := Some "Gomti Nagar"]>
  (<["bus_number" := Some " 11"]>
  (<["departure_time" := Some "07:05 "]>
  (<["duration_minutes" := Some "40"]>
  (<["stops" := Some "Charbagh | Hazratganj || Gomti Nagar | "]> ∅)))))).

Definition csv_route : RouteRow :=
  {| route_id := "R1"; from_stop := "Charbagh"; to_stop := "Gomti Nagar";
     bus_number := "11"; departure_time := "07:05";
     departure_minutes := 425; duration_minutes := 40;
     stops := ["Charbagh"; "Hazratganj"; "Gomti Nagar"] |}.

Definition csv_row_bad_time : gmap string (option string) :=
  <["departure_time" := Some "7h05"]> csv_row.

Definition csv_row_bad_duration : gmap string (option string) :=
  <["duration_minutes" := Some "40 min"]> csv_row.

(** The connection of [late] with one more first bus, which leaves at
    08:30 and is the better choice when no time filter excludes it. *)
Definition route_ab_soon : RouteRow :=
  {| route_id := "R8"; from_stop := "A"; to_stop := "B";
     bus_number := "25"; departure_time := "08:30";
     departure_minutes := 510; duration_minutes := 10;
     stops := ["A"; "B"] |}.

Definition soon : TransportAgent :=
  init [route_ab_soon; Sample.route_ab_late; Sample.route_bc_early].

Definition soon_plan : TransferPlan :=
  {| t_from_stop := "A"; t_to_stop := "C"; t_transfer_stop := "B";
     t_leg1 := {| p_bus_number := "25"; p_departure_time := "08:30";
                  p_duration_minutes := 10; p_stops := ["A"; "B"] |};
     t_leg2 := {| p_bus_number := "40"; p_departure_time := "08:00";
                  p_duration_minutes := 15; p_stops := ["B"; "C"] |};
     t_total_duration_minutes := 25 |}.

End Sample.

(** * Properties *)

(** ** Lists, loops and sorting *)

Lemma index_Some {A : Type} `{EqDecision A} (l : list A) (x : A) (i : nat) :
  Py.index l x = Some i ->
  l !! i = Some x /\ forall j, (j < i)%nat -> l !! j <> Some x.
Proof.
  revert i. induction l as [|y l IH]; intros i; simpl; [discriminate|].
  destruct (decide (y = x)) as [->|Hne].
  - intros [= <-]. split; [reflexivity|]. intros j Hj. lia.
  - destruct (Py.index l x) as [i'|] eqn:Hi; simpl; [|discriminate].
    intros [= <-]. destruct (IH i' eq_refl) as [Hat Hbefore].
    split; [exact Hat|].
    intros [|j] Hj; simpl.
    + intros [= ->]. contradiction.
    + apply Hbefore. lia.
Qed.

Lemma index_None {A : Type} `{EqDecision A} (l : list A) (x : A) :
  Py.index l x = None -> x ∉ l.
Proof.
  induction l as [|y l IH]; simpl; intros Hi Hin.
  - inversion Hin.
  - destruct (decide (y = x)) as [->|Hne]; [discriminate|].
    destruct (Py.index l x); [discriminate|].
    apply IH; [reflexivity|]. inversion Hin; subst; [contradiction|assumption].
Qed.

Lemma find_seq_Some (f : nat -> bool) (lo n e : nat) :
  List.find f (seq lo n) = Some e ->
  (lo <= e < lo + n)%nat /\ f e = true
  /\ forall i, (lo <= i < e)%nat -> f i = false.
Proof.
  revert lo. induction n as [|n IH]; intros lo; simpl; [discriminate|].
  destruct (f lo) eqn:Hlo.
  - intros [= <-]. repeat split; [lia..|assumption|]. intros i Hi. lia.
  - intros Hfind. destruct (IH _ Hfind) as (Hrange & He & Hmin).
    repeat split; [lia..|assumption|].
    intros i Hi. destruct (decide (i = lo)) as [->|]; [assumption|].
    apply Hmin. lia.
Qed.

(** A loop that appends to a list is a filtering map. *)
Lemma fold_left_append_omap {A B : Type} (f : A -> option B) (l : list A)
    (acc : list B) :
  fold_left (fun acc x => match f x with
                          | None => acc
                          | Some y => acc ++ [y]
                          end) l acc
  = acc ++ omap f l.
Proof.
  revert acc. induction l as [|x l IH]; intros acc; simpl.
  - by rewrite app_nil_r.
  - rewrite IH. destruct (f x); [|reflexivity]. by rewrite <- app_assoc.
Qed.

Section SortedFacts.
Context {A : Type} (lt : A -> A -> bool).

Lemma insert_sorted_perm (x : A) (l : list A) :
  Py.insert_sorted lt x l ≡ₚ x :: l.
Proof.
  induction l as [|y l IH]; simpl; [reflexivity|].
  destruct (lt y x); [|reflexivity].
  rewrite IH. apply Permutation_swap.
Qed.

Lemma sorted_perm (l : list A) : Py.sorted lt l ≡ₚ l.
Proof.
  induction l as [|x l IH]; simpl; [reflexivity|].
  unfold Py.sorted in IH. rewrite insert_sorted_perm. by rewrite IH.
Qed.

Lemma sorted_nil_inv (l : list A) : Py.sorted lt l = [] -> l = [].
Proof.
  intros H. apply Permutation_nil_r. rewrite <- H. symmetry. apply sorted_perm.
Qed.

(** [lt] is a strict order whose complement is transitive, as the
    order of tuples of integers and strings is. *)
Hypothesis lt_asym : forall x y, lt x y = true -> lt y x = false.
Hypothesis lt_negtrans :
  forall x y z, lt x y = false -> lt y z = false -> lt x z = false.

Lemma lt_irrefl (x : A) : lt x x = false.
Proof. destruct (lt x x) eqn:H; [|reflexivity]. by rewrite (lt_asym _ _ H) in H. Qed.

Lemma sorted_head_min (l : list A) (h : A) :
  head (Py.sorted lt l) = Some h ->
  h ∈ l /\ forall y, y ∈ l -> lt y h = false.
Proof.
  revert h. induction l as [|x l IH]; intros h; [discriminate|].
  simpl. fold (Py.sorted lt l).
  destruct (Py.sorted lt l) as [|m s] eqn:Hs; simpl.
  - apply sorted_nil_inv in Hs as ->. intros [= <-].
    split; [left|]. intros y Hy. apply list_elem_of_singleton in Hy as ->.
    apply lt_irrefl.
  - destruct (IH m eq_refl) as [Hm Hmin].
    destruct (lt m x) eqn:Hmx; simpl; intros [= <-].
    + split; [by right|]. intros y Hy.
      inversion Hy; subst; [by apply lt_asym|by apply Hmin].
    + split; [left|]. intros y Hy.
      inversion Hy; subst; [apply lt_irrefl|].
      eapply lt_negtrans; [apply Hmin; eassumption|assumption].
Qed.
End SortedFacts.

(** ** The order on sort keys *)

Lemma str_ltb_le (x y : string) : str_ltb x y = false <-> String.le y x.
Proof.
  unfold str_ltb, String.le, String.ltb, String.leb.
  rewrite (String.compare_antisym y x).
  destruct (String.compare x y); simpl; split; intros H; try done.
Qed.

Lemma str_ltb_asym (x y : string) : str_ltb x y = true -> str_ltb y x = false.
Proof.
  unfold str_ltb, String.ltb. rewrite (String.compare_antisym y x).
  by destruct (String.compare x y).
Qed.

Lemma str_ltb_negtrans (x y z : string) :
  str_ltb x y = false -> str_ltb y z = false -> str_ltb x z = false.
Proof.
  rewrite !str_ltb_le. intros Hyx Hzy. by etrans.
Qed.

Lemma key3_ltb_asym (x y : Z * Z * string) :
  key3_ltb x y = true -> key3_ltb y x = false.
Proof.
  destruct x as [[a1 b1] c1], y as [[a2 b2] c2]. unfold key3_ltb.
  destruct (Z.eqb_spec a1 a2), (Z.eqb_spec a2 a1),
    (Z.eqb_spec b1 b2), (Z.eqb_spec b2 b1); simpl;
    try lia; try apply str_ltb_asym.
Qed.

Lemma key3_ltb_negtrans (x y z : Z * Z * string) :
  key3_ltb x y = false -> key3_ltb y z = false -> key3_ltb x z = false.
Proof.
  destruct x as [[a1 b1] c1], y as [[a2 b2] c2], z as [[a3 b3] c3].
  unfold key3_ltb.
  destruct (Z.eqb_spec a1 a2), (Z.eqb_spec a2 a3), (Z.eqb_spec a1 a3),
    (Z.eqb_spec b1 b2), (Z.eqb_spec b2 b3), (Z.eqb_spec b1 b3); simpl;
    try lia; try apply str_ltb_negtrans.
Qed.

(** ** [_route_leg] *)

Lemma first_end_Some (normalized_stops : list string) (to_key : string)
    (start end_ : nat) :
  first_end normalized_stops to_key start = Some end_ ->
  (start < end_ < length normalized_stops)%nat
  /\ normalized_stops !! end_ = Some to_key
  /\ forall i, (start < i < end_)%nat -> normalized_stops !! i <> Some to_key.
Proof.
  unfold first_end. intros H.
  apply find_seq_Some in H as (Hrange & Hat & Hmin).
  apply bool_decide_eq_true in Hat.
  split; [lia|]. split; [assumption|].
  intros i Hi. specialize (Hmin i ltac:(lia)).
  by apply bool_decide_eq_false in Hmin.
Qed.

(** What [_route_leg] returns: the first position of the [from] stop and
    the first later position of the [to] stop, under normalization. *)
Lemma _route_leg_Some (stops : list string) (from_stop to_stop : string)
    (start end_ : nat) :
  _route_leg stops from_stop to_stop = Some (start, end_) ->
  (start < end_ < length stops)%nat
  /\ _normalize <$> stops !! start = Some (_normalize from_stop)
  /\ _normalize <$> stops !! end_ = Some (_normalize to_stop)
  /\ (forall i, (i < start)%nat ->
        _normalize <$> stops !! i <> Some (_normalize from_stop))
  /\ (forall i, (start < i < end_)%nat ->
        _normalize <$> stops !! i <> Some (_normalize to_stop)).
Proof.
  unfold _route_leg.
  destruct (Py.index _ _) as [s|] eqn:Hidx; [|discriminate].
  destruct (first_end _ _ _) as [e|] eqn:Hend; [|discriminate].
  intros [= -> ->].
  apply index_Some in Hidx as [Hs Hbefore].
  apply first_end_Some in Hend as (Hrange & He & Hbetween).
  rewrite length_map in Hrange.
  setoid_rewrite list_lookup_fmap in Hbefore.
  setoid_rewrite list_lookup_fmap in Hbetween.
  rewrite list_lookup_fmap in Hs. rewrite list_lookup_fmap in He.
  auto.
Qed.

(** ** [find_route] *)

Lemma find_route_matches_omap (self : TransportAgent)
    (resolved_from resolved_to : string) (after_minutes : option Z) :
  find_route_matches self resolved_from resolved_to after_minutes
  = omap (route_match resolved_from resolved_to after_minutes) (routes self).
Proof.
  unfold find_route_matches.
  set (body := fun matches route => _).
  assert (Hgen : forall l acc,
             fold_left body l acc
             = acc ++ omap (route_match resolved_from resolved_to
                              after_minutes) l).
  { induction l as [|route l IH]; intros acc; simpl.
    - by rewrite app_nil_r.
    - rewrite IH. unfold body, route_match.
      destruct (_route_leg _ _ _) as [[s e]|]; [|reflexivity].
      destruct (match after_minutes with Some _ => _ | None => _ end);
        [reflexivity|].
      by rewrite <- app_assoc. }
  apply Hgen.
Qed.

(** A successful [find_route] returns the candidate of a route, and no
    candidate has a smaller key. *)
Lemma find_route_Some (self : TransportAgent)
    (from_stop to_stop after_time : string) (payload : RoutePayload) :
  find_route self from_stop to_stop after_time = Some payload ->
  exists resolved_from resolved_to route key,
    _resolve_stop self from_stop = Some resolved_from
    /\ _resolve_stop self to_stop = Some resolved_to
    /\ route ∈ routes self
    /\ route_match resolved_from resolved_to (_parse_time after_time) route
       = Some (key, payload)
    /\ forall route' key' payload',
         route' ∈ routes self ->
         route_match resolved_from resolved_to (_parse_time after_time) route'
         = Some (key', payload') ->
         key3_ltb key' key = false.
Proof.
  unfold find_route.
  destruct (_resolve_stop self from_stop) as [rf|]; [|discriminate].
  destruct (_resolve_stop self to_stop) as [rt|];
    [|by rewrite orb_true_r].
  destruct (unresolved (Some rf) || unresolved (Some rt)); [discriminate|].
  simpl. rewrite find_route_matches_omap.
  set (ms := omap _ _).
  destruct (Py.sorted _ ms) as [|[key p] rest] eqn:Hsorted; [discriminate|].
  intros [= <-].
  destruct (sorted_head_min (fun x y => key3_ltb x.1 y.1)
              (fun x y => key3_ltb_asym x.1 y.1)
              (fun x y z => key3_ltb_negtrans x.1 y.1 z.1)
              ms (key, p)) as [Hin Hmin].
  { by rewrite Hsorted. }
  apply list_elem_of_omap in Hin as (route & Hroute & Hmatch).
  exists rf, rt, route, key. repeat split; try assumption.
  intros route' key' payload' Hroute' Hmatch'.
  apply (Hmin (key', payload')).
  apply list_elem_of_omap. eauto.
Qed.

(** ** Slices *)

Lemma slice_lookup {A : Type} (l : list A) (lo hi k : nat) :
  (k < hi - lo)%nat -> Py.slice l lo hi !! k = l !! (lo + k)%nat.
Proof.
  intros Hk. unfold Py.slice. rewrite lookup_take_lt by assumption.
  apply lookup_drop.
Qed.

Lemma slice_length {A : Type} (l : list A) (lo hi : nat) :
  (hi <= length l)%nat -> length (Py.slice l lo hi) = (hi - lo)%nat.
Proof.
  intros Hhi. unfold Py.slice. rewrite length_take, length_drop. lia.
Qed.

Lemma slice_head {A : Type} (l : list A) (lo hi : nat) :
  (lo < hi)%nat -> head (Py.slice l lo hi) = l !! lo.
Proof.
  intros H. rewrite head_lookup, slice_lookup by lia. f_equal. lia.
Qed.

Lemma slice_last {A : Type} (l : list A) (lo hi : nat) :
  (lo < hi <= length l)%nat -> last (Py.slice l lo hi) = l !! (hi - 1)%nat.
Proof.
  intros H. rewrite last_lookup, slice_length by lia.
  rewrite slice_lookup by lia. f_equal. lia.
Qed.

(** ** The route returned by [find_route] *)

Lemma route_match_Some (resolved_from resolved_to : string)
    (after_minutes : option Z) (route : RouteRow)
    (key : Z * Z * string) (payload : RoutePayload) :
  route_match resolved_from resolved_to after_minutes route
  = Some (key, payload) ->
  exists start_idx end_idx,
    _route_leg (stops route) resolved_from resolved_to
    = Some (start_idx, end_idx)
    /\ key = route_key after_minutes route
    /\ payload = route_payload route start_idx end_idx
    /\ forall after, after_minutes = Some after ->
                     after <= departure_minutes route.
Proof.
  unfold route_match.
  destruct (_route_leg _ _ _) as [[s e]|]; [|discriminate].
  destruct after_minutes as [after|].
  - destruct (Z.ltb_spec (departure_minutes route) after); [discriminate|].
    intros [= <- <-]. exists s, e. repeat split. by intros ? [= <-].
  - intros [= <- <-]. exists s, e. repeat split. discriminate.
Qed.

(** C1. The stops of a route returned by [find_route] are the stops of one
    route record from the first position of the resolved [from] stop to
    the first later position of the resolved [to] stop, both included and
    both found by comparing normalized names. *)
Theorem find_route_stops_segment (self : TransportAgent)
    (from_stop to_stop after_time : string) (payload : RoutePayload) :
  find_route self from_stop to_stop after_time = Some payload ->
  exists route resolved_from resolved_to start_idx end_idx,
    route ∈ routes self
    /\ _resolve_stop self from_stop = Some resolved_from
    /\ _resolve_stop self to_stop = Some resolved_to
    /\ (start_idx < end_idx < length (stops route))%nat
    /\ length (p_stops payload) = (end_idx - start_idx + 1)%nat
    /\ (forall k, (k <= end_idx - start_idx)%nat ->
          p_stops payload !! k = stops route !! (start_idx + k)%nat)
    /\ _normalize <$> head (p_stops payload) = Some (_normalize resolved_from)
    /\ _normalize <$> last (p_stops payload) = Some (_normalize resolved_to)
    /\ (forall i, (i < start_idx)%nat ->
          _normalize <$> stops route !! i <> Some (_normalize resolved_from))
    /\ (forall i, (start_idx < i < end_idx)%nat ->
          _normalize <$> stops route !! i <> Some (_normalize resolved_to)).
Proof.
  intros Hfind.
  apply find_route_Some in Hfind
    as (rf & rt & route & key & Hrf & Hrt & Hroute & Hmatch & _).
  apply route_match_Some in Hmatch as (s & e & Hleg & _ & -> & _).
  apply _route_leg_Some in Hleg as (Hrange & Hs & He & Hfirst & Hnext).
  exists route, rf, rt, s, e. simpl.
  split; [assumption|]. split; [assumption|]. split; [assumption|].
  split; [assumption|].
  split; [rewrite slice_length; lia|].
  split; [intros k Hk; apply slice_lookup; lia|].
  split; [rewrite slice_head by lia; assumption|].
  split; [rewrite slice_last by lia;
          by replace (e + 1 - 1)%nat with e by lia|].
  split; assumption.
Qed.

(** C3. With a time filter that parses, [find_route] keeps no record that
    departs before the filter time, and the route it returns departs at or
    after it. *)
Theorem find_route_after_time (self : TransportAgent)
    (from_stop to_stop after_time : string) (after : Z)
    (payload : RoutePayload) :
  _parse_time after_time = Some after ->
  find_route self from_stop to_stop after_time = Some payload ->
  (forall resolved_from resolved_to key candidate,
      (key, candidate)
        ∈ find_route_matches self resolved_from resolved_to (Some after) ->
      exists route start_idx end_idx,
        route ∈ routes self
        /\ candidate = route_payload route start_idx end_idx
        /\ after <= departure_minutes route)
  /\ exists route start_idx end_idx,
       route ∈ routes self
       /\ payload = route_payload route start_idx end_idx
       /\ after <= departure_minutes route
       /\ (_clock_to_minutes (departure_time route)
           = Ok (departure_minutes route) ->
           exists minutes,
             _clock_to_minutes (p_departure_time payload) = Ok minutes
             /\ after <= minutes).
Proof.
  intros Hparse Hfind. split.
  - intros rf rt key candidate Hin. rewrite find_route_matches_omap in Hin.
    apply list_elem_of_omap in Hin as (route & Hroute & Hmatch).
    apply route_match_Some in Hmatch as (s & e & _ & _ & -> & Hafter).
    exists route, s, e. repeat split; [assumption|]. by apply Hafter.
  - apply find_route_Some in Hfind
      as (rf & rt & route & key & _ & _ & Hroute & Hmatch & _).
    rewrite Hparse in Hmatch.
    apply route_match_Some in Hmatch as (s & e & _ & _ & -> & Hafter).
    specialize (Hafter after eq_refl).
    exists route, s, e. repeat split; try assumption.
    intros Hload. exists (departure_minutes route). by split.
Qed.

(** C4. Without a time filter, when some record has a leg between the two
    resolved stops, [find_route] returns the candidate of a record whose
    key (duration, departure, route id) no other candidate's key is below;
    in particular no candidate record is shorter: of two records of 30 and
    45 minutes it returns the one of 30. *)
Theorem find_route_shortest (self : TransportAgent)
    (from_stop to_stop after_time resolved_from resolved_to : string)
    (candidate : RouteRow) :
  _parse_time after_time = None ->
  _resolve_stop self from_stop = Some resolved_from ->
  _resolve_stop self to_stop = Some resolved_to ->
  resolved_from <> "" ->
  resolved_to <> "" ->
  candidate ∈ routes self ->
  is_Some (_route_leg (stops candidate) resolved_from resolved_to) ->
  exists route start_idx end_idx,
    route ∈ routes self
    /\ _route_leg (stops route) resolved_from resolved_to
       = Some (start_idx, end_idx)
    /\ find_route self from_stop to_stop after_time
       = Some (route_payload route start_idx end_idx)
    /\ (forall route',
          route' ∈ routes self ->
          is_Some (_route_leg (stops route') resolved_from resolved_to) ->
          key3_ltb
            (duration_minutes route', departure_minutes route', route_id route')
            (duration_minutes route, departure_minutes route, route_id route)
          = false)
    /\ (forall route',
          route' ∈ routes self ->
          is_Some (_route_leg (stops route') resolved_from resolved_to) ->
          duration_minutes route <= duration_minutes route').
Proof.
  intros Hparse Hrf Hrt Hnf Hnt Hcand [[s0 e0] Hleg0].
  assert (Hmatch0 : route_match resolved_from resolved_to None candidate
                    = Some (route_key None candidate,
                            route_payload candidate s0 e0)).
  { unfold route_match. by rewrite Hleg0. }
  destruct (find_route self from_stop to_stop after_time) as [payload|] eqn:Hfind.
  - apply find_route_Some in Hfind
      as (rf & rt & route & key & Hrf' & Hrt' & Hroute & Hmatch & Hmin).
    rewrite Hrf in Hrf'. rewrite Hrt in Hrt'.
    injection Hrf' as <-. injection Hrt' as <-.
    rewrite Hparse in Hmatch, Hmin.
    apply route_match_Some in Hmatch as (s & e & Hleg & -> & -> & _).
    assert (Hkeys : forall route',
               route' ∈ routes self ->
               is_Some (_route_leg (stops route') resolved_from resolved_to) ->
               key3_ltb (route_key None route') (route_key None route) = false).
    { intros route' Hroute' [[s' e'] Hleg'].
      apply (Hmin route' _ (route_payload route' s' e') Hroute').
      unfold route_match. by rewrite Hleg'. }
    exists route, s, e. repeat split; try assumption.
    intros route' Hroute' Hleg'. specialize (Hkeys route' Hroute' Hleg').
    simpl in Hkeys.
    destruct (Z.eqb_spec (duration_minutes route') (duration_minutes route));
      simpl in Hkeys; [lia|].
    by destruct (Z.ltb_spec (duration_minutes route') (duration_minutes route));
      [|lia].
  - exfalso. unfold find_route in Hfind. rewrite Hrf, Hrt in Hfind. simpl in Hfind.
    destruct resolved_from; [done|]. destruct resolved_to; [done|].
    simpl in Hfind. rewrite Hparse, find_route_matches_omap in Hfind.
    destruct (Py.sorted _ _) eqn:Hsorted; [|discriminate].
    apply sorted_nil_inv in Hsorted.
    assert (Hin : (route_key None candidate, route_payload candidate s0 e0)
                  ∈ omap (route_match (String a resolved_from)
                            (String a0 resolved_to) None) (routes self)).
    { apply list_elem_of_omap. eauto. }
    rewrite Hsorted in Hin. inversion Hin.
Qed.

(** C9. An [after_time] that [strptime] rejects is the same as no
    [after_time] at all, for both queries. *)
Theorem unparsable_time_is_no_filter (self : TransportAgent)
    (from_stop to_stop after_time : string) :
  after_time <> "" ->
  Strptime.strptime (Py.strip after_time) = Raise ValueError ->
  _parse_time after_time = None
  /\ find_route self from_stop to_stop after_time
     = find_route self from_stop to_stop ""
  /\ suggest_alternative self from_stop to_stop after_time
     = suggest_alternative self from_stop to_stop "".
Proof.
  intros _ Hfail.
  assert (Hparse : _parse_time after_time = None).
  { unfold _parse_time, _clock_to_minutes. rewrite Hfail. simpl.
    by destruct (negb _). }
  split; [assumption|].
  unfold find_route, suggest_alternative. rewrite Hparse.
  by change (_parse_time "") with (@None Z).
Qed.


(** ** [_resolve_stop] *)

(** The best score of the loop of [_resolve_stop] is its initial value or
    the score of one of the stops. *)
Lemma best_score_cases (key : string) (l : list string)
    (best_name : option string) (best_score : Float.float) :
  let final :=
    fold_left
      (fun '(best_name, best_score) stop =>
         let stop_key := _normalize stop in
         let score := stop_score key stop_key in
         if Float.ltb best_score score then (Some stop, score)
         else (best_name, best_score))
      l (best_name, best_score) in
  final.2 = best_score
  \/ exists stop, stop ∈ l /\ final.2 = stop_score key (_normalize stop).
Proof.
  revert best_name best_score.
  induction l as [|stop l IH]; intros bn bs; simpl; [by left|].
  destruct (Float.ltb bs (stop_score key (_normalize stop))).
  - right. destruct (IH (Some stop) (stop_score key (_normalize stop)))
      as [Heq|(stop' & Hin & Heq)].
    + exists stop. split; [left|exact Heq].
    + exists stop'. split; [by right|exact Heq].
  - destruct (IH bn bs) as [Heq|(stop' & Hin & Heq)]; [by left|].
    right. exists stop'. split; [by right|exact Heq].
Qed.

Lemma unresolvable_resolve (self : TransportAgent) (raw_stop : string) :
  unresolvable self raw_stop = true -> _resolve_stop self raw_stop = None.
Proof.
  unfold unresolvable, _resolve_stop.
  destruct (negb (Py.truthy (_normalize raw_stop))); [reflexivity|]. simpl.
  intros H. apply andb_true_iff in H as [H Hall].
  apply andb_true_iff in H as [Halias Hlookup].
  apply bool_decide_eq_true in Halias, Hlookup.
  rewrite Halias. simpl. rewrite Hlookup.
  pose proof (best_score_cases (_normalize raw_stop) (known_stops self)
                None Float.zero) as Hcases.
  simpl in Hcases.
  destruct (fold_left _ _ _) as [best_name best_score]. simpl in Hcases.
  destruct best_name as [name|]; [|reflexivity].
  destruct Hcases as [->|(stop & Hin & ->)]; [reflexivity|].
  rewrite forallb_forall in Hall.
  rewrite (Hall stop); [reflexivity|]. by apply list_elem_of_In.
Qed.

(** C8. When the text of either stop cannot be resolved, [find_route]
    returns [None] and [suggest_alternative] returns [None] without
    raising, whatever the other arguments are. *)
Theorem unresolvable_stop_no_result (self : TransportAgent)
    (from_stop to_stop after_time : string) :
  unresolvable self from_stop = true \/ unresolvable self to_stop = true ->
  find_route self from_stop to_stop after_time = None
  /\ suggest_alternative self from_stop to_stop after_time = Ok None.
Proof.
  intros H. unfold find_route, suggest_alternative.
  destruct H as [H|H]; apply unresolvable_resolve in H; rewrite H; simpl.
  - done.
  - by rewrite orb_true_r.
Qed.

(** ** [_build_stop_list] and [stop_lookup] *)

Lemma stop_list_inner (stops : list string) (state : list string * gset string) :
  stop_list_inv state ->
  stop_list_inv
    (fold_left
       (fun '(ordered, seen) stop =>
          let key := _normalize stop in
          if decide (key ∈ (seen : gset string)) then (ordered, seen)
          else (ordered ++ [stop], seen ∪ {[key]}))
       stops state).
Proof.
  revert state. induction stops as [|stop stops IH]; intros [ordered seen] Hinv;
    simpl; [assumption|].
  apply IH. destruct Hinv as [Hseen Hnodup]. simpl in *.
  destruct (decide (_normalize stop ∈ seen)) as [Hin|Hnotin]; [by split|].
  split; simpl.
  - intros key. rewrite fmap_app, elem_of_union, elem_of_app, Hseen. simpl.
    rewrite elem_of_singleton, list_elem_of_singleton. reflexivity.
  - rewrite fmap_app. apply NoDup_app. split; [assumption|].
    split; [|apply NoDup_singleton].
    intros key Hkey Hkey'. simpl in Hkey'.
    apply list_elem_of_singleton in Hkey' as ->.
    apply Hnotin, Hseen, Hkey.
Qed.

Lemma _build_stop_list_NoDup (routes : list RouteRow) :
  NoDup (_normalize <$> _build_stop_list routes).
Proof.
  unfold _build_stop_list.
  assert (Hgen : forall state,
             stop_list_inv state ->
             stop_list_inv
               (fold_left
                  (fun state route =>
                     fold_left
                       (fun '(ordered, seen) stop =>
                          let key := _normalize stop in
                          if decide (key ∈ (seen : gset string))
                          then (ordered, seen)
                          else (ordered ++ [stop], seen ∪ {[key]}))
                       (stops route) state)
                  routes state)).
  { induction routes as [|route routes IH]; intros state Hinv; simpl;
      [assumption|].
    apply IH. by apply stop_list_inner. }
  apply Hgen. split; simpl; [|apply NoDup_nil_2].
  intros key. split; intros H; [by apply not_elem_of_empty in H|inversion H].
Qed.

(** The dictionary [{normalize(stop): stop for stop in stops}]. *)
Lemma stop_lookup_other (stops : list string) (m : gmap string string)
    (key : string) :
  key ∉ _normalize <$> stops ->
  fold_left (fun (m : gmap string string) stop =>
               <[_normalize stop := stop]> m) stops m !! key
  = m !! key.
Proof.
  revert m. induction stops as [|stop stops IH]; intros m Hnotin; simpl;
    [reflexivity|].
  rewrite fmap_cons, not_elem_of_cons in Hnotin. destruct Hnotin as [Hne Hnotin].
  rewrite IH by assumption. by apply lookup_insert_ne.
Qed.

Lemma stop_lookup_known (stops : list string) (m : gmap string string)
    (stop : string) :
  NoDup (_normalize <$> stops) ->
  stop ∈ stops ->
  fold_left (fun (m : gmap string string) stop =>
               <[_normalize stop := stop]> m) stops m !! _normalize stop
  = Some stop.
Proof.
  revert m. induction stops as [|stop' stops IH]; intros m Hnodup Hin; simpl.
  - inversion Hin.
  - rewrite fmap_cons in Hnodup. apply NoDup_cons in Hnodup as [Hfresh Hnodup].
    apply elem_of_cons in Hin as [->|Hin].
    + rewrite stop_lookup_other by assumption. apply lookup_insert_eq.
    + by apply IH.
Qed.

(** C6, amended.  A known stop whose normalized name is not empty
    resolves to itself when that name is not a key of the alias table; when
    it is one, it resolves to the known stop whose normalized name is the
    alias target, if the timetable has such a stop. *)
Theorem resolve_known_stop (routes : list RouteRow) (stop : string) :
  stop ∈ known_stops (init routes) ->
  _normalize stop <> "" ->
  (aliases (init routes) !! _normalize stop = None ->
   _resolve_stop (init routes) stop = Some stop)
  /\ (forall target other,
        aliases (init routes) !! _normalize stop = Some target ->
        other ∈ known_stops (init routes) ->
        _normalize other = target ->
        _resolve_stop (init routes) stop = Some other).
Proof.
  intros Hknown Hnonempty.
  assert (Hlookup : forall other,
             other ∈ known_stops (init routes) ->
             stop_lookup (init routes) !! _normalize other = Some other).
  { intros other Hother.
    change (stop_lookup (init routes))
      with (fold_left (fun (m : gmap string string) stop =>
                         <[_normalize stop := stop]> m)
              (_build_stop_list routes) ∅).
    apply stop_lookup_known; [|assumption].
    apply _build_stop_list_NoDup. }
  unfold _resolve_stop.
  replace (negb (Py.truthy (_normalize stop))) with false
    by (by destruct (_normalize stop)).
  split.
  - intros Halias. rewrite Halias. cbn [default from_option id].
    by rewrite Hlookup.
  - intros target other Halias Hother <-. rewrite Halias.
    cbn [default from_option id]. by rewrite Hlookup.
Qed.

(** ** Loops that may raise *)

Lemma foldM_invariant {A B : Type} (P : B -> Prop) (Q : A -> Prop)
    (f : B -> A -> result B) (l : list A) (acc r : B) :
  (forall acc x acc', Q x -> P acc -> f acc x = Ok acc' -> P acc') ->
  Forall Q l ->
  P acc ->
  foldM f l acc = Ok r ->
  P r.
Proof.
  intros Hstep. revert acc.
  induction l as [|x l IH]; intros acc Hall Hacc; simpl.
  - by intros [= <-].
  - destruct (f acc x) as [acc'|e] eqn:Hf; simpl; [|discriminate].
    apply Forall_cons in Hall as [Hx Hall].
    apply IH; [assumption|]. eapply Hstep; eassumption.
Qed.

Lemma first_Ok {A : Type} (l : list A) (x : A) :
  Py.first l = Ok x <-> head l = Some x.
Proof. destruct l; simpl; split; intros H; by simplify_eq. Qed.

Lemma last_Ok {A : Type} (l : list A) (x : A) :
  Py.last l = Ok x <-> last l = Some x.
Proof.
  unfold Py.last. destruct (last l); split; intros H; by simplify_eq.
Qed.

Lemma getitem_Ok {A : Type} (l : list A) (i : nat) (x : A) :
  Py.getitem l i = Ok x <-> l !! i = Some x.
Proof.
  unfold Py.getitem. destruct (l !! i); split; intros H; by simplify_eq.
Qed.

(** ** The legs of [suggest_alternative] *)

Lemma add_first_legs_ok (route : RouteRow) (start_idx : nat)
    (first_legs first_legs' : list Leg) :
  Forall first_leg_ok first_legs ->
  add_first_legs route start_idx first_legs = Ok first_legs' ->
  Forall first_leg_ok first_legs'.
Proof.
  intros Hinit. unfold add_first_legs.
  apply (foldM_invariant (Forall first_leg_ok)
           (fun t => (start_idx < t)%nat)); [| |assumption].
  - intros acc t acc' Ht Hacc.
    destruct (Py.getitem (stops route) t) as [ts|] eqn:Hget; [|discriminate].
    simpl. destruct (_segment_duration _ _ _) as [d|]; [|discriminate].
    simpl. intros [= <-].
    apply Forall_app. split; [assumption|].
    apply Forall_singleton. unfold first_leg_ok. simpl.
    apply getitem_Ok in Hget.
    pose proof (lookup_lt_Some _ _ _ Hget).
    rewrite slice_last by lia.
    by replace (t + 1 - 1)%nat with t by lia.
  - apply Forall_forall. intros t Ht. apply elem_of_seq in Ht. lia.
Qed.

Lemma add_second_legs_ok (route : RouteRow) (end_idx : nat)
    (second second' : gmap string (list Leg)) :
  second_legs_ok second ->
  add_second_legs route end_idx second = Ok second' ->
  second_legs_ok second'.
Proof.
  intros Hinit. unfold add_second_legs.
  apply (foldM_invariant second_legs_ok (fun t => (t < end_idx)%nat));
    [| |assumption].
  - intros acc t acc' Ht Hacc.
    destruct (Py.getitem (stops route) t) as [ts|] eqn:Hget; [|discriminate].
    simpl. destruct (_segment_duration _ _ _) as [d|]; [|discriminate].
    simpl. intros [= <-].
    intros key legs leg Hlookup Hleg.
    destruct (decide (_normalize ts = key)) as [<-|Hne].
    + rewrite lookup_insert_eq in Hlookup. injection Hlookup as <-.
      apply elem_of_app in Hleg as [Hleg|Hleg].
      * destruct (acc !! _normalize ts) as [old|] eqn:Hold; simpl in Hleg;
          [|inversion Hleg].
        by apply (Hacc _ old).
      * apply list_elem_of_singleton in Hleg as ->. simpl.
        split; [|reflexivity].
        rewrite slice_head by lia. by apply getitem_Ok.
    + rewrite lookup_insert_ne in Hlookup by assumption.
      by apply (Hacc _ legs).
  - apply Forall_forall. intros t Ht. apply elem_of_seq in Ht. lia.
Qed.

Lemma collect_legs_ok (self : TransportAgent)
    (resolved_from resolved_to : string) (after_minutes : option Z)
    (first_legs : list Leg) (second : gmap string (list Leg)) :
  collect_legs self resolved_from resolved_to after_minutes
  = Ok (first_legs, second) ->
  Forall first_leg_ok first_legs /\ second_legs_ok second.
Proof.
  unfold collect_legs.
  apply (foldM_invariant
           (fun state => Forall first_leg_ok state.1 /\ second_legs_ok state.2)
           (fun _ => True)).
  - intros [first second0] route [first' second'] _ [Hfirst Hsecond]. simpl in *.
    destruct (match _find_stop_index (stops route) resolved_from with
              | Some _ => _ | None => _ end) as [first1|] eqn:H1;
      [|discriminate].
    simpl.
    destruct (match _find_stop_index (stops route) resolved_to with
              | Some _ => _ | None => _ end) as [second1|] eqn:H2;
      [|discriminate].
    simpl. intros [= <- <-]. split.
    + destruct (_find_stop_index (stops route) resolved_from);
        [|by injection H1 as <-].
      destruct (match after_minutes with None => _ | Some _ => _ end);
        [|by injection H1 as <-].
      by eapply add_first_legs_ok.
    + destruct (_find_stop_index (stops route) resolved_to);
        [|by injection H2 as <-].
      by eapply add_second_legs_ok.
  - by apply Forall_forall.
  - split; [apply Forall_nil_2|]. intros key legs leg H. simpl in H.
    by rewrite lookup_empty in H.
Qed.

Lemma _best_second_leg_elem (candidates : list Leg) (first_departure : Z)
    (leg2 : Leg) :
  _best_second_leg_for_first_leg candidates first_departure = Ok leg2 ->
  leg2 ∈ candidates.
Proof.
  unfold _best_second_leg_for_first_leg. intros H. apply first_Ok in H.
  apply head_Some_elem_of in H. by rewrite sorted_perm in H.
Qed.

Lemma same_endpoints_false (leg1 leg2 : Leg) :
  same_endpoints leg1 leg2 = Ok false ->
  exists first1 first2,
    head (l_stops leg1) = Some first1
    /\ head (l_stops leg2) = Some first2
    /\ forall last1 last2,
         last (l_stops leg1) = Some last1 ->
         last (l_stops leg2) = Some last2 ->
         (_normalize first1, _normalize last1)
         <> (_normalize first2, _normalize last2).
Proof.
  unfold same_endpoints.
  destruct (Py.first (l_stops leg1)) as [first1|] eqn:H1; [|discriminate].
  destruct (Py.first (l_stops leg2)) as [first2|] eqn:H2; [|discriminate].
  simpl. apply first_Ok in H1, H2. intros H.
  exists first1, first2. split; [assumption|]. split; [assumption|].
  intros last1 last2 Hl1 Hl2 [= Hfirst Hlast].
  rewrite bool_decide_eq_true_2 in H by assumption.
  apply last_Ok in Hl1, Hl2. rewrite Hl1, Hl2 in H. simpl in H.
  rewrite bool_decide_eq_true_2 in H by assumption. discriminate.
Qed.

Lemma plan_step_ok (resolved_from resolved_to : string)
    (second : gmap string (list Leg))
    (best best' : option ((Z * Z * Z * string) * TransferPlan)) (leg1 : Leg) :
  second_legs_ok second ->
  first_leg_ok leg1 ->
  (forall key plan, best = Some (key, plan) -> plan_ok plan) ->
  plan_step resolved_from resolved_to second best leg1 = Ok best' ->
  forall key plan, best' = Some (key, plan) -> plan_ok plan.
Proof.
  intros Hsecond Hleg1 Hbest. unfold plan_step.
  destruct (second !! _normalize (l_transfer_stop leg1)) as [legs|] eqn:Hlegs;
    simpl; [|by intros [= <-]].
  destruct legs as [|c legs]; [by intros [= <-]|].
  destruct (_best_second_leg_for_first_leg _ _) as [leg2|] eqn:Hleg2;
    [|discriminate].
  simpl. destruct (same_endpoints leg1 leg2) as [[|]|] eqn:Hsame;
    simpl; [by intros [= <-]| |discriminate].
  assert (Hnew : plan_ok
            (plan_payload resolved_from resolved_to leg1 leg2
               (l_duration_minutes leg1 + l_duration_minutes leg2
                + Z.max 0 (l_departure_minutes leg2
                           - l_departure_minutes leg1)))).
  { apply _best_second_leg_elem in Hleg2.
    destruct (Hsecond _ _ _ Hlegs Hleg2) as [Hhead2 Hkey2].
    apply same_endpoints_false in Hsame
      as (first1 & first2 & Hf1 & Hf2 & Hdiff).
    rewrite Hhead2 in Hf2. injection Hf2 as <-.
    destruct (last (l_stops leg2)) as [last2|] eqn:Hlast2.
    - exists first1, (l_transfer_stop leg1), (l_transfer_stop leg2), last2.
      simpl. repeat split; try assumption; try done.
      by apply Hdiff.
    - apply last_None in Hlast2. by rewrite Hlast2 in Hhead2. }
  destruct best as [[bkey bplan]|].
  - match goal with
    | |- (if ?c then _ else _) = _ -> _ => destruct c
    end; intros [= <-] key plan [= <- <-]; [assumption|by eapply Hbest].
  - by intros [= <-] key plan [= <- <-].
Qed.

Lemma best_plan_ok (self : TransportAgent)
    (resolved_from resolved_to : string) (after_minutes : option Z)
    (key : Z * Z * Z * string) (plan : TransferPlan) :
  best_plan self resolved_from resolved_to after_minutes
  = Ok (Some (key, plan)) ->
  plan_ok plan.
Proof.
  unfold best_plan.
  destruct (collect_legs _ _ _ _) as [[first second]|] eqn:Hlegs;
    [|discriminate].
  simpl. apply collect_legs_ok in Hlegs as [Hfirst Hsecond]. intros Hfold.
  refine (foldM_invariant
            (fun best => forall key plan, best = Some (key, plan) -> plan_ok plan)
            first_leg_ok _ _ _ _ _ Hfirst _ Hfold key plan eq_refl).
  - intros acc leg1 acc' Hleg1 Hacc Hstep. by eapply plan_step_ok.
  - discriminate.
Qed.

(** C2. In a plan returned by [suggest_alternative] the first leg ends
    and the second leg starts at the transfer stop, and the two legs do not
    have the same pair of end stops (all under normalization). *)
Theorem suggest_alternative_transfer (self : TransportAgent)
    (from_stop to_stop after_time : string) (plan : TransferPlan) :
  suggest_alternative self from_stop to_stop after_time = Ok (Some plan) ->
  exists first1 last1 first2 last2,
    head (p_stops (t_leg1 plan)) = Some first1
    /\ last (p_stops (t_leg1 plan)) = Some last1
    /\ head (p_stops (t_leg2 plan)) = Some first2
    /\ last (p_stops (t_leg2 plan)) = Some last2
    /\ last1 = t_transfer_stop plan
    /\ _normalize last1 = _normalize first2
    /\ (_normalize first1, _normalize last1)
       <> (_normalize first2, _normalize last2).
Proof.
  unfold suggest_alternative.
  destruct (unresolved _ || unresolved _); [discriminate|].
  simpl.
  destruct (best_plan _ _ _ _) as [[[key plan']|]|] eqn:Hbest;
    simpl; [|discriminate..].
  intros [= <-]. by eapply best_plan_ok.
Qed.

Lemma rbind_Ok {A B : Type} (c : result A) (f : A -> result B) (r : B) :
  rbind c f = Ok r -> exists a, c = Ok a /\ f a = Ok r.
Proof. destruct c as [a|e]; simpl; [eauto|discriminate]. Qed.

(** The second legs do not depend on the time filter. *)
Lemma second_legs_ignore_filter (self : TransportAgent)
    (resolved_from resolved_to : string) (after_minutes : option Z)
    (first first' : list Leg) (second second' : gmap string (list Leg)) :
  collect_legs self resolved_from resolved_to after_minutes
  = Ok (first, second) ->
  collect_legs self resolved_from resolved_to None = Ok (first', second') ->
  second = second'.
Proof.
  unfold collect_legs.
  generalize (@nil Leg) at 1 as acc1. generalize (@nil Leg) as acc2.
  generalize (∅ : gmap string (list Leg)) as sec.
  induction (routes self) as [|route l IH]; intros sec acc2 acc1; simpl.
  - by intros [= <- <-] [= <- <-].
  - intros H1 H2.
    apply rbind_Ok in H1 as ([f1 s1] & Hstep1 & H1).
    apply rbind_Ok in Hstep1 as (fl1 & _ & Hstep1).
    apply rbind_Ok in Hstep1 as (sl1 & Hsec1 & [= <- <-]).
    apply rbind_Ok in H2 as ([f2 s2] & Hstep2 & H2).
    apply rbind_Ok in Hstep2 as (fl2 & _ & Hstep2).
    apply rbind_Ok in Hstep2 as (sl2 & Hsec2 & [= <- <-]).
    rewrite Hsec1 in Hsec2. injection Hsec2 as <-.
    by eapply IH.
Qed.


(** ** [__chain_b] *)

Lemma filter_ext_elem {A : Type} (P Q : A -> Prop)
    `{forall x, Decision (P x)} `{forall x, Decision (Q x)} (l : list A) :
  (forall x, x ∈ l -> P x <-> Q x) -> filter P l = filter Q l.
Proof.
  induction l as [|x l IH]; intros Hext; [reflexivity|].
  rewrite !filter_cons.
  rewrite IH by (intros y Hy; apply Hext; by right).
  destruct (decide (P x)) as [HP|HP], (decide (Q x)) as [HQ|HQ];
    try reflexivity; exfalso; apply (Hext x ltac:(left)) in HP || apply HP;
    try contradiction; by apply (Hext x ltac:(left)).
Qed.

Lemma positions_snoc (b : list ascii) (x c : ascii) :
  positions (b ++ [x]) c
  = positions b c ++ (if decide (x = c) then [length b] else []).
Proof.
  unfold positions. rewrite length_app. simpl.
  rewrite Nat.add_1_r, seq_S, filter_app. simpl. f_equal.
  - apply filter_ext_elem. intros i Hi.
    apply elem_of_seq in Hi. by rewrite lookup_app_l by lia.
  - rewrite filter_cons, filter_nil.
    rewrite lookup_app_r by lia. rewrite Nat.sub_diag. simpl.
    destruct (decide (x = c)) as [->|Hne].
    + by rewrite decide_True.
    + rewrite decide_False; [done|]. by intros [= ->].
Qed.

Lemma b2j_all_snoc (b : list ascii) (x : ascii) :
  Difflib.b2j_all (b ++ [x])
  = <[x := default [] (Difflib.b2j_all b !! x) ++ [length b]]>
      (Difflib.b2j_all b).
Proof.
  unfold Difflib.b2j_all. rewrite length_app. simpl.
  rewrite Nat.add_1_r, seq_S. simpl.
  rewrite zip_with_app by (by rewrite length_seq).
  by rewrite fold_left_app.
Qed.

Lemma b2j_all_lookup (b : list ascii) (c : ascii) :
  default [] (Difflib.b2j_all b !! c) = positions b c
  /\ (Difflib.b2j_all b !! c = None -> positions b c = []).
Proof.
  induction b as [|x b IH] using rev_ind; [done|].
  rewrite b2j_all_snoc, positions_snoc. destruct IH as [IH1 IH2].
  destruct (decide (x = c)) as [->|Hne].
  - rewrite lookup_insert_eq. simpl. by rewrite IH1.
  - rewrite lookup_insert_ne by assumption. rewrite app_nil_r. by split.
Qed.

Lemma b2j_lookup (b : list ascii) (c : ascii) :
  default [] (Difflib.b2j b !! c)
  = if popular b c then [] else positions b c.
Proof.
  unfold Difflib.b2j, popular.
  destruct (b2j_all_lookup b c) as [Hall Hnone].
  generalize (length b / 100 + 1)%nat as ntest. intros ntest.
  destruct (200 <=? length b)%nat; simpl; [|assumption].
  rewrite map_lookup_filter.
  destruct (Difflib.b2j_all b !! c) as [js|] eqn:Hjs; simpl.
  - simpl in Hall. subst js.
    destruct (Nat.leb_spec (length (positions b c)) ntest).
    + by rewrite option_guard_True.
    + rewrite option_guard_False; [done|]. lia.
  - rewrite Hnone by reflexivity. by destruct (_ <=? _)%nat.
Qed.

Lemma item_lookup (l : list ascii) (i : nat) :
  (i < length l)%nat -> l !! i = Some (Difflib.item l i).
Proof.
  intros Hi. unfold Difflib.item. rewrite nth_lookup.
  destruct (lookup_lt_is_Some_2 l i Hi) as [x ->]. reflexivity.
Qed.

Lemma lookup_item (l : list ascii) (i : nat) (c : ascii) :
  l !! i = Some c -> Difflib.item l i = c.
Proof. intros H. unfold Difflib.item. by rewrite nth_lookup, H. Qed.

Lemma positions_sorted (b : list ascii) (c : ascii) :
  StronglySorted lt (positions b c).
Proof.
  unfold positions. generalize 0%nat as lo.
  induction (length b) as [|n IH]; intros lo; simpl; [constructor|].
  rewrite filter_cons. destruct (decide _); [|apply IH].
  constructor; [apply IH|].
  apply Forall_forall. intros j Hj.
  apply list_elem_of_filter in Hj as [_ Hj]. apply elem_of_seq in Hj. lia.
Qed.

Lemma visited_elem (a b : list ascii) (i j : nat) :
  j ∈ visited a b i ->
  (j < length b)%nat /\ b !! j = Some (Difflib.item a i)
  /\ visited a b i = positions b (Difflib.item a i).
Proof.
  unfold visited. rewrite b2j_lookup.
  destruct (popular b _); [by intros H; inversion H|].
  intros Hj. unfold positions in Hj.
  apply list_elem_of_filter in Hj as [Hat Hj]. apply elem_of_seq in Hj.
  repeat split; [lia|assumption].
Qed.

Lemma visited_sorted (a b : list ascii) (i : nat) :
  StronglySorted lt (visited a b i).
Proof.
  unfold visited. rewrite b2j_lookup.
  destruct (popular b _); [constructor|apply positions_sorted].
Qed.

(** When both sequences are the same, a visited cell of the turn [i]
    makes the diagonal cells [(i, i)] and [(j, j)] visited too. *)
Lemma visited_diag_l (l : list ascii) (i j : nat) :
  (i < length l)%nat -> j ∈ visited l l i -> i ∈ visited l l i.
Proof.
  intros Hi Hj. destruct (visited_elem _ _ _ _ Hj) as (_ & _ & ->).
  unfold positions. apply list_elem_of_filter.
  split; [by apply item_lookup|]. apply elem_of_seq. lia.
Qed.

Lemma visited_diag_r (l : list ascii) (i j : nat) :
  j ∈ visited l l i -> j ∈ visited l l j.
Proof.
  intros Hj. destruct (visited_elem _ _ _ _ Hj) as (_ & Hat & Heq).
  unfold visited in *. by rewrite (lookup_item _ _ _ Hat).
Qed.

(** ** The runs of [find_longest_match] on two equal sequences *)

Lemma run_le_S (a b : list ascii) (i j : nat) : (run a b i j <= S i)%nat.
Proof.
  revert j. induction i as [|i IH]; intros j; simpl;
    destruct (bool_decide _); try lia.
  destruct j as [|j]; [lia|]. specialize (IH j). lia.
Qed.

Lemma run_le_diag_l (l : list ascii) (i j : nat) :
  (i < length l)%nat -> (run l l i j <= run l l i i)%nat.
Proof.
  revert j. induction i as [|i IH]; intros j Hi; simpl.
  - destruct (bool_decide (j ∈ _)) eqn:Hj; [|lia].
    apply bool_decide_eq_true in Hj. apply visited_diag_l in Hj; [|assumption].
    rewrite bool_decide_eq_true_2 by assumption. destruct j; lia.
  - destruct (bool_decide (j ∈ _)) eqn:Hj; [|lia].
    apply bool_decide_eq_true in Hj. apply visited_diag_l in Hj; [|assumption].
    rewrite bool_decide_eq_true_2 by assumption.
    destruct j as [|j]; [lia|]. specialize (IH j ltac:(lia)). lia.
Qed.

Lemma run_le_diag_r (l : list ascii) (i j : nat) :
  (run l l i j <= run l l j j)%nat.
Proof.
  revert j. induction i as [|i IH]; intros j; simpl.
  - destruct (bool_decide (j ∈ _)) eqn:Hj; [|lia].
    apply bool_decide_eq_true in Hj. apply visited_diag_r in Hj.
    destruct j as [|j]; simpl; rewrite bool_decide_eq_true_2 by assumption;
      lia.
  - destruct (bool_decide (j ∈ _)) eqn:Hj; [|lia].
    apply bool_decide_eq_true in Hj. apply visited_diag_r in Hj.
    destruct j as [|j]; simpl; rewrite bool_decide_eq_true_2 by assumption;
      [lia|].
    specialize (IH j). lia.
Qed.

Lemma j2len_get_run (a b : list ascii) (j2len : gmap nat nat) (i j : nat) :
  (forall j, default 0%nat (j2len !! j) = prev_row a b i j) ->
  j ∈ visited a b i ->
  (Difflib.j2len_get j2len j + 1)%nat = run a b i j.
Proof.
  intros Hprev Hj. unfold Difflib.j2len_get.
  destruct i as [|i]; simpl; rewrite bool_decide_eq_true_2 by assumption;
    destruct j as [|j]; try rewrite Hprev; simpl; lia.
Qed.

Lemma inner_loop_diag (l : list ascii) (i : nat) (j2len : gmap nat nat)
    (js : list nat) :
  (i < length l)%nat ->
  (forall j, default 0%nat (j2len !! j) = prev_row l l i j) ->
  (forall j, j ∈ js -> j ∈ visited l l i) ->
  StronglySorted lt js ->
  forall (newj2len : gmap nat nat) (p k : nat),
    (forall j, j ∉ js -> default 0%nat (newj2len !! j) = run l l i j) ->
    (p + k <= i + 1)%nat ->
    (forall i', (i' < i)%nat -> (run l l i' i' <= k)%nat) ->
    (i ∈ js \/ (run l l i i <= k)%nat) ->
    exists newj2len' p' k',
      Difflib.inner_loop i 0 (length l) j2len js newj2len (p, p, k)
      = (newj2len', (p', p', k'))
      /\ (forall j, default 0%nat (newj2len' !! j) = run l l i j)
      /\ (p' + k' <= i + 1)%nat
      /\ (forall i', (i' < S i)%nat -> (run l l i' i' <= k')%nat).
Proof.
  intros Hi Hprev. induction js as [|j js IH];
    intros Hvisited Hsorted newj2len p k Hnew Hsize Hdiag Hcur; simpl.
  - exists newj2len, p, k. split; [reflexivity|].
    split; [intros j; apply Hnew; by intros H; inversion H|].
    split; [assumption|].
    intros i' Hi'. destruct (decide (i' = i)) as [->|]; [|apply Hdiag; lia].
    destruct Hcur as [H|H]; [inversion H|assumption].
  - assert (Hj : j ∈ visited l l i) by (apply Hvisited; left).
    destruct (visited_elem _ _ _ _ Hj) as (Hjn & _ & _).
    destruct (Nat.leb_spec (length l) j); [lia|].
    pose proof (j2len_get_run l l j2len i j Hprev Hj) as Hk.
    rewrite Hk. apply StronglySorted_inv in Hsorted as [Hsorted Hall].
    assert (Hnew' : forall j0, j0 ∉ js ->
              default 0%nat (<[j := run l l i j]> newj2len !! j0)
              = run l l i j0).
    { intros j0 Hj0. destruct (decide (j = j0)) as [->|Hne].
      - by rewrite lookup_insert_eq.
      - rewrite lookup_insert_ne by assumption. apply Hnew.
        rewrite not_elem_of_cons. by split. }
    destruct (Nat.ltb_spec k (run l l i j)) as [Hlt|Hge].
    + assert (j = i) as ->.
      { destruct (Nat.lt_trichotomy j i) as [Hji|[Hji|Hji]]; [|assumption|].
        - pose proof (run_le_diag_r l i j). pose proof (Hdiag j Hji). lia.
        - pose proof (run_le_diag_l l i j Hi).
          destruct Hcur as [Hin|Hle]; [|lia].
          apply elem_of_cons in Hin as [->|Hin]; [lia|].
          rewrite Forall_forall in Hall. apply Hall in Hin. lia. }
      pose proof (run_le_S l l i i).
      apply IH; try assumption.
      * intros j0 Hj0. apply Hvisited. by right.
      * lia.
      * intros i' Hi'. specialize (Hdiag i' Hi'). lia.
      * right. lia.
    + apply IH; try assumption.
      * intros j0 Hj0. apply Hvisited. by right.
      * destruct (decide (i ∈ js)) as [Hin|Hnotin]; [by left|right].
        destruct (decide (j = i)) as [->|Hne]; [assumption|].
        destruct Hcur as [Hin|Hle]; [|assumption].
        apply elem_of_cons in Hin as [->|Hin]; contradiction.
Qed.

Lemma outer_loop_diag (l : list ascii) (m : nat) :
  forall (i : nat) (j2len : gmap nat nat) (p k : nat),
    (i + m = length l)%nat ->
    (forall j, default 0%nat (j2len !! j) = prev_row l l i j) ->
    (p + k <= i)%nat ->
    (forall i', (i' < i)%nat -> (run l l i' i' <= k)%nat) ->
    exists j2len' p' k',
      fold_left
        (fun '(j2len, best) i =>
           Difflib.inner_loop i 0 (length l) j2len
             (default [] (Difflib.b2j l !! Difflib.item l i)) ∅ best)
        (seq i m) (j2len, (p, p, k))
      = (j2len', (p', p', k'))
      /\ (p' + k' <= length l)%nat.
Proof.
  induction m as [|m IH]; intros i j2len p k Hm Hprev Hsize Hdiag; simpl.
  - exists j2len, p, k. split; [reflexivity|lia].
  - destruct (inner_loop_diag l i j2len (visited l l i) ltac:(lia) Hprev
                ltac:(auto) (visited_sorted l l i) ∅ p k)
      as (new & p' & k' & Heq & Hnew & Hsize' & Hdiag');
      [..|unfold visited in Heq; rewrite Heq].
    + intros j Hj. rewrite lookup_empty. simpl.
      destruct i; simpl; by rewrite bool_decide_eq_false_2.
    + lia.
    + assumption.
    + destruct (decide (i ∈ visited l l i)) as [Hin|Hnotin]; [by left|right].
      destruct i; simpl; rewrite bool_decide_eq_false_2 by assumption; lia.
    + apply IH; [lia|assumption|lia|assumption].
Qed.

Lemma extend_left_diag (l : list ascii) (ok : ascii -> bool) (p k : nat) :
  (forall c, ok c = true) ->
  Difflib.extend_left l l ok 0 0 p p k = (0%nat, 0%nat, (k + p)%nat).
Proof.
  intros Hok. revert k. induction p as [|p IH]; intros k; simpl.
  - f_equal. lia.
  - rewrite Hok, bool_decide_eq_true_2 by reflexivity. simpl.
    rewrite IH. f_equal. lia.
Qed.

Lemma extend_right_diag (l : list ascii) (ok : ascii -> bool) (fuel k : nat) :
  (forall c, ok c = true) ->
  (k + fuel = length l)%nat ->
  Difflib.extend_right l l fuel ok (length l) (length l) 0 0 k
  = (0%nat, 0%nat, length l).
Proof.
  intros Hok. revert k. induction fuel as [|fuel IH]; intros k Hk; simpl.
  - f_equal. lia.
  - destruct (Nat.ltb_spec k (length l)); [|lia].
    rewrite Hok, bool_decide_eq_true_2 by reflexivity. simpl.
    apply IH. lia.
Qed.

(** The longest match of a sequence with itself is the whole sequence. *)
Lemma find_longest_match_diag (l : list ascii) :
  Difflib.find_longest_match l l 0 (length l) 0 (length l)
  = (0%nat, 0%nat, length l).
Proof.
  unfold Difflib.find_longest_match, Difflib.outer_loop.
  rewrite Nat.sub_0_r.
  destruct (outer_loop_diag l (length l) 0 ∅ 0 0)
    as (j2len & p & k & -> & Hsize); try done.
  { intros i' Hi'. lia. }
  simpl. rewrite extend_left_diag by done.
  rewrite extend_right_diag by (done || lia).
  simpl. by rewrite Nat.sub_diag.
Qed.

Lemma get_matching_blocks_diag (l : list ascii) :
  l <> [] ->
  Difflib.get_matching_blocks l l
  = [(0%nat, 0%nat, length l); (length l, length l, 0%nat)].
Proof.
  intros Hl. unfold Difflib.get_matching_blocks.
  assert (Hn : (0 < length l)%nat) by (destruct l; simpl; [done|lia]).
  replace (2 * length l + 1)%nat with (S (2 * length l)) by lia.
  cbn [Difflib.blocks_loop]. rewrite find_longest_match_diag.
  destruct (Nat.eqb_spec (length l) 0); [lia|].
  rewrite Nat.ltb_irrefl. cbn [andb].
  assert (Hloop : forall fuel blocks,
             Difflib.blocks_loop l l fuel [] blocks = Some blocks)
    by (by intros [|fuel] blocks).
  rewrite Hloop. simpl. unfold Difflib.collapse. simpl.
  by destruct (Nat.eqb_spec (length l) 0); [lia|].
Qed.

Lemma matches_diag (l : list ascii) : Difflib.matches l l = length l.
Proof.
  destruct l as [|c l]; [reflexivity|].
  unfold Difflib.matches. rewrite get_matching_blocks_diag by done.
  simpl. lia.
Qed.

(** ** [get_matching_blocks] empties its queue *)

Section Termination.
Variables a b : list ascii.

Lemma inner_loop_in (i alo ahi blo bhi : nat) (j2len : gmap nat nat)
    (js : list nat) :
  (alo <= i < ahi)%nat ->
  runs_in alo blo i j2len ->
  forall (newj2len : gmap nat nat) (best : nat * nat * nat),
    runs_in alo blo (S i) newj2len ->
    block_in alo ahi blo bhi best ->
    let r := Difflib.inner_loop i blo bhi j2len js newj2len best in
    runs_in alo blo (S i) r.1 /\ block_in alo ahi blo bhi r.2.
Proof.
  intros Hi Hprev. induction js as [|j js IH]; intros newj2len best Hnew Hbest;
    simpl; [by split|].
  destruct (Nat.ltb_spec j blo); [by apply IH|].
  destruct (Nat.leb_spec bhi j); [by split|].
  assert (Hk : (Difflib.j2len_get j2len j + 1 + alo <= S i
                /\ Difflib.j2len_get j2len j + 1 + blo <= j + 1)%nat).
  { unfold Difflib.j2len_get. destruct j as [|j']; simpl; [lia|].
    destruct (j2len !! j') as [v|] eqn:Hv; simpl; [|lia].
    destruct (Hprev _ _ Hv). lia. }
  apply IH.
  - intros j0 v. destruct (decide (j = j0)) as [<-|Hne].
    + rewrite lookup_insert_eq. intros [= <-]. lia.
    + rewrite lookup_insert_ne by assumption. apply Hnew.
  - destruct (Nat.ltb_spec best.2 (Difflib.j2len_get j2len j + 1));
      [|assumption].
    unfold block_in. simpl. lia.
Qed.

Lemma outer_loop_in (alo ahi blo bhi : nat) :
  (blo <= bhi)%nat ->
  block_in alo (Nat.max alo ahi) blo bhi
    (Difflib.outer_loop a b alo ahi blo bhi).2.
Proof.
  intros Hb. unfold Difflib.outer_loop.
  assert (Hgen : forall n i j2len best,
             (alo <= i)%nat -> (i + n <= Nat.max alo ahi)%nat ->
             runs_in alo blo i j2len ->
             block_in alo (Nat.max alo ahi) blo bhi best ->
             block_in alo (Nat.max alo ahi) blo bhi
               (fold_left
                  (fun '(j2len, best) i =>
                     Difflib.inner_loop i blo bhi j2len
                       (default [] (Difflib.b2j b !! Difflib.item a i))
                       ∅ best)
                  (seq i n) (j2len, best)).2).
  { induction n as [|n IH]; intros i j2len best Hi Hn Hprev Hbest; simpl;
      [assumption|].
    pose proof (inner_loop_in i alo (Nat.max alo ahi) blo bhi j2len
                  (default [] (Difflib.b2j b !! Difflib.item a i))
                  ltac:(lia) Hprev ∅ best) as Hinner.
    simpl in Hinner.
    destruct (Difflib.inner_loop _ _ _ _ _ _ _) as [new best'].
    destruct Hinner as [Hnew Hbest']; [|assumption|].
    { intros j v H. by rewrite lookup_empty in H. }
    apply IH; [lia|lia|assumption|assumption]. }
  apply Hgen; [lia|lia| |].
  - intros j v H. by rewrite lookup_empty in H.
  - unfold block_in. simpl. lia.
Qed.

Lemma extend_left_in (ok : ascii -> bool) (alo ahi blo bhi : nat)
    (besti bestj bestsize : nat) :
  block_in alo ahi blo bhi (besti, bestj, bestsize) ->
  block_in alo ahi blo bhi
    (Difflib.extend_left a b ok alo blo besti bestj bestsize).
Proof.
  revert bestj bestsize.
  induction besti as [|i IH]; intros bestj bestsize Hbest; simpl;
    [assumption|].
  destruct bestj as [|j]; [assumption|].
  destruct (Nat.ltb_spec alo (S i)); simpl; [|assumption].
  destruct (Nat.ltb_spec blo (S j)); simpl; [|assumption].
  destruct (ok _ && _); [|assumption].
  apply IH. unfold block_in in *. simpl in *. lia.
Qed.

Lemma extend_right_in (fuel : nat) (ok : ascii -> bool)
    (alo ahi blo bhi besti bestj bestsize : nat) :
  block_in alo ahi blo bhi (besti, bestj, bestsize) ->
  block_in alo ahi blo bhi
    (Difflib.extend_right a b fuel ok ahi bhi besti bestj bestsize).
Proof.
  revert bestsize.
  induction fuel as [|fuel IH]; intros bestsize Hbest; simpl; [assumption|].
  destruct (Nat.ltb_spec (besti + bestsize) ahi); simpl; [|assumption].
  destruct (Nat.ltb_spec (bestj + bestsize) bhi); simpl; [|assumption].
  destruct (ok _ && _); [|assumption].
  apply IH. unfold block_in in *. simpl in *. lia.
Qed.

Lemma extend_in (ok : ascii -> bool) (alo ahi blo bhi : nat)
    (best : nat * nat * nat) :
  block_in alo ahi blo bhi best ->
  block_in alo ahi blo bhi (Difflib.extend a b ok alo ahi blo bhi best).
Proof.
  intros Hbest. unfold Difflib.extend. destruct best as [[besti bestj] k].
  pose proof (extend_left_in ok alo ahi blo bhi besti bestj k Hbest) as Hleft.
  destruct (Difflib.extend_left _ _ _ _ _ _ _ _) as [[i j] k'].
  by apply extend_right_in.
Qed.

(** The block that [find_longest_match] returns lies in the ranges it
    was given. *)
Lemma find_longest_match_in (alo ahi blo bhi : nat) :
  (alo <= ahi)%nat -> (blo <= bhi)%nat ->
  block_in alo ahi blo bhi (Difflib.find_longest_match a b alo ahi blo bhi).
Proof.
  intros Ha Hb. unfold Difflib.find_longest_match.
  apply extend_in, extend_in.
  pose proof (outer_loop_in alo ahi blo bhi Hb) as H.
  by rewrite Nat.max_r in H by assumption.
Qed.

Lemma blocks_loop_fuel (fuel : nat) :
  forall (queue : list (nat * nat * nat * nat))
         (matching_blocks : list (nat * nat * nat)),
    Forall (fun '(alo, ahi, blo, bhi) => (alo <= ahi /\ blo <= bhi)%nat) queue ->
    (queue_weight queue <= fuel)%nat ->
    is_Some (Difflib.blocks_loop a b fuel queue matching_blocks).
Proof.
  induction fuel as [|fuel IH]; intros queue blocks Hqueue Hweight.
  - destruct queue as [|[[[alo ahi] blo] bhi] queue]; simpl in *; [eauto|lia].
  - destruct queue as [|[[[alo ahi] blo] bhi] queue]; [simpl; eauto|].
    apply Forall_cons in Hqueue as [[Ha Hb] Hqueue].
    cbn [Difflib.blocks_loop]. simpl in Hweight.
    pose proof (find_longest_match_in alo ahi blo bhi Ha Hb) as Hin.
    destruct (Difflib.find_longest_match a b alo ahi blo bhi) as [[i j] k].
    unfold block_in in Hin. simpl in Hin.
    destruct (Nat.eqb_spec k 0); [apply IH; [assumption|lia]|].
    apply IH.
    + destruct (Nat.ltb_spec (i + k) ahi), (Nat.ltb_spec (j + k) bhi),
        (Nat.ltb_spec alo i), (Nat.ltb_spec blo j); simpl;
        repeat (apply Forall_cons; split; [lia|]); assumption.
    + destruct (Nat.ltb_spec (i + k) ahi), (Nat.ltb_spec (j + k) bhi),
        (Nat.ltb_spec alo i), (Nat.ltb_spec blo j); simpl; lia.
Qed.

(** The fuel of [get_matching_blocks] is enough: the loop ends with an
    empty queue. *)
Lemma get_matching_blocks_terminates :
  is_Some (Difflib.blocks_loop a b (2 * length a + 1)
             [(0%nat, length a, 0%nat, length b)] []).
Proof.
  apply blocks_loop_fuel.
  - apply Forall_singleton. lia.
  - simpl. lia.
Qed.

End Termination.

(** ** Binary64 arithmetic on integers that a [float] holds exactly *)

Lemma digits_iter_xO (p k : positive) :
  Zpos (digits2_pos (Pos.iter xO p k)) = Zpos (digits2_pos p) + Zpos k.
Proof.
  induction k as [|k IH] using Pos.peano_ind.
  - simpl. lia.
  - rewrite Pos.iter_succ. simpl. lia.
Qed.

(** A mantissa of 53 digits with an exponent in range is left as it is by
    the rounding of [SpecFloat]. *)
Lemma binary_round_aux_canonical (s : bool) (m : positive) (e : Z) :
  Zpos (digits2_pos m) = 53 ->
  -1074 <= e <= 971 ->
  binary_round_aux Float.prec Float.emax s (Zpos m) e loc_Exact
  = S754_finite s m e.
Proof.
  intros Hd He.
  assert (Hshr : shr_fexp Float.prec Float.emax (Zpos m) e loc_Exact
                 = ({| shr_m := Zpos m; shr_r := false; shr_s := false |}, e)).
  { unfold shr_fexp, fexp, emin, Float.prec, Float.emax. simpl Zdigits2.
    rewrite Hd.
    replace (Z.max (53 + e - 53) (3 - 1024 - 53) - e) with 0 by lia.
    reflexivity. }
  unfold binary_round_aux. rewrite Hshr. simpl. rewrite Hshr. simpl.
  unfold Float.emax, Float.prec.
  destruct (Z.leb_spec e (1024 - 53)); [reflexivity|lia].
Qed.

Lemma mantissa_digits (p : positive) :
  Zpos (digits2_pos p) <= 53 -> Zpos (digits2_pos (mantissa p)) = 53.
Proof.
  intros Hd. unfold mantissa.
  destruct (53 - Zpos (digits2_pos p)) as [|k|k] eqn:Hk; try lia.
  rewrite digits_iter_xO. lia.
Qed.

Lemma mantissa_double (p : positive) :
  Zpos (digits2_pos p~0) <= 53 -> mantissa p~0 = mantissa p.
Proof.
  unfold mantissa. simpl digits2_pos. intros Hd.
  destruct (53 - Zpos (digits2_pos p)) as [|k|k] eqn:Hk; try lia.
  destruct (53 - Zpos (Pos.succ (digits2_pos p))) as [|k'|k'] eqn:Hk'; try lia.
  - assert (k = 1%positive) as -> by lia. reflexivity.
  - assert (k = Pos.succ k') as -> by lia.
    rewrite Pos.iter_succ_r. reflexivity.
Qed.

Lemma of_int_exact (p : positive) :
  Zpos (digits2_pos p) <= 53 ->
  Float.of_int (Zpos p)
  = S754_finite false (mantissa p) (Zpos (digits2_pos p) - 53).
Proof.
  intros Hd. pose proof (mantissa_digits p Hd) as Hm.
  unfold Float.of_int, binary_normalize, binary_round.
  assert (Halign : shl_align p 0
                     (fexp Float.prec Float.emax (Zpos (digits2_pos p) + 0))
                   = (mantissa p, Zpos (digits2_pos p) - 53)).
  { unfold shl_align, fexp, emin, mantissa, Float.prec, Float.emax.
    replace (Z.max (Zpos (digits2_pos p) + 0 - 53) (3 - 1024 - 53))
      with (Zpos (digits2_pos p) - 53) by lia.
    destruct (53 - Zpos (digits2_pos p)) as [|k|k] eqn:Hk; try lia.
    - replace (Zpos (digits2_pos p) - 53 - 0) with 0 by lia.
      f_equal. lia.
    - replace (Zpos (digits2_pos p) - 53 - 0) with (Zneg k) by lia.
      reflexivity. }
  rewrite Halign. apply binary_round_aux_canonical; [assumption|lia].
Qed.

(** Doubling a canonical [float] adds one to its exponent. *)
Lemma mul_two_canonical (m : positive) (e : Z) :
  Zpos (digits2_pos m) = 53 ->
  -1074 <= e <= 970 ->
  Float.mul Float.two (S754_finite false m e) = S754_finite false m (e + 1).
Proof.
  intros Hd He. unfold Float.mul, Float.two, SFmul.
  cbn [xorb].
  replace (Pos.mul 4503599627370496 m) with (Pos.iter xO m 52)
    by reflexivity.
  pose proof (digits_iter_xO m 52) as Hbig. rewrite Hd in Hbig.
  assert (Hiter : SpecFloat.iter_pos shr_1 52
                    {| shr_m := Zpos (Pos.iter xO m 52);
                       shr_r := false; shr_s := false |}
                  = {| shr_m := Zpos m; shr_r := false; shr_s := false |})
    by reflexivity.
  generalize dependent (Pos.iter xO m 52). intros big Hbig Hiter.
  unfold binary_round_aux.
  assert (Hshr : shr_fexp Float.prec Float.emax (Zpos big) (-51 + e) loc_Exact
                 = ({| shr_m := Zpos m; shr_r := false; shr_s := false |},
                    e + 1)).
  { unfold shr_fexp, fexp, emin, Float.prec, Float.emax. simpl Zdigits2.
    rewrite Hbig.
    replace (Z.max (53 + 52 + (-51 + e) - 53) (3 - 1024 - 53) - (-51 + e))
      with 52 by lia.
    unfold shr, shr_record_of_loc. rewrite Hiter. f_equal. lia. }
  rewrite Hshr. simpl.
  assert (Hshr' : shr_fexp Float.prec Float.emax (Zpos m) (e + 1) loc_Exact
                  = ({| shr_m := Zpos m; shr_r := false; shr_s := false |},
                     e + 1)).
  { unfold shr_fexp, fexp, emin, Float.prec, Float.emax. simpl Zdigits2.
    rewrite Hd.
    replace (Z.max (53 + (e + 1) - 53) (3 - 1024 - 53) - (e + 1)) with 0
      by lia.
    reflexivity. }
  rewrite Hshr'. simpl. unfold Float.emax, Float.prec.
  destruct (Z.leb_spec (e + 1) (1024 - 53)); [reflexivity|lia].
Qed.

(** A [float] divided by itself is [1.0]. *)
Lemma div_same (m : positive) (e : Z) :
  Float.div (S754_finite false m e) (S754_finite false m e) = Float.one.
Proof.
  unfold Float.div, SFdiv, SFdiv_core_binary.
  replace (Zdigits2 (Zpos m) + e - (Zdigits2 (Zpos m) + e)) with 0 by lia.
  replace (e - e) with 0 by lia.
  change (Z.min (fexp Float.prec Float.emax 0) 0) with (-53).
  change (0 - -53) with 53.
  cbv beta iota.
  rewrite Z.shiftl_mul_pow2 by lia.
  pose proof (Z.div_eucl_eq (Zpos m * 2 ^ 53) (Zpos m) ltac:(lia)) as Heq.
  pose proof (Z.mod_pos_bound (Zpos m * 2 ^ 53) (Zpos m) ltac:(lia)) as Hmod.
  unfold Z.modulo in Hmod.
  destruct (Z.div_eucl (Zpos m * 2 ^ 53) (Zpos m)) as [q r].
  assert (q = 2 ^ 53 /\ r = 0) as [-> ->].
  { generalize dependent (2 ^ 53). intros P HP.
    assert (Z.pos m * (P - q) = r) by lia.
    assert (P - q = 0) by nia. split; lia. }
  unfold new_location.
  destruct (Z.even (Zpos m)); reflexivity.
Qed.

Lemma digits2_pos_size (p : positive) : digits2_pos p = Pos.size p.
Proof.
  induction p as [p IH|p IH|]; simpl;
    [rewrite IH; reflexivity..|reflexivity].
Qed.

Lemma digits_le (p : positive) (k : Z) :
  0 <= k -> Zpos p < 2 ^ k -> Zpos (digits2_pos p) <= k.
Proof.
  intros Hk Hp.
  rewrite digits2_pos_size. pose proof (Pos.size_le p) as Hle.
  apply Pos2Z.pos_le_pos in Hle. rewrite Pos2Z.inj_pow in Hle.
  assert (Hlt : 2 ^ Zpos (Pos.size p) < 2 ^ (k + 1)).
  { rewrite Z.pow_add_r by lia. change (2 ^ 1) with 2. lia. }
  apply Z.pow_lt_mono_r_iff in Hlt; lia.
Qed.

(** [2.0 * n / (n + n)] is [1.0]. *)
Lemma _calculate_ratio_same (n : nat) :
  Z.of_nat n < 2 ^ 52 -> Difflib._calculate_ratio n (n + n) = Float.one.
Proof.
  intros Hn. unfold Difflib._calculate_ratio.
  destruct n as [|n]; [reflexivity|].
  destruct (Nat.eqb_spec (S n + S n) 0); [lia|].
  destruct (Z.of_nat (S n)) as [|p|p] eqn:Hp; try lia.
  replace (Z.of_nat (S n + S n)) with (Zpos p~0) by lia.
  assert (Hd : Zpos (digits2_pos p~0) <= 53)
    by (apply digits_le; lia).
  assert (Hd' : Zpos (digits2_pos p) <= 53) by (simpl in Hd; lia).
  rewrite (of_int_exact p Hd'), (of_int_exact p~0 Hd).
  rewrite mantissa_double by assumption.
  rewrite mul_two_canonical; [|by apply mantissa_digits|lia].
  replace (Zpos (digits2_pos p~0) - 53) with (Zpos (digits2_pos p) - 53 + 1)
    by (simpl; lia).
  apply div_same.
Qed.

(** ** The score of [_resolve_stop] *)

Lemma list_ascii_length (s : string) :
  length (list_ascii_of_string s) = String.length s.
Proof. induction s as [|c s IH]; simpl; congruence. Qed.

Lemma ratio_same (l : list ascii) :
  Z.of_nat (length l) < 2 ^ 52 -> Difflib.ratio l l = Float.one.
Proof.
  intros Hl. unfold Difflib.ratio. rewrite matches_diag.
  by apply _calculate_ratio_same.
Qed.

Lemma contains_same (s : string) : Py.contains s s = true.
Proof.
  assert (Hprefix : String.prefix s s = true).
  { induction s as [|c s IH]; simpl; [reflexivity|].
    by destruct (ascii_dec c c). }
  destruct s; simpl in *; [reflexivity|]. by rewrite Hprefix.
Qed.

(** C7, amended.  The ratio of a string with itself is 1.0 and its score
    is 1.0 + 0.12; the test that grants the bonus is symmetric.  The
    ratio, hence the score, is not symmetric in general. *)
Theorem score_of_equal_strings (a b : string) :
  Z.of_nat (String.length a) < 2 ^ 52 ->
  Difflib.str_ratio a a = Float.one
  /\ stop_score a a = Float.add Float.one Float.lit_0_12
  /\ Py.contains b a || Py.contains a b = Py.contains a b || Py.contains b a.
Proof.
  intros Hlen.
  assert (Hratio : Difflib.str_ratio a a = Float.one).
  { unfold Difflib.str_ratio. apply ratio_same.
    by rewrite list_ascii_length. }
  split; [assumption|]. split; [|apply orb_comm].
  unfold stop_score. by rewrite Hratio, contains_same.
Qed.

(** ** The rounding of [SpecFloat] does not overflow on small numbers *)

Lemma Zdigits2_log2 (m : Z) : 0 < m -> Zdigits2 m = Z.log2 m + 1.
Proof.
  destruct m as [|p|p]; try lia. intros _. simpl Zdigits2.
  rewrite digits2_pos_size. destruct p; simpl; lia.
Qed.

Lemma Zdigits2_nonneg (m : Z) : 0 <= m -> 0 <= Zdigits2 m.
Proof. destruct m; simpl; lia. Qed.

Lemma Zdigits2_mono (a b : Z) : 0 <= a <= b -> Zdigits2 a <= Zdigits2 b.
Proof.
  intros [Ha Hab]. destruct (Z.eq_dec a 0) as [->|Hne].
  - by apply Zdigits2_nonneg.
  - rewrite !Zdigits2_log2 by lia.
    pose proof (Z.log2_le_mono a b Hab). lia.
Qed.

Lemma Zdigits2_succ (a : Z) : 0 <= a -> Zdigits2 (a + 1) <= Zdigits2 a + 1.
Proof.
  intros Ha. destruct (Z.eq_dec a 0) as [->|Hne]; [simpl; lia|].
  rewrite !Zdigits2_log2 by lia.
  pose proof (Z.log2_succ_le a) as H. unfold Z.succ in H. lia.
Qed.

Lemma Zdigits2_mul (a b : Z) :
  0 < a -> 0 < b -> Zdigits2 (a * b) <= Zdigits2 a + Zdigits2 b.
Proof.
  intros Ha Hb. rewrite !Zdigits2_log2 by lia.
  pose proof (Z.log2_mul_above a b ltac:(lia) ltac:(lia)). lia.
Qed.

Lemma Zdigits2_lt_pow2 (m k : Z) :
  0 <= k -> 0 <= m < 2 ^ k -> Zdigits2 m <= k.
Proof.
  intros Hk [Hm Hlt]. destruct m as [|p|p]; [simpl; lia| |lia].
  simpl. by apply digits_le.
Qed.

Lemma Zdigits2_gt (m : Z) : 0 <= m -> m < 2 ^ Zdigits2 m.
Proof.
  intros Hm. destruct (Z.eq_dec m 0) as [->|Hne]; [simpl; lia|].
  rewrite Zdigits2_log2 by lia.
  pose proof (Z.log2_spec m ltac:(lia)). rewrite Z.add_1_r. lia.
Qed.

(** Shifting a mantissa to the right by [n] digits. *)
Lemma Zdigits2_div_pow2 (m n : Z) :
  0 <= m -> 0 <= n -> Zdigits2 (m / 2 ^ n) + n <= Z.max (Zdigits2 m) n.
Proof.
  intros Hm Hn. pose proof (Zdigits2_nonneg m Hm) as Hd.
  pose proof (Zdigits2_gt m Hm) as Hlt.
  destruct (Z.le_gt_cases (Zdigits2 m) n) as [Hle|Hgt].
  - rewrite Z.div_small; [simpl; lia|].
    split; [assumption|]. eapply Z.lt_le_trans; [eassumption|].
    apply Z.pow_le_mono_r; lia.
  - assert (Zdigits2 (m / 2 ^ n) <= Zdigits2 m - n); [|lia].
    apply Zdigits2_lt_pow2; [lia|]. split; [apply Z.div_pos; lia|].
    apply Z.div_lt_upper_bound; [lia|].
    rewrite <- Z.pow_add_r by lia.
    by replace (n + (Zdigits2 m - n)) with (Zdigits2 m) by lia.
Qed.

Lemma iter_pos_nat {A : Type} (f : A -> A) (p : positive) (x : A) :
  SpecFloat.iter_pos f p x = Nat.iter (Pos.to_nat p) f x.
Proof.
  revert x. induction p as [p IH|p IH|]; intros x; cbn [SpecFloat.iter_pos].
  - rewrite !IH, Pos2Nat.inj_xI.
    replace (S (2 * Pos.to_nat p)) with (Pos.to_nat p + (Pos.to_nat p + 1))%nat
      by lia.
    rewrite !Nat.iter_add. reflexivity.
  - rewrite !IH, Pos2Nat.inj_xO.
    replace (2 * Pos.to_nat p)%nat with (Pos.to_nat p + Pos.to_nat p)%nat
      by lia.
    by rewrite Nat.iter_add.
  - reflexivity.
Qed.

Lemma shr_1_m (mrs : shr_record) :
  0 <= shr_m mrs -> shr_m (shr_1 mrs) = shr_m mrs / 2.
Proof.
  destruct mrs as [m r s]. simpl. intros Hm.
  destruct m as [|[p|p|]|p]; try lia; simpl.
  - reflexivity.
  - rewrite Pos2Z.inj_xI. apply Z.div_unique with (r := 1); lia.
  - rewrite Pos2Z.inj_xO. apply Z.div_unique with (r := 0); lia.
  - reflexivity.
Qed.

Lemma shr_m_iter (k : nat) (mrs : shr_record) :
  0 <= shr_m mrs ->
  shr_m (Nat.iter k shr_1 mrs) = shr_m mrs / 2 ^ Z.of_nat k.
Proof.
  intros Hm. induction k as [|k IH].
  - simpl. by rewrite Z.div_1_r.
  - rewrite Nat2Z.inj_succ, Z.pow_succ_r by lia. simpl.
    rewrite shr_1_m by (rewrite IH; apply Z.div_pos; lia).
    rewrite IH, Z.div_div by lia. f_equal. lia.
Qed.

(** The mantissa and the exponent after [shr]. *)
Lemma shr_spec (mrs : shr_record) (e n : Z) :
  0 <= shr_m mrs ->
  shr_m (shr mrs e n).1 = shr_m mrs / 2 ^ Z.max n 0
  /\ (shr mrs e n).2 = e + Z.max n 0.
Proof.
  intros Hm. destruct n as [|p|p]; simpl.
  - split; [by rewrite Z.div_1_r|lia].
  - rewrite iter_pos_nat, shr_m_iter by assumption.
    rewrite positive_nat_Z. split; [reflexivity|lia].
  - split; [by rewrite Z.div_1_r|lia].
Qed.

Lemma shr_record_of_loc_m (m : Z) (l : location) :
  shr_m (shr_record_of_loc m l) = m.
Proof. by destruct l as [|[]]. Qed.

Lemma shr_fexp_spec (m e : Z) (l : location) :
  0 <= m ->
  let n := Z.max (fexp Float.prec Float.emax (Zdigits2 m + e) - e) 0 in
  let r := shr_fexp Float.prec Float.emax m e l in
  shr_m r.1 = m / 2 ^ n /\ r.2 = e + n.
Proof.
  intros Hm n r. unfold r, shr_fexp.
  pose proof (shr_spec (shr_record_of_loc m l) e
                (fexp Float.prec Float.emax (Zdigits2 m + e) - e)) as H.
  rewrite shr_record_of_loc_m in H. by apply H.
Qed.

Lemma round_nearest_even_bounds (m : Z) (l : location) :
  m <= round_nearest_even m l <= m + 1.
Proof.
  destruct l as [|[]]; simpl; try lia. destruct (Z.even m); lia.
Qed.

Lemma fexp_eq (x : Z) :
  fexp Float.prec Float.emax x = Z.max (x - 53) (-1074).
Proof. reflexivity. Qed.

(** A nonnegative mantissa with a moderate exponent rounds to a zero or
    to a finite number of about the same magnitude. *)
Lemma binary_round_aux_finite (s : bool) (m e : Z) (l : location) :
  0 <= m ->
  e <= 971 ->
  Zdigits2 m + e <= 1023 ->
  binary_round_aux Float.prec Float.emax s m e l = S754_zero s
  \/ exists m' e',
       binary_round_aux Float.prec Float.emax s m e l = S754_finite s m' e'
       /\ Zdigits2 (Zpos m') + e' <= Z.max (Zdigits2 m + e) (-1074) + 1.
Proof.
  intros Hm He Hd. unfold binary_round_aux.
  pose proof (shr_fexp_spec m e l Hm) as H1. simpl in H1.
  destruct (shr_fexp Float.prec Float.emax m e l) as [mrs1 e1].
  simpl in H1. destruct H1 as [Hm1 He1].
  set (n1 := Z.max (fexp Float.prec Float.emax (Zdigits2 m + e) - e) 0) in *.
  pose proof (round_nearest_even_bounds (shr_m mrs1) (loc_of_shr_record mrs1))
    as Hround.
  set (m2 := round_nearest_even (shr_m mrs1) (loc_of_shr_record mrs1)) in *.
  assert (Hm1' : 0 <= shr_m mrs1) by (rewrite Hm1; apply Z.div_pos; lia).
  pose proof (shr_fexp_spec m2 e1 loc_Exact ltac:(lia)) as H2. simpl in H2.
  destruct (shr_fexp Float.prec Float.emax m2 e1 loc_Exact) as [mrs2 e2].
  simpl in H2. destruct H2 as [Hm2 He2].
  set (n2 := Z.max (fexp Float.prec Float.emax (Zdigits2 m2 + e1) - e1) 0) in *.
  pose proof (Zdigits2_div_pow2 m n1 Hm ltac:(lia)) as Hd1.
  rewrite <- Hm1 in Hd1.
  pose proof (Zdigits2_mono (shr_m mrs1) m2 ltac:(lia)) as Hmono1.
  pose proof (Zdigits2_mono m2 (shr_m mrs1 + 1) ltac:(lia)) as Hmono2.
  pose proof (Zdigits2_succ (shr_m mrs1) Hm1') as Hsucc.
  pose proof (Zdigits2_div_pow2 m2 n2 ltac:(lia) ltac:(lia)) as Hd2.
  rewrite <- Hm2 in Hd2.
  pose proof (Zdigits2_nonneg m Hm).
  pose proof (Zdigits2_nonneg (shr_m mrs1) Hm1').
  pose proof (Zdigits2_nonneg m2 ltac:(lia)).
  assert (Hm2' : 0 <= shr_m mrs2) by (rewrite Hm2; apply Z.div_pos; lia).
  unfold n1, n2 in *. rewrite !fexp_eq in *.
  destruct (shr_m mrs2) as [|p|p] eqn:Hp; [by left| |lia].
  right. exists p, e2. unfold Float.emax, Float.prec.
  destruct (Z.leb_spec e2 (1024 - 53)); [|lia].
  split; [reflexivity|]. lia.
Qed.

(** ** [_segment_duration] does not raise *)

Lemma of_int_exact_neg (p : positive) :
  Zpos (digits2_pos p) <= 53 ->
  Float.of_int (Zneg p)
  = S754_finite true (mantissa p) (Zpos (digits2_pos p) - 53).
Proof.
  intros Hd. pose proof (of_int_exact p Hd) as Hpos.
  unfold Float.of_int, binary_normalize, binary_round in *.
  destruct (shl_align p 0 _) as [mz ez].
  unfold binary_round_aux in *.
  destruct (shr_fexp _ _ _ ez loc_Exact) as [mrs1 e1].
  destruct (shr_fexp _ _ _ e1 loc_Exact) as [mrs2 e2].
  destruct (shr_m mrs2); [discriminate| |discriminate].
  destruct (e2 <=? _); [|discriminate].
  by injection Hpos as -> ->.
Qed.

Lemma int_truediv_finite (a b : Z) :
  0 < a < 2 ^ 63 ->
  0 < b ->
  Float.int_truediv a b = Ok (S754_zero false)
  \/ exists m e,
       Float.int_truediv a b = Ok (S754_finite false m e)
       /\ Zdigits2 (Zpos m) + e <= 64.
Proof.
  intros Ha Hb. unfold Float.int_truediv.
  destruct (Z.eqb_spec b 0); [lia|].
  destruct a as [|pa|pa]; try lia. destruct b as [|pb|pb]; try lia.
  unfold Float.exact, Float.div, SFdiv, SFdiv_core_binary.
  rewrite !Z.sub_0_r, !Z.add_0_r. rewrite fexp_eq.
  set (e := Z.min _ 0).
  set (m := match 0 - e with
            | 0 => Zpos pa | Zpos _ => Z.shiftl (Zpos pa) (0 - e) | Zneg _ => 0
            end).
  assert (He : e <= 0) by (unfold e; lia).
  assert (Hm : 0 <= m <= Zpos pa * 2 ^ (0 - e)).
  { unfold m. destruct (0 - e) as [|k|k] eqn:Hk; try lia.
    rewrite Z.shiftl_mul_pow2 by lia. lia. }
  pose proof (Z.div_eucl_eq m (Zpos pb) ltac:(lia)) as Heq.
  pose proof (Z.mod_pos_bound m (Zpos pb) ltac:(lia)) as Hmod.
  unfold Z.modulo in Hmod.
  destruct (Z.div_eucl m (Zpos pb)) as [q r].
  assert (Hq : 0 <= q <= Zpos pa * 2 ^ (0 - e)) by nia.
  assert (Hdq : Zdigits2 q + e <= 63).
  { assert (Zdigits2 q <= 63 + (0 - e)); [|lia].
    apply Zdigits2_lt_pow2; [lia|]. split; [lia|].
    rewrite Z.pow_add_r by lia.
    assert (0 < 2 ^ (0 - e)) by (apply Z.pow_pos_nonneg; lia). nia. }
  destruct (binary_round_aux_finite (xorb false false) q e
              (new_location (Zpos pb) r) ltac:(lia) ltac:(lia) ltac:(lia))
    as [->|(m' & e' & -> & Hd')]; [by left|].
  right. exists m', e'. split; [reflexivity|]. lia.
Qed.

Lemma round_finite (x : Float.float) :
  (x = S754_zero false \/ x = S754_zero true
   \/ exists s m e, x = S754_finite s m e) ->
  exists rounded, Float.round x = Ok rounded.
Proof.
  intros [->|[->|(s & m & e & ->)]]; simpl; eauto.
Qed.

Lemma of_int_small (d : Z) :
  Z.abs d < 2 ^ 53 ->
  Float.of_int d = S754_zero false
  \/ exists s m e,
       Float.of_int d = S754_finite s m e
       /\ Zpos (digits2_pos m) = 53 /\ e <= 0.
Proof.
  intros Hd. destruct d as [|p|p]; [by left| |]; right.
  - assert (Hp : Zpos (digits2_pos p) <= 53) by (apply digits_le; lia).
    exists false, (mantissa p), (Zpos (digits2_pos p) - 53).
    split; [by apply of_int_exact|]. split; [by apply mantissa_digits|lia].
  - assert (Hp : Zpos (digits2_pos p) <= 53) by (apply digits_le; lia).
    exists true, (mantissa p), (Zpos (digits2_pos p) - 53).
    split; [by apply of_int_exact_neg|]. split; [by apply mantissa_digits|lia].
Qed.

(** The product of a small integer and of a quotient of lengths can be
    rounded to an integer. *)
Lemma round_product (d : Z) (x : Float.float) :
  Z.abs d < 2 ^ 53 ->
  (x = S754_zero false
   \/ exists m e, x = S754_finite false m e /\ Zdigits2 (Zpos m) + e <= 64) ->
  exists duration rounded,
    Float.of_int_checked d = Ok duration
    /\ duration = Float.of_int d
    /\ Float.round (Float.mul duration x) = Ok rounded.
Proof.
  intros Hd Hx. unfold Float.of_int_checked.
  destruct (of_int_small d Hd) as [->|(s & m & e & -> & Hm & He)].
  - exists (S754_zero false).
    destruct Hx as [->|(mx & ex & -> & _)]; simpl; eauto.
  - exists (S754_finite s m e).
    destruct Hx as [->|(mx & ex & -> & Hdx)].
    + exists 0. by destruct s.
    + destruct (round_finite (Float.mul (S754_finite s m e)
                                (S754_finite false mx ex)))
        as [rounded Hrounded]; [|by eauto].
      unfold Float.mul, SFmul.
      pose proof (Zdigits2_mul (Zpos m) (Zpos mx) ltac:(lia) ltac:(lia))
        as Hmul.
      simpl Zdigits2 in *.
      destruct (binary_round_aux_finite (xorb s false) (Zpos (m * mx))
                  (e + ex) loc_Exact ltac:(lia) ltac:(lia))
        as [->|(m' & e' & -> & _)].
      * simpl Zdigits2. lia.
      * destruct (xorb s false); auto.
      * eauto 6.
Qed.

(** For a leg between two positions of a route of fewer than [2^63]
    stops whose duration is below [2^53] in absolute value,
    [_segment_duration] returns without raising
    [max(5, round(duration * (segment_edges / total_edges)))] with the
    quotient, the product and [round] of binary64 arithmetic. *)
Theorem segment_duration_binary64 (route : RouteRow)
    (start_idx end_idx : nat) :
  (start_idx < end_idx < length (stops route))%nat ->
  Z.of_nat (length (stops route)) < 2 ^ 63 ->
  Z.abs (duration_minutes route) < 2 ^ 53 ->
  exists fraction rounded,
    Float.int_truediv (Z.max 1 (Z.of_nat end_idx - Z.of_nat start_idx))
      (Z.max 1 (Z.of_nat (length (stops route)) - 1))
    = Ok fraction
    /\ Float.round
         (Float.mul (Float.of_int (duration_minutes route)) fraction)
       = Ok rounded
    /\ _segment_duration route (Z.of_nat start_idx) (Z.of_nat end_idx)
       = Ok (Z.max 5 rounded).
Proof.
  intros Hleg Hlen Hduration. unfold _segment_duration.
  set (total_edges := Z.max 1 (Z.of_nat (length (stops route)) - 1)).
  set (segment_edges := Z.max 1 (Z.of_nat end_idx - Z.of_nat start_idx)).
  assert (Hfraction :
            Float.int_truediv segment_edges total_edges
            = Ok (S754_zero false)
            \/ exists m e,
                 Float.int_truediv segment_edges total_edges
                 = Ok (S754_finite false m e)
                 /\ Zdigits2 (Zpos m) + e <= 64)
    by (apply int_truediv_finite; unfold segment_edges, total_edges; lia).
  destruct Hfraction as [Hx|(m & e & Hx & Hd)]; rewrite Hx; simpl rbind.
  - destruct (round_product (duration_minutes route) (S754_zero false)
                Hduration ltac:(by left))
      as (duration & rounded & -> & -> & Hrounded).
    exists (S754_zero false), rounded. simpl rbind. rewrite Hrounded.
    by repeat split.
  - destruct (round_product (duration_minutes route) (S754_finite false m e)
                Hduration ltac:(right; eauto))
      as (duration & rounded & -> & -> & Hrounded).
    exists (S754_finite false m e), rounded. simpl rbind. rewrite Hrounded.
    by repeat split.
Qed.

(** ** Rounding to nearest, ties to even *)

Ltac bool_cases :=
  repeat match goal with
    | |- context [?a <=? ?b] => destruct (Z.leb_spec a b)
    | |- context [?a =? ?b] => destruct (Z.eqb_spec a b)
    end.

Lemma div_half_even_error (N D : Z) :
  0 < D -> Z.abs (2 * (N - Float.div_half_even N D * D)) <= D.
Proof.
  intros HD. unfold Float.div_half_even.
  pose proof (Z.div_mod N D ltac:(lia)) as Hdiv.
  pose proof (Z.mod_pos_bound N D HD) as Hmod.
  destruct (Z.compare_spec (2 * (N mod D)) D); [destruct (Z.even _)|..]; nia.
Qed.

(** The integer within less than a half of a quotient is its rounding. *)
Lemma div_half_even_unique (N D k : Z) :
  0 < D -> Z.abs (2 * (N - k * D)) < D -> Float.div_half_even N D = k.
Proof.
  intros HD Hk. unfold Float.div_half_even.
  pose proof (Z.div_mod N D ltac:(lia)) as Hdiv.
  pose proof (Z.mod_pos_bound N D HD) as Hmod.
  assert (N / D = k \/ N / D = k - 1) as [Hq|Hq] by nia.
  - destruct (Z.compare_spec (2 * (N mod D)) D); [nia|lia|nia].
  - destruct (Z.compare_spec (2 * (N mod D)) D); [nia|nia|lia].
Qed.

Lemma div_half_even_bounds (N D : Z) :
  0 < D -> N / D <= Float.div_half_even N D <= N / D + 1.
Proof.
  intros HD. unfold Float.div_half_even.
  destruct (_ ?= _); [destruct (Z.even _)|..]; lia.
Qed.

Lemma encodes_shr_1 (mrs : shr_record) (N D : Z) :
  0 <= N -> 0 < D -> encodes mrs N D -> encodes (shr_1 mrs) N (2 * D).
Proof.
  intros HN HD. destruct mrs as [m r s]. unfold encodes. simpl shr_m.
  simpl shr_r. simpl shr_s. intros (Hm & -> & ->).
  pose proof (Z.mod_pos_bound N D HD) as Hmod.
  pose proof (Z.div_pos N D HN HD) as Hq.
  assert (Hdiv2 : N / (2 * D) = N / D / 2)
    by (rewrite Z.mul_comm, Z.div_div; lia).
  assert (Hmod2 : N mod (2 * D) = N mod D + D * ((N / D) mod 2))
    by (rewrite (Z.mul_comm 2 D); apply Z.rem_mul_r; lia).
  rewrite Hdiv2, Hmod2, <- Hm. clear Hdiv2 Hmod2.
  destruct m as [|[p|p|]|p]; try lia; simpl shr_1; simpl shr_m;
    simpl shr_r; simpl shr_s.
  - change (0 mod 2) with 0. change (0 / 2) with 0.
    split; [reflexivity|]. split; bool_cases; simpl; lia.
  - replace (Zpos p~1 mod 2) with 1
      by (rewrite Pos2Z.inj_xI; apply Z.mod_unique with (q := Zpos p); lia).
    replace (Zpos p~1 / 2) with (Zpos p)
      by (rewrite Pos2Z.inj_xI; apply Z.div_unique with (r := 1); lia).
    split; [reflexivity|]. split; bool_cases; simpl; lia.
  - replace (Zpos p~0 mod 2) with 0
      by (rewrite Pos2Z.inj_xO; apply Z.mod_unique with (q := Zpos p); lia).
    replace (Zpos p~0 / 2) with (Zpos p)
      by (rewrite Pos2Z.inj_xO; apply Z.div_unique with (r := 0); lia).
    split; [reflexivity|]. split; bool_cases; simpl; lia.
  - change (1 mod 2) with 1. change (1 / 2) with 0.
    split; [reflexivity|]. split; bool_cases; simpl; lia.
Qed.

Lemma encodes_iter (k : nat) (mrs : shr_record) (N D : Z) :
  0 <= N -> 0 < D -> encodes mrs N D ->
  encodes (Nat.iter k shr_1 mrs) N (D * 2 ^ Z.of_nat k).
Proof.
  intros HN HD Henc. induction k as [|k IH].
  - simpl. by rewrite Z.mul_1_r.
  - rewrite Nat2Z.inj_succ, Z.pow_succ_r by lia. simpl.
    replace (D * (2 * 2 ^ Z.of_nat k)) with (2 * (D * 2 ^ Z.of_nat k)) by lia.
    apply encodes_shr_1; [assumption| |assumption].
    apply Z.mul_pos_pos; [assumption|]. apply Z.pow_pos_nonneg; lia.
Qed.

Lemma encodes_shr (mrs : shr_record) (N D e n : Z) :
  0 <= N -> 0 < D -> encodes mrs N D ->
  encodes (shr mrs e n).1 N (D * 2 ^ Z.max n 0)
  /\ (shr mrs e n).2 = e + Z.max n 0.
Proof.
  intros HN HD Henc. destruct n as [|p|p]; unfold shr; cbn [fst snd].
  - change (Z.max 0 0) with 0. rewrite Z.pow_0_r, Z.mul_1_r.
    split; [assumption|lia].
  - replace (Z.max (Zpos p) 0) with (Zpos p) by lia.
    rewrite iter_pos_nat. split; [|reflexivity].
    rewrite <- (positive_nat_Z p). by apply encodes_iter.
  - replace (Z.max (Zneg p) 0) with 0 by lia. rewrite Z.pow_0_r, Z.mul_1_r.
    split; [assumption|lia].
Qed.

Lemma encodes_round (mrs : shr_record) (N D : Z) :
  0 < D -> encodes mrs N D ->
  round_nearest_even (shr_m mrs) (loc_of_shr_record mrs)
  = Float.div_half_even N D.
Proof.
  intros HD. destruct mrs as [m r s]. unfold encodes. simpl.
  intros (-> & -> & ->). unfold Float.div_half_even.
  pose proof (Z.mod_pos_bound N D HD) as Hmod.
  destruct (Z.compare_spec (2 * (N mod D)) D); bool_cases; simpl;
    reflexivity || lia.
Qed.

Lemma encodes_exact (m : Z) : encodes (shr_record_of_loc m loc_Exact) m 1.
Proof.
  unfold encodes. simpl. rewrite Z.div_1_r, Z.mod_1_r. by repeat split.
Qed.

Lemma encodes_new_location (N D : Z) :
  0 <= N -> 0 < D ->
  encodes (shr_record_of_loc (N / D) (new_location D (N mod D))) N D.
Proof.
  intros HN HD. pose proof (Z.mod_pos_bound N D HD) as Hmod.
  unfold encodes, new_location, new_location_even, new_location_odd.
  destruct (Z.even D) eqn:Heven.
  - destruct (Z.eqb_spec (N mod D) 0) as [->|Hne]; simpl.
    { repeat split. symmetry. apply Z.leb_gt. lia. }
    destruct (Z.compare_spec (2 * (N mod D)) D); simpl; repeat split;
      bool_cases; simpl; reflexivity || lia.
  - assert (Hodd : Z.odd D = true) by (by rewrite <- Z.negb_even, Heven).
    apply Z.odd_spec in Hodd as [half Hhalf].
    destruct (Z.eqb_spec (N mod D) 0) as [->|Hne]; simpl.
    { repeat split. symmetry. apply Z.leb_gt. lia. }
    destruct (Z.compare_spec (2 * (N mod D) + 1) D); simpl; repeat split;
      bool_cases; simpl; reflexivity || lia.
Qed.

Lemma Zdigits2_unique (m k : Z) :
  0 < k -> 2 ^ (k - 1) <= m < 2 ^ k -> Zdigits2 m = k.
Proof.
  intros Hk Hm.
  assert (0 < m) by (pose proof (Z.pow_pos_nonneg 2 (k - 1)); lia).
  rewrite Zdigits2_log2 by assumption.
  rewrite (Z.log2_unique m (k - 1)); [lia|lia|].
  by replace (Z.succ (k - 1)) with k by lia.
Qed.

Lemma Zdigits2_bounds (m : Z) :
  0 < m -> 2 ^ (Zdigits2 m - 1) <= m < 2 ^ Zdigits2 m.
Proof.
  intros Hm. rewrite Zdigits2_log2 by assumption.
  pose proof (Z.log2_spec m Hm) as H.
  replace (Z.log2 m + 1 - 1) with (Z.log2 m) by lia.
  by replace (Z.log2 m + 1) with (Z.succ (Z.log2 m)) by lia.
Qed.

Lemma div_pow2_bounds (m n k : Z) :
  0 <= n -> 0 <= k ->
  2 ^ (n + k) <= m < 2 ^ (n + k + 1) -> 2 ^ k <= m / 2 ^ n < 2 ^ (k + 1).
Proof.
  intros Hn Hk [Hlo Hhi].
  assert (Hpos : 0 < 2 ^ n) by (apply Z.pow_pos_nonneg; lia).
  rewrite Z.pow_add_r in Hlo by lia.
  replace (n + k + 1) with (n + (k + 1)) in Hhi by lia.
  rewrite Z.pow_add_r in Hhi by lia.
  split.
  - apply Z.div_le_lower_bound; lia.
  - apply Z.div_lt_upper_bound; lia.
Qed.

(** The rounding of [SpecFloat] on a mantissa of 53 digits or more, in
    the range of the normal numbers, when the mantissa [m] and the
    location [l] stand for the quotient [N / D]: the result is [N / D]
    rounded to 53 digits, to nearest, ties to even. *)
Lemma binary_round_aux_nearest (s : bool) (m e : Z) (l : location) (N D : Z) :
  0 <= N -> 0 < D -> 0 < m ->
  encodes (shr_record_of_loc m l) N D ->
  let n := Zdigits2 m - 53 in
  0 <= n ->
  -1074 <= e + n <= 970 ->
  exists m' e',
    binary_round_aux Float.prec Float.emax s m e l = S754_finite s m' e'
    /\ e + n <= e' <= e + n + 1
    /\ Zpos m' * 2 ^ (e' - (e + n)) = Float.div_half_even N (D * 2 ^ n)
    /\ 2 ^ 52 <= Float.div_half_even N (D * 2 ^ n) <= 2 ^ 53
    /\ Zdigits2 (Zpos m') = 53.
Proof.
  intros HN HD Hm Henc n Hn He. unfold binary_round_aux.
  assert (Hpow : 0 < 2 ^ n) by (apply Z.pow_pos_nonneg; lia).
  assert (Hshift : fexp Float.prec Float.emax (Zdigits2 m + e) - e = n)
    by (rewrite fexp_eq; unfold n in *; lia).
  unfold shr_fexp at 1. rewrite Hshift.
  destruct (encodes_shr (shr_record_of_loc m l) N D e n HN HD Henc)
    as [Henc1 He1].
  destruct (shr (shr_record_of_loc m l) e n) as [mrs1 e1].
  simpl in Henc1, He1. rewrite Z.max_l in Henc1, He1 by lia. subst e1.
  rewrite (encodes_round mrs1 N (D * 2 ^ n)) by (assumption || lia).
  set (R := Float.div_half_even N (D * 2 ^ n)).
  assert (HR : 2 ^ 52 <= R <= 2 ^ 53).
  { pose proof (div_half_even_bounds N (D * 2 ^ n) ltac:(lia)) as Hb.
    fold R in Hb. rewrite <- Z.div_div in Hb by lia.
    destruct Henc as (Hq & _ & _). rewrite shr_record_of_loc_m in Hq.
    rewrite <- Hq in Hb.
    pose proof (Zdigits2_bounds m Hm) as Hmb.
    pose proof (div_pow2_bounds m n 52 Hn ltac:(lia)) as Hd.
    replace (n + 52) with (Zdigits2 m - 1) in Hd by (unfold n; lia).
    replace (Zdigits2 m - 1 + 1) with (Zdigits2 m) in Hd by lia.
    specialize (Hd Hmb). change (52 + 1) with 53 in Hd. lia. }
  destruct (Z.eq_dec R (2 ^ 53)) as [Heq|Hne].
  - rewrite Heq. exists 4503599627370496%positive, (e + n + 1).
    assert (Hshr : shr_fexp Float.prec Float.emax (2 ^ 53) (e + n) loc_Exact
                   = ({| shr_m := 2 ^ 52; shr_r := false; shr_s := false |},
                      e + n + 1)).
    { unfold shr_fexp. rewrite fexp_eq. change (Zdigits2 (2 ^ 53)) with 54.
      replace (Z.max (54 + (e + n) - 53) (-1074) - (e + n)) with 1 by lia.
      reflexivity. }
    rewrite Hshr. change (shr_m _) with (Zpos 4503599627370496).
    cbv beta iota. unfold Float.emax, Float.prec.
    destruct (Z.leb_spec (e + n + 1) (1024 - 53)); [|lia].
    split; [reflexivity|]. split; [lia|].
    replace (e + n + 1 - (e + n)) with 1 by lia.
    split; [reflexivity|]. split; [lia|reflexivity].
  - assert (Hd : Zdigits2 R = 53) by (apply Zdigits2_unique; lia).
    destruct R as [|p|p] eqn:HRp; try lia.
    exists p, (e + n).
    assert (Hshr : shr_fexp Float.prec Float.emax (Zpos p) (e + n) loc_Exact
                   = ({| shr_m := Zpos p; shr_r := false; shr_s := false |},
                      e + n)).
    { unfold shr_fexp. rewrite fexp_eq, Hd.
      replace (Z.max (53 + (e + n) - 53) (-1074) - (e + n)) with 0 by lia.
      reflexivity. }
    rewrite Hshr. cbv beta iota. simpl shr_m. unfold Float.emax, Float.prec.
    destruct (Z.leb_spec (e + n) (1024 - 53)); [|lia].
    split; [reflexivity|]. split; [lia|].
    rewrite Z.sub_diag. split; [lia|]. split; [lia|assumption].
Qed.

(** ** The quotient and the product of [_segment_duration] *)

Lemma iter_xO_value (p k : positive) :
  Zpos (Pos.iter xO p k) = Zpos p * 2 ^ Zpos k.
Proof.
  induction k as [|k IH] using Pos.peano_ind.
  - simpl. lia.
  - rewrite Pos.iter_succ, Pos2Z.inj_xO, IH, Pos2Z.inj_succ.
    rewrite Z.pow_succ_r by lia. lia.
Qed.

Lemma mantissa_value (p : positive) :
  Zpos (digits2_pos p) <= 53 ->
  Zpos (mantissa p) = Zpos p * 2 ^ (53 - Zpos (digits2_pos p)).
Proof.
  intros Hd. unfold mantissa.
  destruct (53 - Zpos (digits2_pos p)) as [|k|k] eqn:Hk; try lia.
  apply iter_xO_value.
Qed.

Lemma div_eucl_div_mod (a b : Z) : Z.div_eucl a b = (a / b, a mod b).
Proof. unfold Z.div, Z.modulo. by destruct (Z.div_eucl a b). Qed.

Lemma abs_error_cancel (A X B P : Z) :
  0 < P ->
  Z.abs (2 * (A * P - X * (B * P))) <= B * P ->
  Z.abs (2 * (A - X * B)) <= B.
Proof. intros HP H. nia. Qed.

(** The quotient of two lengths [se <= te]: a number [X / 2^w] of 53
    digits within half a unit of [se / te]. *)
Lemma int_truediv_nearest (se te : Z) :
  0 < se <= te -> te < 2 ^ 63 ->
  exists mx ex w X,
    Float.int_truediv se te = Ok (S754_finite false mx ex)
    /\ 52 <= w <= 116
    /\ 0 <= ex + w <= 1
    /\ Zpos mx * 2 ^ (ex + w) = X
    /\ 2 ^ 52 <= X <= 2 ^ 53
    /\ Zdigits2 (Zpos mx) = 53
    /\ Z.abs (2 * (se * 2 ^ w - X * te)) <= te.
Proof.
  intros Hse Hte. unfold Float.int_truediv.
  destruct (Z.eqb_spec te 0) as [|Hte0]; [lia|].
  destruct se as [|pa|pa]; try lia. destruct te as [|pb|pb]; try lia.
  unfold Float.exact, Float.div, SFdiv, SFdiv_core_binary.
  rewrite !Z.sub_0_r, !Z.add_0_r, fexp_eq.
  pose proof (Zdigits2_bounds (Zpos pa) ltac:(lia)) as Ha.
  pose proof (Zdigits2_bounds (Zpos pb) ltac:(lia)) as Hb.
  pose proof (Zdigits2_mono (Zpos pa) (Zpos pb) ltac:(lia)) as Hab.
  pose proof (Zdigits2_lt_pow2 (Zpos pb) 63 ltac:(lia) ltac:(lia)) as Hb63.
  assert (Ha1 : 1 <= Zdigits2 (Zpos pa)) by (simpl; lia).
  set (da := Zdigits2 (Zpos pa)) in *. set (db := Zdigits2 (Zpos pb)) in *.
  replace (Z.min (Z.max (da - db - 53) (-1074)) 0) with (da - db - 53) by lia.
  set (s := db - da + 53).
  replace (0 - (da - db - 53)) with s by (unfold s; lia).
  assert (Hs : 53 <= s <= 115) by (unfold s; lia).
  destruct s as [|ps|ps] eqn:Hps; try lia. rewrite <- Hps in *.
  rewrite Z.shiftl_mul_pow2 by lia.
  set (N := Zpos pa * 2 ^ s). rewrite div_eucl_div_mod.
  assert (HN : 2 ^ 52 * Zpos pb <= N < 2 ^ 54 * Zpos pb).
  { unfold N.
    assert (H1 : 2 ^ (db + 52) <= Zpos pa * 2 ^ s).
    { replace (db + 52) with (da - 1 + s) by (unfold s; lia).
      rewrite Z.pow_add_r by lia.
      apply Z.mul_le_mono_nonneg_r; [apply Z.pow_nonneg|]; lia. }
    assert (H2 : Zpos pa * 2 ^ s < 2 ^ (db + 53)).
    { replace (db + 53) with (da + s) by (unfold s; lia).
      rewrite Z.pow_add_r by lia.
      apply Z.mul_lt_mono_pos_r; [apply Z.pow_pos_nonneg|]; lia. }
    rewrite (Z.add_comm db 52), Z.pow_add_r in H1 by lia.
    replace (db + 53) with (54 + (db - 1)) in H2 by lia.
    rewrite Z.pow_add_r in H2 by lia.
    assert (0 < 2 ^ 52) by lia. assert (0 < 2 ^ 54) by lia.
    split; [nia|nia]. }
  assert (Hq : 2 ^ 52 <= N / Zpos pb < 2 ^ 54).
  { split; [apply Z.div_le_lower_bound; lia|].
    apply Z.div_lt_upper_bound; lia. }
  assert (Hdq : 53 <= Zdigits2 (N / Zpos pb) <= 54).
  { pose proof (Zdigits2_mono (2 ^ 52) (N / Zpos pb) ltac:(lia)) as H1.
    pose proof (Zdigits2_lt_pow2 (N / Zpos pb) 54 ltac:(lia) ltac:(lia)).
    change (Zdigits2 (2 ^ 52)) with 53 in H1. lia. }
  destruct (binary_round_aux_nearest (xorb false false) (N / Zpos pb)
              (da - db - 53) (new_location (Zpos pb) (N mod Zpos pb))
              N (Zpos pb))
    as (mx & ex & -> & Hex & Hval & HX & Hdx); try lia.
  { apply encodes_new_location; lia. }
  set (n := Zdigits2 (N / Zpos pb) - 53) in *.
  exists mx, ex, (s - n), (Float.div_half_even N (Zpos pb * 2 ^ n)).
  split; [reflexivity|]. split; [lia|]. split; [unfold s; lia|].
  split; [rewrite <- Hval; f_equal; f_equal; unfold s; lia|].
  split; [assumption|]. split; [assumption|].
  pose proof (div_half_even_error N (Zpos pb * 2 ^ n) ltac:(lia)) as Herr.
  set (X := Float.div_half_even N (Zpos pb * 2 ^ n)) in *.
  assert (HNn : N = Zpos pa * 2 ^ (s - n) * 2 ^ n).
  { unfold N. rewrite <- Z.mul_assoc, <- Z.pow_add_r by lia.
    f_equal. f_equal. lia. }
  rewrite HNn in Herr.
  assert (Hpow : 0 < 2 ^ n) by (apply Z.pow_pos_nonneg; lia).
  by apply (abs_error_cancel _ _ _ (2 ^ n)).
Qed.

Lemma abs_error_rescale (A Y G C Pn H : Z) :
  0 < G -> 0 < C -> H * G = Pn * C ->
  Z.abs (2 * (A * G - Y * Pn)) <= Pn ->
  Z.abs (2 * (A * C - Y * H)) <= H.
Proof.
  intros HG HC Heq Herr.
  assert (Ht : 2 * (A * C - Y * H) * G = C * (2 * (A * G - Y * Pn))).
  { replace (2 * (A * C - Y * H) * G)
      with (2 * A * C * G - 2 * Y * (H * G)) by ring.
    rewrite Heq. ring. }
  apply (Z.mul_le_mono_pos_r _ _ G HG).
  rewrite <- (Z.abs_eq G) at 1 by lia.
  rewrite <- Z.abs_mul, Ht, Z.abs_mul, (Z.abs_eq C), Heq by lia.
  rewrite (Z.mul_comm Pn C). apply Z.mul_le_mono_nonneg_l; lia.
Qed.

(** The product of a duration [d] and of a quotient [X / 2^w]: a number
    [Y * 2^h / 2^w] of 53 digits within half a unit of [d * X / 2^w]. *)
Lemma mul_nearest (d mx : positive) (ex w X : Z) :
  Zpos d < 2 ^ 52 ->
  52 <= w <= 116 ->
  0 <= ex + w <= 1 ->
  Zpos mx * 2 ^ (ex + w) = X ->
  Zdigits2 (Zpos mx) = 53 ->
  exists my ey h Y,
    Float.mul (Float.of_int (Zpos d)) (S754_finite false mx ex)
    = S754_finite false my ey
    /\ 0 <= h
    /\ h - w <= ey <= h - w + 1
    /\ Zpos my * 2 ^ (ey - (h - w)) = Y
    /\ 2 ^ 52 <= Y <= 2 ^ 53
    /\ Z.abs (2 * (Zpos d * X - Y * 2 ^ h)) <= 2 ^ h.
Proof.
  intros Hd Hw Hc HX Hdx.
  assert (Hdd : Zpos (digits2_pos d) <= 52) by (apply digits_le; lia).
  rewrite of_int_exact by lia.
  pose proof (mantissa_digits d ltac:(lia)) as HdM.
  pose proof (mantissa_value d ltac:(lia)) as HM.
  set (g := 53 - Zpos (digits2_pos d)) in *.
  replace (Zpos (digits2_pos d) - 53) with (- g) by (unfold g; lia).
  assert (Hg : 1 <= g <= 52) by (unfold g; lia).
  unfold Float.mul, SFmul. rewrite Pos2Z.inj_mul.
  set (M := mantissa d) in *.
  pose proof (Zdigits2_mul (Zpos M) (Zpos mx) ltac:(lia) ltac:(lia)) as Hup.
  assert (Hlow : Zdigits2 (Zpos M) + Zdigits2 (Zpos mx) - 1
                 <= Zdigits2 (Zpos M * Zpos mx)).
  { rewrite !Zdigits2_log2 by lia.
    pose proof (Z.log2_mul_below (Zpos M) (Zpos mx) ltac:(lia) ltac:(lia)).
    lia. }
  change (Zdigits2 (Zpos M)) with (Zpos (digits2_pos M)) in Hup, Hlow.
  rewrite HdM, Hdx in Hup, Hlow.
  destruct (binary_round_aux_nearest (xorb false false) (Zpos M * Zpos mx)
              (- g + ex) loc_Exact (Zpos M * Zpos mx) 1)
    as (my & ey & -> & Hey & Hval & HY & _); try lia.
  { apply encodes_exact. }
  set (n := Zdigits2 (Zpos M * Zpos mx) - 53) in *.
  exists my, ey, (n + (ex + w) - g),
    (Float.div_half_even (Zpos M * Zpos mx) (1 * 2 ^ n)).
  split; [reflexivity|]. split; [lia|]. split; [lia|].
  split; [rewrite <- Hval; f_equal; f_equal; lia|]. split; [assumption|].
  pose proof (div_half_even_error (Zpos M * Zpos mx) (1 * 2 ^ n)) as Herr.
  set (Y := Float.div_half_even (Zpos M * Zpos mx) (1 * 2 ^ n)) in *.
  clearbody Y. rewrite Z.mul_1_l in Herr.
  assert (Hpn : 0 < 2 ^ n) by (apply Z.pow_pos_nonneg; lia).
  specialize (Herr Hpn). rewrite HM in Herr. rewrite <- HX.
  replace (Zpos d * 2 ^ g * Zpos mx) with (Zpos d * Zpos mx * 2 ^ g) in Herr
    by lia.
  replace (Zpos d * (Zpos mx * 2 ^ (ex + w)))
    with (Zpos d * Zpos mx * 2 ^ (ex + w)) by lia.
  apply (abs_error_rescale _ _ (2 ^ g) _ (2 ^ n)); try assumption.
  - apply Z.pow_pos_nonneg; lia.
  - apply Z.pow_pos_nonneg; lia.
  - rewrite <- !Z.pow_add_r by lia. f_equal. lia.
Qed.

(** ** [_segment_duration] and the exact quotient *)

(** The two roundings of the code keep the result [Y * H / W] within
    less than [1 / (2 * te)] of the exact quotient [d * se / te]. *)
Lemma product_error (d se te W X H Y : Z) :
  0 < d -> 0 < se <= te -> 3 * d * te < 2 ^ 52 -> 2 ^ 52 <= W -> 0 < H ->
  2 ^ 52 <= X <= 2 ^ 53 -> 2 ^ 52 <= Y <= 2 ^ 53 ->
  Z.abs (2 * (se * W - X * te)) <= te ->
  Z.abs (2 * (d * X - Y * H)) <= H ->
  Z.abs (2 * (d * se * W - te * (Y * H))) < W.
Proof.
  change (2 ^ 52) with 4503599627370496.
  change (2 ^ 53) with 9007199254740992.
  intros Hd Hse Hsmall HW HH HX HY Hu Hv.
  assert (HH2 : H <= 2 * d).
  { destruct (Z.le_gt_cases H (2 * d)) as [|Hgt]; [assumption|exfalso].
    assert (2 * Y * H - 2 * d * X <= H) by lia.
    assert (9007199254740991 * H <= 2 * d * 9007199254740992) by nia.
    nia. }
  set (u := 2 * (se * W - X * te)) in *.
  set (v := 2 * (d * X - Y * H)) in *.
  replace (2 * (d * se * W - te * (Y * H))) with (d * u + te * v)
    by (unfold u, v; ring).
  assert (Z.abs (d * u) <= d * te) by (rewrite Z.abs_mul; nia).
  assert (Z.abs (te * v) <= te * (2 * d)) by (rewrite Z.abs_mul; nia).
  lia.
Qed.

(** The integer nearest to the exact quotient, when there is one, is
    also the integer nearest to the result. *)
Lemma nearest_agree (d se te W H Y k : Z) :
  0 < te -> 0 < W ->
  Z.abs (2 * (d * se * W - te * (Y * H))) < W ->
  Z.abs (2 * (d * se - k * te)) < te ->
  Z.abs (2 * (Y * H - k * W)) < W.
Proof.
  intros Hte HW Herr Ht.
  set (e := 2 * (d * se * W - te * (Y * H))) in *.
  set (t := 2 * (d * se - k * te)) in *.
  assert (Hz : te * (2 * (Y * H - k * W)) = W * t - e)
    by (unfold e, t; ring).
  apply (Z.mul_lt_mono_pos_l te); [lia|].
  rewrite <- (Z.abs_eq te) at 1 by lia.
  rewrite <- Z.abs_mul, Hz.
  assert (Z.abs (W * t) <= W * (te - 1)) by (rewrite Z.abs_mul; nia).
  lia.
Qed.

(** When the exact quotient is halfway between [q] and [q + 1], the
    result lies between them. *)
Lemma halfway_between (a te W Yn q : Z) :
  0 < te -> 0 < W ->
  Z.abs (2 * (a * W - te * Yn)) < W ->
  2 * a = (2 * q + 1) * te ->
  q * W <= Yn <= (q + 1) * W.
Proof.
  intros Hte HW Herr Ha.
  replace (2 * (a * W - te * Yn)) with (te * ((2 * q + 1) * W - 2 * Yn))
    in Herr by (replace (2 * (a * W - te * Yn))
                  with (2 * a * W - 2 * te * Yn) by ring; rewrite Ha; ring).
  rewrite Z.abs_mul, (Z.abs_eq te) in Herr by lia.
  assert (Z.abs ((2 * q + 1) * W - 2 * Yn) < W) by nia.
  lia.
Qed.

Lemma round_nearest (my : positive) (ey w h Y k : Z) :
  0 <= h -> 0 <= w ->
  h - w <= ey <= h - w + 1 ->
  Zpos my * 2 ^ (ey - (h - w)) = Y ->
  Z.abs (2 * (Y * 2 ^ h - k * 2 ^ w)) < 2 ^ w ->
  Float.round (S754_finite false my ey) = Ok k.
Proof.
  intros Hh Hw Hey HY Hk. subst Y. unfold Float.round. f_equal.
  rewrite <- Z.mul_assoc, <- Z.pow_add_r in Hk by lia.
  destruct ey as [|p|p].
  - replace (0 - (h - w) + h) with w in Hk by lia. rewrite Z.mul_1_r.
    assert (0 < 2 ^ w) by (apply Z.pow_pos_nonneg; lia). nia.
  - replace (Zpos p - (h - w) + h) with (Zpos p + w) in Hk by lia.
    rewrite Z.pow_add_r in Hk by lia.
    assert (0 < 2 ^ w) by (apply Z.pow_pos_nonneg; lia).
    assert (0 < 2 ^ Zpos p) by (apply Z.pow_pos_nonneg; lia). nia.
  - apply div_half_even_unique; [apply Z.pow_pos_nonneg; lia|].
    set (c := Zneg p - (h - w) + h) in *.
    replace w with (c + Zpos p) in Hk by (unfold c; lia).
    rewrite Z.pow_add_r in Hk by (unfold c; lia).
    assert (0 < 2 ^ c) by (apply Z.pow_pos_nonneg; unfold c; lia).
    assert (0 < 2 ^ Zpos p) by (apply Z.pow_pos_nonneg; lia).
    generalize dependent (2 ^ c). generalize dependent (2 ^ Zpos p).
    intros Pp HPp Pc Hk HPc. nia.
Qed.

Lemma round_between (my : positive) (ey w h Y q : Z) :
  0 <= h -> 0 <= w ->
  h - w <= ey <= h - w + 1 ->
  Zpos my * 2 ^ (ey - (h - w)) = Y ->
  q * 2 ^ w <= Y * 2 ^ h <= (q + 1) * 2 ^ w ->
  exists rounded,
    Float.round (S754_finite false my ey) = Ok rounded
    /\ q <= rounded <= q + 1.
Proof.
  intros Hh Hw Hey HY Hq. subst Y. unfold Float.round.
  rewrite <- Z.mul_assoc, <- Z.pow_add_r in Hq by lia.
  eexists. split; [reflexivity|].
  destruct ey as [|p|p].
  - replace (0 - (h - w) + h) with w in Hq by lia. rewrite Z.mul_1_r.
    assert (0 < 2 ^ w) by (apply Z.pow_pos_nonneg; lia). nia.
  - replace (Zpos p - (h - w) + h) with (Zpos p + w) in Hq by lia.
    rewrite Z.pow_add_r in Hq by lia.
    assert (0 < 2 ^ w) by (apply Z.pow_pos_nonneg; lia).
    assert (0 < 2 ^ Zpos p) by (apply Z.pow_pos_nonneg; lia). nia.
  - set (c := Zneg p - (h - w) + h) in *.
    replace w with (c + Zpos p) in Hq by (unfold c; lia).
    rewrite Z.pow_add_r in Hq by (unfold c; lia).
    assert (HPc : 0 < 2 ^ c) by (apply Z.pow_pos_nonneg; unfold c; lia).
    assert (HPp : 0 < 2 ^ Zpos p) by (apply Z.pow_pos_nonneg; lia).
    pose proof (div_half_even_bounds (Zpos my) (2 ^ Zpos p) HPp) as Hb.
    assert (Hmy : q * 2 ^ Zpos p <= Zpos my <= (q + 1) * 2 ^ Zpos p) by nia.
    destruct (Z.eq_dec (Zpos my) ((q + 1) * 2 ^ Zpos p)) as [Heq|Hne].
    + rewrite Heq. unfold Float.div_half_even.
      rewrite Z.div_mul, Z.mod_mul by lia.
      destruct (Z.compare_spec (2 * 0) (2 ^ Zpos p)); lia.
    + assert (Zpos my / 2 ^ Zpos p = q); [|lia].
      symmetry. apply Z.div_unique with (r := Zpos my - q * 2 ^ Zpos p); lia.
Qed.

Lemma div_half_even_strict (N D : Z) :
  0 < D -> 2 * (N mod D) <> D ->
  Z.abs (2 * (N - Float.div_half_even N D * D)) < D.
Proof.
  intros HD Htie. unfold Float.div_half_even.
  pose proof (Z.div_mod N D ltac:(lia)) as Hdiv.
  pose proof (Z.mod_pos_bound N D HD) as Hmod.
  destruct (Z.compare_spec (2 * (N mod D)) D); [lia|nia|nia].
Qed.

(** The float computation of the code gives the rounding of the exact
    quotient whenever that quotient is not halfway between two integers,
    and one of the two nearest integers when it is. *)
Lemma round_product_exact (d se te : Z) :
  0 <= d -> 0 < se <= te -> 3 * d * te < 2 ^ 52 -> te < 2 ^ 63 ->
  exists fraction duration rounded,
    Float.int_truediv se te = Ok fraction
    /\ Float.of_int_checked d = Ok duration
    /\ Float.round (Float.mul duration fraction) = Ok rounded
    /\ (2 * ((d * se) mod te) <> te ->
        rounded = Float.div_half_even (d * se) te)
    /\ (d * se) / te <= rounded <= (d * se) / te + 1.
Proof.
  intros Hd Hse Hsmall Hte.
  destruct (int_truediv_nearest se te Hse Hte)
    as (mx & ex & w & X & -> & Hw & Hc & HX & HXb & Hdx & Herr).
  exists (S754_finite false mx ex).
  destruct d as [|d|d]; [| |lia].
  - exists (S754_zero false), 0.
    split; [reflexivity|]. split; [reflexivity|]. split; [reflexivity|].
    simpl. unfold Float.div_half_even.
    rewrite Z.div_0_l, Z.mod_0_l by lia.
    split; [|lia]. by destruct (Z.compare_spec (2 * 0) te); [lia| |lia].
  - assert (Hd52 : Zpos d < 2 ^ 52) by nia.
    destruct (mul_nearest d mx ex w X Hd52 Hw Hc HX Hdx)
      as (my & ey & h & Y & Hmul & Hh & Hey & HY & HYb & Herr').
    assert (HW : 2 ^ 52 <= 2 ^ w) by (apply Z.pow_le_mono_r; lia).
    assert (HH : 0 < 2 ^ h) by (apply Z.pow_pos_nonneg; lia).
    pose proof (product_error (Zpos d) se te (2 ^ w) X (2 ^ h) Y
                  ltac:(lia) Hse Hsmall HW HH HXb HYb Herr Herr') as Hprod.
    assert (Hduration : Float.of_int_checked (Zpos d)
                        = Ok (Float.of_int (Zpos d))).
    { unfold Float.of_int_checked. rewrite of_int_exact; [reflexivity|].
      apply digits_le; lia. }
    pose proof (Z.div_mod (Zpos d * se) te ltac:(lia)) as Hdiv.
    pose proof (Z.mod_pos_bound (Zpos d * se) te ltac:(lia)) as Hmod.
    destruct (Z.eq_dec (2 * ((Zpos d * se) mod te)) te) as [Htie|Htie].
    + destruct (round_between my ey w h Y ((Zpos d * se) / te))
        as (rounded & Hrounded & Hbetween); try lia.
      { apply (halfway_between (Zpos d * se) te); lia. }
      exists (Float.of_int (Zpos d)), rounded. rewrite Hmul.
      split; [reflexivity|]. split; [assumption|]. split; [assumption|].
      split; [intros Hne; contradiction|assumption].
    + exists (Float.of_int (Zpos d)),
        (Float.div_half_even (Zpos d * se) te).
      rewrite Hmul. split; [reflexivity|]. split; [assumption|].
      split; [|split; [reflexivity|by apply div_half_even_bounds; lia]].
      apply (round_nearest my ey w h Y); try lia.
      apply (nearest_agree (Zpos d) se te); try lia.
      apply div_half_even_strict; [lia|assumption].
Qed.

(** C5, amended: for a duration that is not negative and small enough
    that three times its product with the number of edges stays below
    2^52, the segment duration of a leg from index [start_idx] to a later
    index [end_idx] is the larger of 5 and one of the two integers next
    to the exact quotient
    [duration_minutes * (end_idx - start_idx) / (len(stops) - 1)], and
    it is [max(5, round(...))] of the exact quotient whenever that
    quotient is not halfway between two integers. *)
Theorem segment_duration_exact_off_ties (route : RouteRow)
    (start_idx end_idx : nat) :
  (start_idx < end_idx < length (stops route))%nat ->
  0 <= duration_minutes route ->
  3 * duration_minutes route * (Z.of_nat (length (stops route)) - 1) < 2 ^ 52 ->
  Z.of_nat (length (stops route)) < 2 ^ 63 ->
  exists rounded,
    _segment_duration route (Z.of_nat start_idx) (Z.of_nat end_idx)
    = Ok (Z.max 5 rounded)
    /\ duration_minutes route * (Z.of_nat end_idx - Z.of_nat start_idx)
       / (Z.of_nat (length (stops route)) - 1)
       <= rounded
       <= duration_minutes route * (Z.of_nat end_idx - Z.of_nat start_idx)
          / (Z.of_nat (length (stops route)) - 1) + 1
    /\ (2 * ((duration_minutes route
              * (Z.of_nat end_idx - Z.of_nat start_idx))
             mod (Z.of_nat (length (stops route)) - 1))
        <> Z.of_nat (length (stops route)) - 1 ->
        _segment_duration route (Z.of_nat start_idx) (Z.of_nat end_idx)
        = Ok (segment_duration_exact route (Z.of_nat start_idx)
                (Z.of_nat end_idx))).
Proof.
  intros Hleg Hduration Hsmall Hlen.
  unfold _segment_duration, segment_duration_exact.
  rewrite !Z.max_r by lia.
  destruct (round_product_exact (duration_minutes route)
              (Z.of_nat end_idx - Z.of_nat start_idx)
              (Z.of_nat (length (stops route)) - 1))
    as (fraction & duration & rounded & -> & -> & Hrounded & Hexact & Hnear);
    [lia..|].
  exists rounded. cbn [rbind]. rewrite Hrounded. cbn [rbind].
  split; [reflexivity|]. split; [assumption|].
  intros Htie. by rewrite (Hexact Htie).
Qed.

(** * Further properties *)

(** ** Strings *)

Lemma string_app_cons (c : ascii) (s t : string) :
  String c s +:+ t = String c (s +:+ t).
Proof. reflexivity. Qed.

Lemma string_app_empty_r (s : string) : s +:+ "" = s.
Proof. induction s as [|c s IH]; [reflexivity|]. by rewrite string_app_cons, IH. Qed.

Lemma string_app_assoc (s t u : string) : (s +:+ t) +:+ u = s +:+ (t +:+ u).
Proof.
  induction s as [|c s IH]; [reflexivity|]. by rewrite !string_app_cons, IH.
Qed.

Lemma string_rev_app_app (s t : string) :
  String.rev_app s t = String.rev s +:+ t.
Proof.
  unfold String.rev. revert t.
  induction s as [|c s IH]; intros t; simpl; [reflexivity|].
  rewrite (IH (String c t)), (IH (String c "")).
  by rewrite string_app_assoc.
Qed.

Lemma string_rev_append (s t : string) :
  String.rev (s +:+ t) = String.rev t +:+ String.rev s.
Proof.
  induction s as [|c s IH].
  - by rewrite string_app_empty_r.
  - rewrite string_app_cons. unfold String.rev at 1 3. simpl.
    rewrite !string_rev_app_app, IH. by rewrite string_app_assoc.
Qed.

Lemma string_rev_rev (s : string) : String.rev (String.rev s) = s.
Proof.
  induction s as [|c s IH]; [reflexivity|].
  unfold String.rev at 2. simpl. rewrite string_rev_app_app, string_rev_append, IH.
  reflexivity.
Qed.

Lemma string_rev_empty (s : string) : String.rev s = "" -> s = "".
Proof. intros H. by rewrite <- (string_rev_rev s), H. Qed.

Lemma all_chars_app (P : ascii -> bool) (s t : string) :
  all_chars P (s +:+ t) = all_chars P s && all_chars P t.
Proof.
  induction s as [|c s IH]; [reflexivity|].
  rewrite string_app_cons. simpl. by rewrite IH, andb_assoc.
Qed.

Lemma all_chars_rev (P : ascii -> bool) (s : string) :
  all_chars P (String.rev s) = all_chars P s.
Proof.
  induction s as [|c s IH]; [reflexivity|].
  unfold String.rev. simpl. rewrite string_rev_app_app, all_chars_app, IH. simpl.
  by rewrite andb_true_r, andb_comm.
Qed.

(** ** [strip], [lower], [split] and [join] *)

Lemma lstrip_blank (s : string) :
  exists spaces, blank spaces = true /\ s = spaces +:+ Py.lstrip s.
Proof.
  induction s as [|c s (spaces & Hblank & IH)].
  - by exists "".
  - simpl. destruct (Py.isspace c) eqn:Hc.
    + exists (String c spaces). split.
      * unfold blank. simpl. by rewrite Hc.
      * by rewrite string_app_cons, <- IH.
    + by exists "".
Qed.

Lemma rstrip_blank (s : string) :
  exists spaces, blank spaces = true /\ s = Py.rstrip s +:+ spaces.
Proof.
  destruct (lstrip_blank (String.rev s)) as (spaces & Hblank & Hs).
  exists (String.rev spaces). split.
  - unfold blank. by rewrite all_chars_rev.
  - unfold Py.rstrip. by rewrite <- string_rev_append, <- Hs, string_rev_rev.
Qed.

Lemma split_go_blank (cur s : string) :
  blank s = true -> Py.split_go cur s = Py.split_go cur "".
Proof.
  revert cur. induction s as [|c s IH]; intros cur; [reflexivity|].
  unfold blank. simpl. intros [Hc Hs]%andb_true_iff. rewrite Hc.
  destruct cur; rewrite (IH "" Hs); reflexivity.
Qed.

Lemma split_go_app_blank (cur s spaces : string) :
  blank spaces = true ->
  Py.split_go cur (s +:+ spaces) = Py.split_go cur s.
Proof.
  intros Hblank. revert cur.
  induction s as [|c s IH]; intros cur.
  - by apply split_go_blank.
  - rewrite string_app_cons. simpl. by rewrite !IH.
Qed.

Lemma split_lstrip (s : string) : Py.split (Py.lstrip s) = Py.split s.
Proof.
  unfold Py.split. induction s as [|c s IH]; [reflexivity|].
  simpl. destruct (Py.isspace c) eqn:Hc; [assumption|].
  simpl. by rewrite Hc.
Qed.

Lemma split_strip (s : string) : Py.split (Py.strip s) = Py.split s.
Proof.
  unfold Py.strip.
  destruct (rstrip_blank (Py.lstrip s)) as (spaces & Hblank & Hs).
  rewrite <- (split_lstrip s). rewrite Hs at 2.
  unfold Py.split. by rewrite split_go_app_blank.
Qed.

Lemma isspace_lower_char (c : ascii) :
  Py.isspace (Py.lower_char c) = Py.isspace c.
Proof. by destruct c as [[] [] [] [] [] [] [] []]. Qed.

Lemma lower_char_lower_char (c : ascii) :
  Py.lower_char (Py.lower_char c) = Py.lower_char c.
Proof. by destruct c as [[] [] [] [] [] [] [] []]. Qed.

Lemma lower_lower (s : string) : Py.lower (Py.lower s) = Py.lower s.
Proof.
  induction s as [|c s IH]; [reflexivity|].
  simpl. by rewrite lower_char_lower_char, IH.
Qed.

Lemma lower_app (s t : string) :
  Py.lower (s +:+ t) = Py.lower s +:+ Py.lower t.
Proof.
  induction s as [|c s IH]; [reflexivity|].
  rewrite string_app_cons. simpl. by rewrite IH.
Qed.

Lemma lower_rev (s : string) :
  Py.lower (String.rev s) = String.rev (Py.lower s).
Proof.
  induction s as [|c s IH]; [reflexivity|].
  unfold String.rev. simpl. rewrite !string_rev_app_app, lower_app, IH.
  reflexivity.
Qed.

Lemma split_go_lower (cur s : string) :
  Py.split_go (Py.lower cur) (Py.lower s)
  = Py.lower <$> Py.split_go cur s.
Proof.
  revert cur. induction s as [|c s IH]; intros cur; simpl.
  - destruct cur; simpl; [reflexivity|].
    by rewrite lower_rev.
  - rewrite isspace_lower_char. destruct (Py.isspace c).
    + destruct cur; simpl.
      * apply (IH "").
      * rewrite lower_rev. f_equal. apply (IH "").
    + apply (IH (String c cur)).
Qed.

Lemma split_lower (s : string) :
  Py.split (Py.lower s) = Py.lower <$> Py.split s.
Proof. apply (split_go_lower "" s). Qed.

Lemma word_rev (cur : string) :
  word cur = true -> word (String.rev cur) = true.
Proof.
  unfold word. intros [Hne Hall]%andb_true_iff.
  rewrite all_chars_rev, Hall, andb_true_r.
  destruct (String.rev cur) eqn:Hrev; [|reflexivity].
  apply string_rev_empty in Hrev. by subst cur.
Qed.

Lemma split_go_words (cur s : string) :
  all_chars (fun c => negb (Py.isspace c)) cur = true ->
  Forall (fun w => word w = true) (Py.split_go cur s).
Proof.
  revert cur. induction s as [|c s IH]; intros cur Hcur; simpl.
  - destruct cur as [|c' cur]; [constructor|].
    constructor; [|constructor]. apply word_rev. unfold word. by rewrite Hcur.
  - destruct (Py.isspace c) eqn:Hc.
    + destruct cur as [|c' cur]; [by apply IH|].
      constructor; [|by apply IH].
      apply word_rev. unfold word. by rewrite Hcur.
    + apply IH. simpl. by rewrite Hc.
Qed.

Lemma split_words (s : string) :
  Forall (fun w => word w = true) (Py.split s).
Proof. by apply split_go_words. Qed.

Lemma word_lower (w : string) : word w = true -> word (Py.lower w) = true.
Proof.
  unfold word. intros [Hne Hall]%andb_true_iff.
  apply andb_true_iff. split; [by destruct w|].
  clear Hne. induction w as [|c w IH]; [reflexivity|].
  simpl in *. apply andb_true_iff in Hall as [Hc Hw].
  by rewrite isspace_lower_char, Hc, IH.
Qed.

Lemma split_go_word (cur w rest : string) :
  all_chars (fun c => negb (Py.isspace c)) w = true ->
  Py.split_go cur (w +:+ rest) = Py.split_go (String.rev_app w cur) rest.
Proof.
  revert cur. induction w as [|c w IH]; intros cur; [reflexivity|].
  rewrite string_app_cons. simpl. intros [Hc Hw]%andb_true_iff.
  apply negb_true_iff in Hc. rewrite Hc. by apply IH.
Qed.

Lemma split_join (ws : list string) :
  Forall (fun w => word w = true) ws -> Py.split (Py.join " " ws) = ws.
Proof.
  unfold Py.split.
  induction ws as [|w ws IH]; intros Hws; [reflexivity|].
  apply Forall_cons in Hws as [Hw Hws].
  pose proof Hw as [Hne Hall]%andb_true_iff.
  assert (Hrev : String.rev (String.rev_app w "") = w) by apply string_rev_rev.
  assert (Hcur : String.rev_app w "" <> "").
  { intros Hempty. apply string_rev_empty in Hempty. by subst w. }
  destruct ws as [|w' ws].
  - replace (Py.join " " [w]) with (w +:+ "") by apply string_app_empty_r.
    rewrite split_go_word by assumption.
    simpl. destruct (String.rev_app w "") eqn:Hw'; [done|].
    by rewrite Hrev.
  - change (Py.join " " (w :: w' :: ws))
      with (w +:+ String " " (Py.join " " (w' :: ws))).
    rewrite split_go_word by assumption.
    change (Py.split_go ?cur (String " " ?s))
      with (match cur with
            | "" => Py.split_go "" s
            | _ => String.rev cur :: Py.split_go "" s
            end).
    destruct (String.rev_app w "") eqn:Hw'; [done|].
    rewrite Hrev. f_equal. by apply IH.
Qed.

(** ** [_normalize] *)

Lemma _normalize_words (s : string) :
  _normalize s = Py.join " " (Py.lower <$> Py.split s).
Proof.
  unfold _normalize. by rewrite split_lower, split_strip.
Qed.

Lemma split_normalize (s : string) :
  Py.split (_normalize s) = Py.lower <$> Py.split s.
Proof.
  rewrite _normalize_words. apply split_join.
  apply Forall_fmap. eapply Forall_impl; [apply split_words|].
  intros w. apply word_lower.
Qed.

Lemma _normalize_normalize (s : string) :
  _normalize (_normalize s) = _normalize s.
Proof.
  rewrite (_normalize_words (_normalize s)), split_normalize.
  rewrite _normalize_words, <- list_fmap_compose. f_equal.
  apply list_fmap_ext. intros _ w _. apply lower_lower.
Qed.

Lemma split_nil (cur s : string) :
  Py.split_go cur s = [] <-> cur = "" /\ blank s = true.
Proof.
  revert cur. induction s as [|c s IH]; intros cur; simpl.
  - destruct cur; split; try done. by intros [??].
  - unfold blank. simpl. destruct (Py.isspace c); simpl.
    + destruct cur; [apply IH|]. split; [done|]. by intros [??].
    + rewrite IH. split; [by intros [??]|by intros [??]].
Qed.

Lemma join_empty (ws : list string) :
  Forall (fun w => word w = true) ws -> Py.join " " ws = "" -> ws = [].
Proof.
  destruct ws as [|w ws]; [done|].
  intros [Hw _]%Forall_cons.
  destruct w as [|c w]; [done|]. by destruct ws.
Qed.

Lemma _normalize_empty (s : string) : _normalize s = "" <-> blank s = true.
Proof.
  rewrite _normalize_words. split.
  - intros H. apply join_empty in H.
    + apply fmap_nil_inv in H. by apply split_nil in H as [_ ?].
    + apply Forall_fmap. eapply Forall_impl; [apply split_words|].
      intros w. apply word_lower.
  - intros H. unfold Py.split.
    by rewrite (proj2 (split_nil "" s) (conj eq_refl H)).
Qed.

(** X1. Normalizing a stop name twice is the same as normalizing it
    once. *)
Theorem normalize_idempotent (value : string) :
  _normalize (_normalize value) = _normalize value.
Proof. apply _normalize_normalize. Qed.

(** X2. Two texts have the same normalized form exactly when they have
    the same words up to letter case, whatever the whitespace around and
    between the words. *)
Theorem normalize_same_words (value value' : string) :
  _normalize value = _normalize value'
  <-> Py.lower <$> Py.split value = Py.lower <$> Py.split value'.
Proof.
  split.
  - intros H. by rewrite <- !split_normalize, H.
  - intros H. by rewrite !_normalize_words, H.
Qed.

(** X3. The normalized form is empty exactly for the empty text and the
    texts made of whitespace only. *)
Theorem normalize_empty_iff_blank (value : string) :
  _normalize value = "" <-> blank value = true.
Proof. apply _normalize_empty. Qed.

(** ** [_clock_to_minutes] and [_parse_time] *)

Lemma digit_range (c : ascii) (d : Z) :
  Strptime.digit c = Some d -> 0 <= d <= 9.
Proof.
  unfold Strptime.digit.
  destruct (_ && _)%bool eqn:H; [|discriminate].
  intros [= <-]. apply andb_true_iff in H as [H1 H2].
  apply N.leb_le in H1, H2. lia.
Qed.

Lemma minute_range (s rest : string) (m : Z) :
  Strptime.minute s = Some (m, rest) -> 0 <= m <= 59.
Proof.
  unfold Strptime.minute.
  destruct s as [|c1 [|c2 s]].
  - discriminate.
  - destruct (Strptime.digit c1) as [d1|] eqn:H1; [|discriminate].
    apply digit_range in H1. intros [= <- <-]. lia.
  - destruct (Strptime.digit c1) as [d1|] eqn:H1; [|discriminate].
    apply digit_range in H1.
    destruct (Strptime.digit c2) as [d2|] eqn:H2.
    + apply digit_range in H2.
      destruct (Z.leb_spec d1 5); intros [= <- <-]; lia.
    + intros [= <- <-]. lia.
Qed.

Lemma colon_minute_range (s rest : string) (m : Z) :
  Strptime.colon_minute s = Some (m, rest) -> 0 <= m <= 59.
Proof.
  unfold Strptime.colon_minute.
  destruct s as [|c s]; [discriminate|].
  destruct (decide (c = ":"%char)) as [->|Hne].
  - apply minute_range.
  - destruct c as [[] [] [] [] [] [] [] []]; try discriminate. done.
Qed.

Lemma regex_match_range (s rest : string) (h m : Z) :
  Strptime.regex_match s = Some (h, m, rest) ->
  0 <= h <= 23 /\ 0 <= m <= 59.
Proof.
  unfold Strptime.regex_match.
  destruct (Strptime.hour_two s) as [[[h' m'] rest']|] eqn:Htwo.
  - intros [= -> -> ->]. unfold Strptime.hour_two in Htwo.
    destruct s as [|c1 [|c2 s]]; try discriminate.
    destruct (Strptime.digit c1) as [d1|] eqn:H1; [|discriminate].
    destruct (Strptime.digit c2) as [d2|] eqn:H2; [|discriminate].
    apply digit_range in H1, H2.
    destruct (_ || _)%bool eqn:Hh; [|discriminate].
    destruct (Strptime.colon_minute s) as [[m' rest']|] eqn:Hm;
      [|discriminate].
    apply colon_minute_range in Hm. injection Htwo as <- <- <-.
    split; [|assumption].
    apply orb_true_iff in Hh as [[Ha Hb]%andb_true_iff|Ha]; lia.
  - unfold Strptime.hour_one.
    destruct s as [|c1 s]; [discriminate|].
    destruct (Strptime.digit c1) as [d1|] eqn:H1; [|discriminate].
    apply digit_range in H1.
    destruct (Strptime.colon_minute s) as [[m' rest']|] eqn:Hm;
      [|discriminate].
    apply colon_minute_range in Hm. intros [= <- <- <-]. lia.
Qed.

Lemma _clock_to_minutes_range (hhmm : string) (minutes : Z) :
  _clock_to_minutes hhmm = Ok minutes -> 0 <= minutes <= 1439.
Proof.
  unfold _clock_to_minutes, Strptime.strptime.
  destruct (Strptime.regex_match hhmm) as [[[h m] rest]|] eqn:Hmatch;
    [|discriminate].
  apply regex_match_range in Hmatch.
  destruct rest; [|discriminate].
  simpl. intros [= <-]. lia.
Qed.

(** X4. A time that [_clock_to_minutes] accepts lies within one day:
    between 0 and 1439 minutes after midnight. *)
Theorem clock_to_minutes_within_day (hhmm : string) (minutes : Z) :
  _clock_to_minutes hhmm = Ok minutes -> 0 <= minutes <= 1439.
Proof. apply _clock_to_minutes_range. Qed.

Lemma clock_forms_ok_all :
  forallb (fun h => forallb (fun m => clock_forms_ok (Z.of_nat h) (Z.of_nat m))
                      (seq 0 60))
    (seq 0 24) = true.
Proof. vm_compute. reflexivity. Qed.

(** X5. Every hour below 24 and minute below 60, each written with two
    digits or, when below 10, with one, and joined by a colon, is read by
    [_clock_to_minutes] as [hour * 60 + minute]. *)
Theorem clock_forms_accepted (h m : Z) (hh mm : string) :
  0 <= h < 24 -> 0 <= m < 60 ->
  hh ∈ digit_forms h -> mm ∈ digit_forms m ->
  _clock_to_minutes (hh +:+ ":" +:+ mm) = Ok (h * 60 + m).
Proof.
  intros Hh Hm Hhh Hmm.
  pose proof clock_forms_ok_all as Hall.
  rewrite forallb_forall in Hall.
  specialize (Hall (Z.to_nat h)).
  rewrite forallb_forall in Hall.
  specialize (Hall ltac:(apply in_seq; lia) (Z.to_nat m)
                ltac:(apply in_seq; lia)).
  rewrite !Z2Nat.id in Hall by lia.
  unfold clock_forms_ok in Hall. rewrite forallb_forall in Hall.
  specialize (Hall hh ltac:(by apply list_elem_of_In)).
  rewrite forallb_forall in Hall.
  specialize (Hall mm ltac:(by apply list_elem_of_In)).
  destruct (_clock_to_minutes _) as [minutes|]; [|discriminate].
  apply Z.eqb_eq in Hall. by subst.
Qed.

(** ** The texts of a query *)

Lemma _resolve_stop_words (self : TransportAgent) (raw_stop raw_stop' : string) :
  Py.lower <$> Py.split raw_stop = Py.lower <$> Py.split raw_stop' ->
  _resolve_stop self raw_stop = _resolve_stop self raw_stop'.
Proof.
  intros H. unfold _resolve_stop. by rewrite !_normalize_words, H.
Qed.

(** X6. The queries do not see letter case or spacing: two stop texts
    with the same words up to case resolve alike, and [find_route] and
    [suggest_alternative] give the same result when, in addition, the two
    times differ by surrounding whitespace only. *)
Theorem queries_ignore_case_and_spacing (self : TransportAgent)
    (from_stop from_stop' to_stop to_stop' after_time after_time' : string) :
  Py.lower <$> Py.split from_stop = Py.lower <$> Py.split from_stop' ->
  Py.lower <$> Py.split to_stop = Py.lower <$> Py.split to_stop' ->
  Py.strip after_time = Py.strip after_time' ->
  _resolve_stop self from_stop = _resolve_stop self from_stop'
  /\ find_route self from_stop to_stop after_time
     = find_route self from_stop' to_stop' after_time'
  /\ suggest_alternative self from_stop to_stop after_time
     = suggest_alternative self from_stop' to_stop' after_time'.
Proof.
  intros Hfrom Hto Htime.
  apply (_resolve_stop_words self) in Hfrom, Hto.
  split; [assumption|].
  unfold find_route, suggest_alternative, _parse_time.
  by rewrite Hfrom, Hto, Htime.
Qed.

(** ** The stops that [_build_stop_list] keeps *)

Lemma fold_left_mjoin {A B C : Type} (f : B -> A -> B) (g : C -> list A)
    (l : list C) (acc : B) :
  fold_left (fun acc x => fold_left f (g x) acc) l acc
  = fold_left f (mjoin (g <$> l)) acc.
Proof.
  revert acc. induction l as [|x l IH]; intros acc; simpl; [reflexivity|].
  by rewrite fold_left_app, IH.
Qed.

Lemma first_seen_app (l : list string) (x : string) (i : nat) (stop : string) :
  first_seen l i stop -> first_seen (l ++ [x]) i stop.
Proof.
  intros [Hi Hfirst].
  pose proof (lookup_lt_Some _ _ _ Hi) as Hlt.
  split.
  - by rewrite lookup_app_l.
  - intros k other Hk Hother. apply (Hfirst k other Hk).
    by rewrite lookup_app_l in Hother by lia.
Qed.

Lemma stop_list_loop (l : list string) :
  stop_list_seen l
    (fold_left
       (fun '(ordered, seen) stop =>
          let key := _normalize stop in
          if decide (key ∈ (seen : gset string)) then (ordered, seen)
          else (ordered ++ [stop], seen ∪ {[key]}))
       l ([], ∅)).
Proof.
  induction l as [|x l IH] using rev_ind.
  - split; [|split; [|split]]; simpl.
    + intros key. split; intros H; [by apply not_elem_of_empty in H|].
      inversion H.
    + done.
    + done.
    + intros stop H. inversion H.
  - rewrite fold_left_app. simpl.
    destruct (fold_left _ l _) as [ordered seen].
    destruct IH as (Hseen & Hcover & Hsub & Hfirst). simpl in *.
    destruct (decide (_normalize x ∈ seen)) as [Hin|Hnotin];
      (split; [|split; [|split]]); simpl.
    + intros key. rewrite fmap_app, elem_of_app, Hseen. simpl.
      rewrite list_elem_of_singleton. split; [by left|].
      intros [H| ->]; [assumption|]. by apply Hseen.
    + intros key. rewrite fmap_app. intros [H|H]%elem_of_app.
      * by apply Hcover.
      * apply list_elem_of_singleton in H as ->. by apply Hcover, Hseen.
    + by apply sublist_inserts_r.
    + intros stop Hstop. destruct (Hfirst stop Hstop) as [i Hi].
      exists i. by apply first_seen_app.
    + intros key. rewrite fmap_app, elem_of_union, elem_of_app, Hseen.
      simpl. by rewrite elem_of_singleton, list_elem_of_singleton.
    + intros key. rewrite !fmap_app. intros [H|H]%elem_of_app;
        apply elem_of_app; [left; by apply Hcover|by right].
    + by apply sublist_app.
    + intros stop [Hstop|Hstop]%elem_of_app.
      * destruct (Hfirst stop Hstop) as [i Hi].
        exists i. by apply first_seen_app.
      * apply list_elem_of_singleton in Hstop as ->.
        exists (length l). split.
        -- by rewrite lookup_app_r, Nat.sub_diag by lia.
        -- intros k other Hk Hother Heq.
           rewrite lookup_app_l in Hother by lia.
           apply Hnotin, Hseen. rewrite <- Heq.
           apply list_elem_of_fmap. exists other. split; [reflexivity|].
           by eapply list_elem_of_lookup_2.
Qed.

Lemma _build_stop_list_seen (routes : list RouteRow) :
  exists seen,
    stop_list_seen (all_stops routes) (_build_stop_list routes, seen).
Proof.
  unfold _build_stop_list, all_stops.
  rewrite (fold_left_mjoin
             (fun '(ordered, seen) stop =>
                let key := _normalize stop in
                if decide (key ∈ (seen : gset string)) then (ordered, seen)
                else (ordered ++ [stop], seen ∪ {[key]}))
             stops).
  pose proof (stop_list_loop (mjoin (stops <$> routes))) as H.
  destruct (fold_left _ _ _) as [ordered seen]. by exists seen.
Qed.

Lemma all_stops_elem (routes : list RouteRow) (stop : string) :
  stop ∈ all_stops routes
  <-> exists route, route ∈ routes /\ stop ∈ stops route.
Proof.
  unfold all_stops. rewrite list_elem_of_join. split.
  - intros (l & Hstop & Hl). apply list_elem_of_fmap in Hl as (route & -> & Hroute).
    by exists route.
  - intros (route & Hroute & Hstop). exists (stops route).
    split; [assumption|]. apply list_elem_of_fmap. by exists route.
Qed.

(** X7. The known stops have pairwise distinct normalized names, each of
    them is a stop of some route, and every stop of every route has the
    normalized name of a known stop. *)
Theorem known_stops_distinct_and_complete (routes : list RouteRow) :
  NoDup (_normalize <$> known_stops (init routes))
  /\ (forall stop,
        stop ∈ known_stops (init routes) ->
        exists route, route ∈ routes /\ stop ∈ stops route)
  /\ (forall route stop,
        route ∈ routes -> stop ∈ stops route ->
        exists known,
          known ∈ known_stops (init routes)
          /\ _normalize known = _normalize stop).
Proof.
  change (known_stops (init routes)) with (_build_stop_list routes).
  destruct (_build_stop_list_seen routes) as (seen & _ & Hcover & Hsub & _).
  simpl in *. split; [apply _build_stop_list_NoDup|]. split.
  - intros stop Hstop. apply all_stops_elem.
    eapply elem_of_sublist; [exact Hstop|exact Hsub].
  - intros route stop Hroute Hstop.
    assert (Hin : _normalize stop ∈ _normalize <$> all_stops routes).
    { apply list_elem_of_fmap. exists stop. split; [reflexivity|].
      apply all_stops_elem. by exists route. }
    apply Hcover, list_elem_of_fmap in Hin as (known & Heq & Hknown).
    by exists known.
Qed.

Lemma first_seen_app_inv (l : list string) (x : string) (i : nat)
    (stop : string) :
  (i < length l)%nat ->
  first_seen (l ++ [x]) i stop -> first_seen l i stop.
Proof.
  intros Hi [Hlookup Hfirst]. rewrite lookup_app_l in Hlookup by assumption.
  split; [assumption|].
  intros k other Hk Hother. apply (Hfirst k other Hk).
  by rewrite lookup_app_l by lia.
Qed.

Lemma stop_list_positions (l : list string) :
  exists positions,
    StronglySorted lt positions
    /\ Forall2 (first_seen l) positions
         (fold_left
            (fun '(ordered, seen) stop =>
               let key := _normalize stop in
               if decide (key ∈ (seen : gset string)) then (ordered, seen)
               else (ordered ++ [stop], seen ∪ {[key]}))
            l ([], ∅)).1
    /\ forall i stop, first_seen l i stop -> i ∈ positions.
Proof.
  induction l as [|x l IH] using rev_ind.
  - exists []. split; [constructor|]. split; [constructor|].
    intros i stop [H _]. by rewrite lookup_nil in H.
  - pose proof (stop_list_loop l) as (Hseen & _ & _ & _).
    rewrite fold_left_app. simpl.
    destruct (fold_left _ l _) as [ordered seen].
    destruct IH as (ps & Hsorted & Hall & Hcomplete). simpl in *.
    assert (Hbound : forall i, i ∈ ps -> (i < length l)%nat).
    { intros i Hi. apply list_elem_of_lookup in Hi as [k Hk].
      destruct (Forall2_lookup_l _ _ _ _ _ Hall Hk) as (stop & _ & [H _]).
      by eapply lookup_lt_Some. }
    assert (Hold : forall i stop,
               (i < length l)%nat -> first_seen (l ++ [x]) i stop -> i ∈ ps).
    { intros i stop Hi H. apply (Hcomplete i stop).
      by apply first_seen_app_inv with x. }
    destruct (decide (_normalize x ∈ seen)) as [Hin|Hnotin]; simpl.
    + exists ps. split; [assumption|]. split.
      * eapply Forall2_impl; [exact Hall|].
        intros i stop. apply first_seen_app.
      * intros i stop Hfirst.
        destruct (decide (i < length l)%nat) as [Hi|Hi]; [by eapply Hold|].
        exfalso. destruct Hfirst as [Hlookup Hfirst].
        pose proof (lookup_lt_Some _ _ _ Hlookup) as Hlen.
        rewrite length_app in Hlen. simpl in Hlen.
        assert (i = length l) as -> by lia.
        rewrite lookup_app_r, Nat.sub_diag in Hlookup by lia.
        injection Hlookup as <-.
        apply Hseen, list_elem_of_fmap in Hin as (other & Heq & Hother).
        apply list_elem_of_lookup in Hother as [k Hk].
        pose proof (lookup_lt_Some _ _ _ Hk) as Hklt.
        apply (Hfirst k other Hklt); [|by symmetry].
        by rewrite lookup_app_l.
    + exists (ps ++ [length l]). split; [|split].
      * apply StronglySorted_app_2; [|assumption|repeat constructor].
        intros i j Hi Hj. apply list_elem_of_singleton in Hj as ->.
        by apply Hbound.
      * apply Forall2_app.
        -- eapply Forall2_impl; [exact Hall|].
           intros i stop. apply first_seen_app.
        -- constructor; [|constructor]. split.
           ++ by rewrite lookup_app_r, Nat.sub_diag by lia.
           ++ intros k other Hk Hother Heq.
              rewrite lookup_app_l in Hother by lia.
              apply Hnotin, Hseen. rewrite <- Heq.
              apply list_elem_of_fmap. exists other. split; [reflexivity|].
              by eapply list_elem_of_lookup_2.
      * intros i stop Hfirst. apply elem_of_app.
        destruct (decide (i < length l)%nat) as [Hi|Hi];
          [left; by eapply Hold|].
        right. destruct Hfirst as [Hlookup _].
        pose proof (lookup_lt_Some _ _ _ Hlookup) as Hlen.
        rewrite length_app in Hlen. simpl in Hlen.
        apply list_elem_of_singleton. lia.
Qed.

(** X8. The known stops are the stops found at the positions of first
    appearance of a normalized name in the stops of the timetable (the
    routes in load order), all of these positions and in increasing order:
    the known stops come in the order of their first appearance, and the
    display form of a known stop is the one of that first appearance. *)
Theorem known_stops_first_seen (routes : list RouteRow) :
  known_stops (init routes) `sublist_of` all_stops routes
  /\ (forall stop,
        stop ∈ known_stops (init routes) ->
        exists i, first_seen (all_stops routes) i stop)
  /\ exists positions,
       StronglySorted lt positions
       /\ Forall2 (first_seen (all_stops routes)) positions
            (known_stops (init routes))
       /\ forall i stop,
            first_seen (all_stops routes) i stop -> i ∈ positions.
Proof.
  change (known_stops (init routes)) with (_build_stop_list routes).
  destruct (_build_stop_list_seen routes) as (seen & _ & _ & Hsub & Hfirst).
  split; [assumption|]. split; [assumption|].
  unfold _build_stop_list, all_stops.
  rewrite (fold_left_mjoin
             (fun '(ordered, seen) stop =>
                let key := _normalize stop in
                if decide (key ∈ (seen : gset string)) then (ordered, seen)
                else (ordered ++ [stop], seen ∪ {[key]}))
             stops).
  apply stop_list_positions.
Qed.

(** ** [stop_lookup] *)

Lemma stop_lookup_Some (stops : list string) (m : gmap string string)
    (key stop : string) :
  fold_left (fun (m : gmap string string) stop =>
               <[_normalize stop := stop]> m) stops m !! key
  = Some stop ->
  m !! key = Some stop \/ (stop ∈ stops /\ _normalize stop = key).
Proof.
  revert m. induction stops as [|stop' stops IH]; intros m; simpl; [by left|].
  intros [H|[Hin Hkey]]%IH.
  - destruct (decide (_normalize stop' = key)) as [<-|Hne].
    + rewrite lookup_insert_eq in H. injection H as ->.
      right. split; [by left|reflexivity].
    + rewrite lookup_insert_ne in H by assumption. by left.
  - right. split; [by right|assumption].
Qed.

Lemma stop_lookup_init (routes : list RouteRow) (key stop : string) :
  stop_lookup (init routes) !! key = Some stop
  <-> stop ∈ known_stops (init routes) /\ _normalize stop = key.
Proof.
  change (stop_lookup (init routes))
    with (fold_left (fun (m : gmap string string) stop =>
                       <[_normalize stop := stop]> m)
            (_build_stop_list routes) ∅).
  change (known_stops (init routes)) with (_build_stop_list routes).
  split.
  - intros [H|H]%stop_lookup_Some; [|assumption].
    by rewrite lookup_empty in H.
  - intros [Hin <-]. apply stop_lookup_known; [|assumption].
    apply _build_stop_list_NoDup.
Qed.

(** X9. The dictionary [stop_lookup] maps a key to a stop exactly when
    the stop is a known stop and the key is its normalized name. *)
Theorem stop_lookup_known_stops (routes : list RouteRow) (key stop : string) :
  stop_lookup (init routes) !! key = Some stop
  <-> stop ∈ known_stops (init routes) /\ _normalize stop = key.
Proof. apply stop_lookup_init. Qed.

(** ** The order of [float] *)

Ltac float_order :=
  unfold Float.ltb, SFltb, SFcompare;
  repeat match goal with
    | |- context [PosDef.Pos.compare_cont Eq ?a ?b] =>
        change (PosDef.Pos.compare_cont Eq a b) with (Pos.compare a b)
    end;
  repeat match goal with
    | |- context [(?a ?= ?b)%Z] => destruct (Z.compare_spec a b)
    | |- context [(?a ?= ?b)%positive] => destruct (Pos.compare_spec a b)
    end;
  simpl; try congruence; try lia.

Lemma ltb_irrefl (x : Float.float) : Float.ltb x x = false.
Proof. destruct x as [[]|[]| |[] m e]; float_order. Qed.

Lemma ltb_trans (x y z : Float.float) :
  Float.ltb x y = true -> Float.ltb y z = true -> Float.ltb x z = true.
Proof.
  destruct x as [[]|[]| |[] mx ex], y as [[]|[]| |[] my ey],
    z as [[]|[]| |[] mz ez]; float_order.
Qed.

Lemma ltb_negtrans (x y z : Float.float) :
  y <> S754_nan ->
  Float.ltb x y = false -> Float.ltb x z = true -> Float.ltb y z = true.
Proof.
  destruct x as [[]|[]| |[] mx ex], y as [[]|[]| |[] my ey],
    z as [[]|[]| |[] mz ez]; float_order.
Qed.

(** ** The scores of [_resolve_stop] are numbers *)

Lemma binary_round_aux_not_nan (s : bool) (m e : Z) (l : location) :
  0 <= m -> binary_round_aux Float.prec Float.emax s m e l <> S754_nan.
Proof.
  intros Hm. unfold binary_round_aux.
  pose proof (shr_fexp_spec m e l Hm) as H1. simpl in H1.
  destruct (shr_fexp Float.prec Float.emax m e l) as [mrs1 e1].
  simpl in H1. destruct H1 as [Hm1 He1].
  pose proof (round_nearest_even_bounds (shr_m mrs1) (loc_of_shr_record mrs1))
    as Hround.
  set (m2 := round_nearest_even (shr_m mrs1) (loc_of_shr_record mrs1)) in *.
  assert (Hm1' : 0 <= shr_m mrs1) by (rewrite Hm1; apply Z.div_pos; lia).
  pose proof (shr_fexp_spec m2 e1 loc_Exact ltac:(lia)) as H2. simpl in H2.
  destruct (shr_fexp Float.prec Float.emax m2 e1 loc_Exact) as [mrs2 e2].
  simpl in H2. destruct H2 as [Hm2 He2].
  assert (Hm2' : 0 <= shr_m mrs2) by (rewrite Hm2; apply Z.div_pos; lia).
  destruct (shr_m mrs2) as [|p|p]; [done| |lia].
  by destruct (_ <=? _).
Qed.

Lemma binary_normalize_not_nan (m e : Z) (szero : bool) :
  binary_normalize Float.prec Float.emax m e szero <> S754_nan.
Proof.
  destruct m as [|p|p]; simpl; [done|..]; unfold binary_round;
    destruct (shl_align _ _ _) as [mz ez];
    by apply binary_round_aux_not_nan.
Qed.

Lemma of_int_not_nan (n : Z) : Float.of_int n <> S754_nan.
Proof. apply binary_normalize_not_nan. Qed.

Lemma mul_two_not_nan (x : Float.float) :
  x <> S754_nan -> Float.mul Float.two x <> S754_nan.
Proof.
  destruct x as [s|s| |s m e]; try done. intros _.
  by apply binary_round_aux_not_nan.
Qed.

Lemma div_finite_not_nan (x : Float.float) (s : bool) (m : positive) (e : Z) :
  x <> S754_nan -> Float.div x (S754_finite s m e) <> S754_nan.
Proof.
  destruct x as [sx|sx| |sx mx ex]; try done. intros _.
  unfold Float.div, SFdiv, SFdiv_core_binary.
  set (s' := ex - e - _).
  set (m' := match s' with
             | 0 => Zpos mx
             | Zpos _ => Z.shiftl (Zpos mx) s'
             | Zneg _ => 0
             end).
  assert (Hm' : 0 <= m').
  { unfold m'. destruct s' eqn:Hs'; [lia| |lia].
    rewrite Z.shiftl_mul_pow2 by lia.
    apply Z.mul_nonneg_nonneg; [lia|]. apply Z.pow_nonneg. lia. }
  rewrite div_eucl_div_mod.
  apply binary_round_aux_not_nan, Z.div_pos; lia.
Qed.

Lemma add_not_nan (x : Float.float) :
  x <> S754_nan -> Float.add x Float.lit_0_12 <> S754_nan.
Proof.
  destruct x as [sx|sx| |sx mx ex]; try done. intros _.
  apply binary_normalize_not_nan.
Qed.

Lemma _calculate_ratio_not_nan (matches length : nat) :
  Z.of_nat length < 2 ^ 53 ->
  Difflib._calculate_ratio matches length <> S754_nan.
Proof.
  intros Hlen. unfold Difflib._calculate_ratio.
  destruct (Nat.eqb_spec length 0); [done|].
  destruct (Z.of_nat length) as [|p|p] eqn:Hp; [lia| |lia].
  rewrite of_int_exact by (apply digits_le; lia).
  apply div_finite_not_nan, mul_two_not_nan, of_int_not_nan.
Qed.

Lemma stop_score_not_nan (key stop_key : string) :
  Z.of_nat (String.length key + String.length stop_key) < 2 ^ 53 ->
  stop_score key stop_key <> S754_nan.
Proof.
  intros Hlen.
  assert (Hratio : Difflib.str_ratio key stop_key <> S754_nan).
  { unfold Difflib.str_ratio, Difflib.ratio.
    apply _calculate_ratio_not_nan. by rewrite !list_ascii_length. }
  unfold stop_score. destruct (_ || _); [|assumption].
  by apply add_not_nan.
Qed.

(** ** The approximate matching of [_resolve_stop] *)

Lemma resolve_loop_app (key : string) (l : list string) (stop : string)
    (best : option string * Float.float) :
  resolve_loop key (l ++ [stop]) best
  = let '(best_name, best_score) := resolve_loop key l best in
    if Float.ltb best_score (stop_score key (_normalize stop))
    then (Some stop, stop_score key (_normalize stop))
    else (best_name, best_score).
Proof.
  unfold resolve_loop. rewrite fold_left_app. simpl.
  by destruct (fold_left _ l best).
Qed.

Lemma resolve_loop_elem (key : string) (l : list string) (stop : string) :
  (resolve_loop key l (None, Float.zero)).1 = Some stop -> stop ∈ l.
Proof.
  induction l as [|x l IH] using rev_ind;
    [intros H; simpl in H; discriminate|].
  rewrite resolve_loop_app.
  destruct (resolve_loop key l (None, Float.zero)) as [best_name best_score].
  rewrite elem_of_app, list_elem_of_singleton.
  destruct (Float.ltb _ _); simpl in *; [by intros [= ->]; right|].
  intros H. left. by apply IH.
Qed.

Lemma resolve_loop_spec (key : string) (l : list string) :
  (forall stop, stop ∈ l -> stop_score key (_normalize stop) <> S754_nan) ->
  match resolve_loop key l (None, Float.zero) with
  | (None, best_score) =>
      best_score = Float.zero
      /\ forall stop,
           stop ∈ l ->
           Float.ltb Float.zero (stop_score key (_normalize stop)) = false
  | (Some name, best_score) =>
      best_score = stop_score key (_normalize name)
      /\ Float.ltb Float.zero best_score = true
      /\ exists i, best_match key l i name
  end.
Proof.
  induction l as [|x l IH] using rev_ind; intros Hnan.
  - split; [reflexivity|]. intros stop H. inversion H.
  - rewrite resolve_loop_app.
    assert (Hx : stop_score key (_normalize x) <> S754_nan)
      by (apply Hnan, elem_of_app; right; by left).
    specialize (IH ltac:(intros stop H; apply Hnan, elem_of_app; by left)).
    destruct (resolve_loop key l (None, Float.zero)) as [[name|] best_score].
    + destruct IH as (-> & Hpos & i & Hi & Hbefore & Hmax).
      pose proof (lookup_lt_Some _ _ _ Hi) as Hlt.
      destruct (Float.ltb _ (stop_score key (_normalize x))) eqn:Hnew.
      * split; [reflexivity|]. split; [by eapply ltb_trans|].
        exists (length l). split; [|split].
        -- by rewrite lookup_app_r, Nat.sub_diag by lia.
        -- intros k other Hk Hother. rewrite lookup_app_l in Hother by lia.
           eapply ltb_negtrans; [| |exact Hnew].
           ++ eapply Hnan, elem_of_app. left.
              by eapply list_elem_of_lookup_2.
           ++ eapply Hmax, list_elem_of_lookup_2, Hother.
        -- intros other [Hother|Hother]%elem_of_app.
           ++ destruct (Float.ltb (stop_score key (_normalize x)) _)
                eqn:Hgt; [|reflexivity].
              pose proof (ltb_trans _ _ _ Hnew Hgt) as Hcontra.
              by rewrite (Hmax other Hother) in Hcontra.
           ++ apply list_elem_of_singleton in Hother as ->. apply ltb_irrefl.
      * split; [reflexivity|]. split; [assumption|].
        exists i. split; [by rewrite lookup_app_l|]. split.
        -- intros k other Hk Hother. apply (Hbefore k other Hk).
           by rewrite lookup_app_l in Hother by lia.
        -- intros other [Hother|Hother]%elem_of_app; [by apply Hmax|].
           by apply list_elem_of_singleton in Hother as ->.
    + destruct IH as [-> Hzero].
      destruct (Float.ltb _ (stop_score key (_normalize x))) eqn:Hnew.
      * split; [reflexivity|]. split; [assumption|].
        exists (length l). split; [|split].
        -- by rewrite lookup_app_r, Nat.sub_diag by lia.
        -- intros k other Hk Hother. rewrite lookup_app_l in Hother by lia.
           eapply ltb_negtrans; [| |exact Hnew].
           ++ eapply Hnan, elem_of_app. left.
              by eapply list_elem_of_lookup_2.
           ++ eapply Hzero, list_elem_of_lookup_2, Hother.
        -- intros other [Hother|Hother]%elem_of_app.
           ++ destruct (Float.ltb (stop_score key (_normalize x)) _)
                eqn:Hgt; [|reflexivity].
              pose proof (ltb_trans _ _ _ Hnew Hgt) as Hcontra.
              by rewrite (Hzero other Hother) in Hcontra.
           ++ apply list_elem_of_singleton in Hother as ->. apply ltb_irrefl.
      * split; [reflexivity|].
        intros stop [Hstop|Hstop]%elem_of_app; [by apply Hzero|].
        by apply list_elem_of_singleton in Hstop as ->.
Qed.

Lemma best_match_unique (key : string) (l : list string) (i i' : nat)
    (stop stop' : string) :
  best_match key l i stop -> best_match key l i' stop' -> stop = stop'.
Proof.
  intros (Hi & Hbefore & Hmax) (Hi' & Hbefore' & Hmax').
  destruct (Nat.lt_trichotomy i i') as [Hlt|[->|Hlt]].
  - pose proof (Hbefore' i stop Hlt Hi) as H.
    rewrite Hmax in H; [discriminate|]. by eapply list_elem_of_lookup_2.
  - congruence.
  - pose proof (Hbefore i' stop' Hlt Hi') as H.
    rewrite Hmax' in H; [discriminate|]. by eapply list_elem_of_lookup_2.
Qed.

Lemma _resolve_stop_loop (self : TransportAgent) (raw_stop : string) :
  let key :=
    default (_normalize raw_stop) (aliases self !! _normalize raw_stop) in
  _normalize raw_stop <> "" ->
  stop_lookup self !! key = None ->
  _resolve_stop self raw_stop
  = match resolve_loop key (known_stops self) (None, Float.zero) with
    | (Some name, best_score) =>
        if Float.ltb best_score Float.lit_0_70 then None else Some name
    | (None, _) => None
    end.
Proof.
  intros key Hne Hlookup. unfold _resolve_stop.
  replace (negb (Py.truthy (_normalize raw_stop))) with false
    by (by destruct (_normalize raw_stop)).
  fold key. rewrite Hlookup. unfold resolve_loop.
  destruct (fold_left _ _ _) as [[name|] best_score]; reflexivity.
Qed.

(** X10. When the text is neither an alias nor the normalized name of a
    known stop, [_resolve_stop] returns the best match among the known
    stops, the first one of those with the highest score, provided that
    this score is not below 0.70, and nothing otherwise. *)
Theorem resolve_fuzzy_best_match (self : TransportAgent)
    (raw_stop stop : string) :
  let key :=
    default (_normalize raw_stop) (aliases self !! _normalize raw_stop) in
  _normalize raw_stop <> "" ->
  stop_lookup self !! key = None ->
  (forall other,
      other ∈ known_stops self ->
      Z.of_nat (String.length key + String.length (_normalize other))
      < 2 ^ 53) ->
  _resolve_stop self raw_stop = Some stop
  <-> exists i,
        best_match key (known_stops self) i stop
        /\ Float.ltb (stop_score key (_normalize stop)) Float.lit_0_70
           = false.
Proof.
  intros key Hne Hlookup Hlen.
  rewrite (_resolve_stop_loop self raw_stop Hne Hlookup). fold key.
  assert (Hnan : forall other,
             other ∈ known_stops self ->
             stop_score key (_normalize other) <> S754_nan)
    by (intros other Hother; by apply stop_score_not_nan, Hlen).
  pose proof (resolve_loop_spec key (known_stops self) Hnan) as Hspec.
  destruct (resolve_loop key (known_stops self) (None, Float.zero))
    as [[name|] best_score].
  - destruct Hspec as (-> & Hpos & i & Hbest). split.
    + destruct (Float.ltb _ Float.lit_0_70) eqn:Hlow; [discriminate|].
      intros [= <-]. by exists i.
    + intros (i' & Hbest' & Hhigh).
      assert (Hname : Float.ltb (stop_score key (_normalize name))
                        Float.lit_0_70 = false).
      { destruct (Float.ltb (stop_score key (_normalize name))
                    Float.lit_0_70) eqn:Hlow; [|reflexivity].
        pose proof Hbest' as (Hi' & _ & _).
        pose proof Hbest as (_ & _ & Hmax).
        assert (Hcontra : Float.ltb (stop_score key (_normalize stop))
                            Float.lit_0_70 = true).
        { eapply ltb_negtrans; [| |exact Hlow].
          - by eapply Hnan, list_elem_of_lookup_2.
          - by eapply Hmax, list_elem_of_lookup_2. }
        by rewrite Hhigh in Hcontra. }
      rewrite Hname. f_equal. by eapply best_match_unique.
  - destruct Hspec as [-> Hzero]. split; [discriminate|].
    intros (i & (Hi & _ & _) & Hhigh). exfalso.
    assert (Hcontra : Float.ltb (stop_score key (_normalize stop))
                        Float.lit_0_70 = true).
    { apply (ltb_negtrans Float.zero); [| |reflexivity].
      - by eapply Hnan, list_elem_of_lookup_2.
      - by eapply Hzero, list_elem_of_lookup_2. }
    by rewrite Hhigh in Hcontra.
Qed.

(** X11. A stop that [_resolve_stop] returns is a known stop, hence a
    stop of some route of the timetable. *)
Theorem resolve_returns_known_stop (routes : list RouteRow)
    (raw_stop stop : string) :
  _resolve_stop (init routes) raw_stop = Some stop ->
  stop ∈ known_stops (init routes)
  /\ exists route, route ∈ routes /\ stop ∈ stops route.
Proof.
  intros H.
  assert (Hknown : stop ∈ known_stops (init routes)).
  { unfold _resolve_stop in H.
    destruct (negb _); [discriminate|].
    destruct (stop_lookup (init routes) !! _) as [stop'|] eqn:Hlookup.
    - injection H as ->. by apply stop_lookup_init in Hlookup as [? _].
    - pose proof (resolve_loop_elem
                    (default (_normalize raw_stop)
                       (aliases (init routes) !! _normalize raw_stop))
                    (known_stops (init routes))) as Helem.
      unfold resolve_loop in Helem.
      destruct (fold_left _ _ _) as [[name|] best_score]; [|discriminate].
      destruct (Float.ltb _ _); [discriminate|]. injection H as ->.
      by apply Helem. }
  split; [assumption|].
  change (known_stops (init routes)) with (_build_stop_list routes) in Hknown.
  destruct (_build_stop_list_seen routes) as (seen & _ & _ & Hsub & _).
  apply all_stops_elem. eapply elem_of_sublist; [exact Hknown|exact Hsub].
Qed.

(** X12. A text that is not blank and whose normalized form, or the
    alias target of that form when it is a key of the alias table, is the
    normalized name of a known stop resolves to that known stop. *)
Theorem resolve_exact_or_alias (routes : list RouteRow)
    (raw_stop stop : string) :
  let key :=
    default (_normalize raw_stop)
      (aliases (init routes) !! _normalize raw_stop) in
  _normalize raw_stop <> "" ->
  stop ∈ known_stops (init routes) ->
  _normalize stop = key ->
  _resolve_stop (init routes) raw_stop = Some stop.
Proof.
  intros key Hne Hknown Hkey. unfold _resolve_stop.
  replace (negb (Py.truthy (_normalize raw_stop))) with false
    by (by destruct (_normalize raw_stop)).
  fold key.
  by rewrite (proj2 (stop_lookup_init routes key stop) (conj Hknown Hkey)).
Qed.

(** ** The legs that [_route_leg] finds *)

Lemma index_first {A : Type} `{EqDecision A} (l : list A) (x : A) (i : nat) :
  l !! i = Some x -> exists s, Py.index l x = Some s /\ (s <= i)%nat.
Proof.
  revert i. induction l as [|y l IH]; intros i; [done|]. simpl.
  destruct (decide (y = x)) as [->|Hne].
  - intros _. exists 0%nat. split; [reflexivity|lia].
  - destruct i as [|i]; simpl; [by intros [= ->]|].
    intros (s & -> & Hs)%IH. exists (S s). split; [reflexivity|lia].
Qed.

Lemma find_seq_is_Some (f : nat -> bool) (lo n i : nat) :
  (lo <= i < lo + n)%nat -> f i = true -> is_Some (List.find f (seq lo n)).
Proof.
  revert lo. induction n as [|n IH]; intros lo Hi Hf; [lia|]. simpl.
  destruct (f lo) eqn:Hlo; [by eexists|].
  apply IH; [|assumption].
  destruct (decide (i = lo)) as [->|]; [congruence|lia].
Qed.

Lemma _route_leg_is_Some (stops : list string) (from_stop to_stop : string) :
  is_Some (_route_leg stops from_stop to_stop)
  <-> exists i j,
        (i < j)%nat
        /\ _normalize <$> stops !! i = Some (_normalize from_stop)
        /\ _normalize <$> stops !! j = Some (_normalize to_stop).
Proof.
  split.
  - intros [[s e] H]. apply _route_leg_Some in H as (Hrange & Hs & He & _).
    exists s, e. split; [lia|]. by split.
  - intros (i & j & Hij & Hi & Hj). unfold _route_leg, first_end.
    change (map _normalize stops) with (_normalize <$> stops).
    rewrite <- list_lookup_fmap in Hi, Hj.
    destruct (index_first _ _ _ Hi) as (s & -> & Hs).
    pose proof (lookup_lt_Some _ _ _ Hj) as Hlen.
    destruct (find_seq_is_Some
                (fun end_ => bool_decide
                               ((_normalize <$> stops) !! end_
                                = Some (_normalize to_stop)))
                (s + 1) (length (_normalize <$> stops) - (s + 1)) j)
      as [e He].
    + lia.
    + by apply bool_decide_eq_true.
    + rewrite He. by eexists.
Qed.

(** X13. A list of stops has a leg from one stop to another exactly when
    the first stop occurs at a position before one of the second, names
    being compared in normalized form. *)
Theorem route_leg_connects (stops : list string) (from_stop to_stop : string) :
  is_Some (_route_leg stops from_stop to_stop)
  <-> exists i j,
        (i < j)%nat
        /\ _normalize <$> stops !! i = Some (_normalize from_stop)
        /\ _normalize <$> stops !! j = Some (_normalize to_stop).
Proof. apply _route_leg_is_Some. Qed.

(** ** The route that [find_route] prefers under a time filter *)

(** X14. With a time filter that parses, as soon as one record that
    connects the two resolved stops departs at or after the filter time,
    [find_route] returns a route, the one of a record that no such record
    departs before, and that none departing at the same time is shorter
    than. *)
Theorem find_route_soonest (self : TransportAgent)
    (from_stop to_stop after_time resolved_from resolved_to : string)
    (after : Z) (candidate : RouteRow) :
  _parse_time after_time = Some after ->
  _resolve_stop self from_stop = Some resolved_from ->
  _resolve_stop self to_stop = Some resolved_to ->
  resolved_from <> "" ->
  resolved_to <> "" ->
  candidate ∈ routes self ->
  is_Some (_route_leg (stops candidate) resolved_from resolved_to) ->
  after <= departure_minutes candidate ->
  exists route start_idx end_idx,
    route ∈ routes self
    /\ _route_leg (stops route) resolved_from resolved_to
       = Some (start_idx, end_idx)
    /\ after <= departure_minutes route
    /\ find_route self from_stop to_stop after_time
       = Some (route_payload route start_idx end_idx)
    /\ forall route',
         route' ∈ routes self ->
         is_Some (_route_leg (stops route') resolved_from resolved_to) ->
         after <= departure_minutes route' ->
         departure_minutes route <= departure_minutes route'
         /\ (departure_minutes route' = departure_minutes route ->
             duration_minutes route <= duration_minutes route').
Proof.
  intros Hparse Hrf Hrt Hnf Hnt Hcand [[s0 e0] Hleg0] Hafter0.
  assert (Hmatch : forall route s e,
             _route_leg (stops route) resolved_from resolved_to = Some (s, e) ->
             after <= departure_minutes route ->
             route_match resolved_from resolved_to (Some after) route
             = Some (route_key (Some after) route, route_payload route s e)).
  { intros route s e Hleg Hafter. unfold route_match. rewrite Hleg.
    by destruct (Z.ltb_spec (departure_minutes route) after); [lia|]. }
  destruct (find_route self from_stop to_stop after_time) as [payload|]
    eqn:Hfind.
  - apply find_route_Some in Hfind
      as (rf & rt & route & key & Hrf' & Hrt' & Hroute & Hm & Hmin).
    rewrite Hrf in Hrf'. rewrite Hrt in Hrt'.
    injection Hrf' as <-. injection Hrt' as <-.
    rewrite Hparse in Hm, Hmin.
    apply route_match_Some in Hm as (s & e & Hleg & -> & -> & Hlate).
    specialize (Hlate after eq_refl).
    exists route, s, e.
    split; [assumption|]. split; [assumption|]. split; [assumption|].
    split; [reflexivity|].
    intros route' Hroute' [[s' e'] Hleg'] Hafter'.
    specialize (Hmin route' _ _ Hroute' (Hmatch route' s' e' Hleg' Hafter')).
    simpl in Hmin.
    destruct (Z.eqb_spec (departure_minutes route' - after)
                (departure_minutes route - after)) as [Hdep|Hdep];
      simpl in Hmin.
    + split; [lia|]. intros _.
      destruct (Z.eqb_spec (duration_minutes route') (duration_minutes route));
        simpl in Hmin; [lia|].
      destruct (Z.ltb_spec (duration_minutes route') (duration_minutes route));
        [discriminate|lia].
    + destruct (Z.ltb_spec (departure_minutes route' - after)
                  (departure_minutes route - after)); [discriminate|].
      split; lia.
  - exfalso. unfold find_route in Hfind. rewrite Hrf, Hrt in Hfind.
    simpl in Hfind.
    destruct resolved_from; [done|]. destruct resolved_to; [done|].
    simpl in Hfind. rewrite Hparse, find_route_matches_omap in Hfind.
    destruct (Py.sorted _ _) eqn:Hsorted; [|discriminate].
    apply sorted_nil_inv in Hsorted.
    assert (Hin : (route_key (Some after) candidate,
                   route_payload candidate s0 e0)
                  ∈ omap (route_match (String a resolved_from)
                            (String a0 resolved_to) (Some after))
                      (routes self)).
    { apply list_elem_of_omap. exists candidate. split; [assumption|].
      by apply Hmatch. }
    rewrite Hsorted in Hin. inversion Hin.
Qed.

(** ** Loops that append *)

Lemma foldM_app {A B : Type} (f : B -> A -> result B) (l l' : list A)
    (acc : B) :
  foldM f (l ++ l') acc = let* acc' := foldM f l acc in foldM f l' acc'.
Proof.
  revert acc. induction l as [|x l IH]; intros acc; simpl; [reflexivity|].
  destruct (f acc x); simpl; [apply IH|reflexivity].
Qed.

Lemma foldM_Ok {A B : Type} (P : B -> Prop) (f : B -> A -> result B)
    (l : list A) (acc : B) :
  (forall acc x, x ∈ l -> P acc -> exists acc', f acc x = Ok acc' /\ P acc') ->
  P acc ->
  exists r, foldM f l acc = Ok r /\ P r.
Proof.
  revert acc. induction l as [|x l IH]; intros acc Hstep Hacc; simpl.
  - by exists acc.
  - destruct (Hstep acc x ltac:(left) Hacc) as (acc' & -> & Hacc'). simpl.
    apply IH; [|assumption].
    intros acc0 y Hy. apply Hstep. by right.
Qed.

(** ** The legs that [suggest_alternative] collects *)

Lemma add_first_legs_elem (route : RouteRow) (start_idx : nat)
    (first_legs first_legs' : list Leg) (leg : Leg) :
  add_first_legs route start_idx first_legs = Ok first_legs' ->
  leg ∈ first_legs'
  <-> leg ∈ first_legs
      \/ exists transfer_idx transfer_stop duration,
           (start_idx < transfer_idx)%nat
           /\ stops route !! transfer_idx = Some transfer_stop
           /\ _segment_duration route (Z.of_nat start_idx)
                (Z.of_nat transfer_idx) = Ok duration
           /\ leg = leg_payload route transfer_stop duration
                      start_idx (transfer_idx + 1).
Proof.
  unfold add_first_legs.
  assert (Hgen : forall l acc r,
             foldM
               (fun first_legs transfer_idx =>
                  let* transfer_stop :=
                    Py.getitem (stops route) transfer_idx in
                  let* duration :=
                    _segment_duration route (Z.of_nat start_idx)
                      (Z.of_nat transfer_idx) in
                  Ok (first_legs
                        ++ [leg_payload route transfer_stop duration
                              start_idx (transfer_idx + 1)]))
               l acc = Ok r ->
             leg ∈ r
             <-> leg ∈ acc
                 \/ exists transfer_idx transfer_stop duration,
                      transfer_idx ∈ l
                      /\ stops route !! transfer_idx = Some transfer_stop
                      /\ _segment_duration route (Z.of_nat start_idx)
                           (Z.of_nat transfer_idx) = Ok duration
                      /\ leg = leg_payload route transfer_stop duration
                                 start_idx (transfer_idx + 1)).
  { induction l as [|t l IH]; intros acc r; simpl.
    - intros [= <-]. split; [by left|].
      intros [H|(t & ts & d & H & _)]; [assumption|inversion H].
    - destruct (Py.getitem (stops route) t) as [ts|] eqn:Hget;
        [|discriminate].
      simpl.
      destruct (_segment_duration route (Z.of_nat start_idx) (Z.of_nat t))
        as [d|] eqn:Hd; [|discriminate].
      simpl. intros H. rewrite (IH _ _ H), elem_of_app.
      rewrite list_elem_of_singleton. apply getitem_Ok in Hget.
      split.
      + intros [[H'| ->]|(t' & ts' & d' & Ht' & Hrest)].
        * by left.
        * right. exists t, ts, d. split; [left|]. by repeat split.
        * right. exists t', ts', d'. split; [by right|assumption].
      + intros [H'|(t' & ts' & d' & Ht' & Hts' & Hd' & ->)]; [by left; left|].
        apply elem_of_cons in Ht' as [->|Ht'].
        * left. right. rewrite Hts' in Hget. injection Hget as ->.
          rewrite Hd' in Hd. by injection Hd as ->.
        * right. exists t', ts', d'. by repeat split. }
  intros H. rewrite (Hgen _ _ _ H). clear Hgen H.
  split; (intros [H|(t & ts & d & Ht & Hts & Hrest)]; [by left|right]);
    exists t, ts, d; (split; [|by split]).
  - apply elem_of_seq in Ht. lia.
  - apply elem_of_seq. pose proof (lookup_lt_Some _ _ _ Hts). lia.
Qed.

Lemma add_second_legs_elem (route : RouteRow) (end_idx : nat)
    (second second' : gmap string (list Leg)) (key : string) (leg : Leg) :
  add_second_legs route end_idx second = Ok second' ->
  leg ∈ legs_at second' key
  <-> leg ∈ legs_at second key
      \/ exists transfer_idx transfer_stop duration,
           (transfer_idx < end_idx)%nat
           /\ stops route !! transfer_idx = Some transfer_stop
           /\ _segment_duration route (Z.of_nat transfer_idx)
                (Z.of_nat end_idx) = Ok duration
           /\ leg = leg_payload route transfer_stop duration
                      transfer_idx (end_idx + 1)
           /\ _normalize transfer_stop = key.
Proof.
  unfold add_second_legs.
  assert (Hgen : forall l acc r,
             foldM
               (fun (second_legs_by_transfer : gmap string (list Leg))
                    transfer_idx =>
                  let* transfer_stop :=
                    Py.getitem (stops route) transfer_idx in
                  let* duration :=
                    _segment_duration route (Z.of_nat transfer_idx)
                      (Z.of_nat end_idx) in
                  let leg := leg_payload route transfer_stop duration
                               transfer_idx (end_idx + 1) in
                  let transfer_key := _normalize transfer_stop in
                  Ok (<[transfer_key :=
                          default [] (second_legs_by_transfer !! transfer_key)
                          ++ [leg]]>
                        second_legs_by_transfer))
               l acc = Ok r ->
             leg ∈ legs_at r key
             <-> leg ∈ legs_at acc key
                 \/ exists transfer_idx transfer_stop duration,
                      transfer_idx ∈ l
                      /\ stops route !! transfer_idx = Some transfer_stop
                      /\ _segment_duration route (Z.of_nat transfer_idx)
                           (Z.of_nat end_idx) = Ok duration
                      /\ leg = leg_payload route transfer_stop duration
                                 transfer_idx (end_idx + 1)
                      /\ _normalize transfer_stop = key).
  { induction l as [|t l IH]; intros acc r; simpl.
    - intros [= <-]. split; [by left|].
      intros [H|(t & ts & d & H & _)]; [assumption|inversion H].
    - destruct (Py.getitem (stops route) t) as [ts|] eqn:Hget;
        [|discriminate].
      simpl.
      destruct (_segment_duration route (Z.of_nat t) (Z.of_nat end_idx))
        as [d|] eqn:Hd; [|discriminate].
      simpl. intros H. rewrite (IH _ _ H). apply getitem_Ok in Hget.
      unfold legs_at at 1.
      destruct (decide (_normalize ts = key)) as [Hkey|Hkey].
      + rewrite <- Hkey at 1. rewrite lookup_insert_eq. simpl.
        fold (legs_at acc (_normalize ts)). rewrite Hkey, elem_of_app.
        rewrite list_elem_of_singleton. split.
        * intros [[H'| ->]|(t' & ts' & d' & Ht' & Hrest)].
          -- by left.
          -- right. exists t, ts, d. split; [left|]. by repeat split.
          -- right. exists t', ts', d'. split; [by right|assumption].
        * intros [H'|(t' & ts' & d' & Ht' & Hts' & Hd' & -> & Hk')];
            [by left; left|].
          apply elem_of_cons in Ht' as [->|Ht'].
          -- left. right. rewrite Hts' in Hget. injection Hget as ->.
             rewrite Hd' in Hd. by injection Hd as ->.
          -- right. exists t', ts', d'. by repeat split.
      + rewrite lookup_insert_ne by assumption.
        fold (legs_at acc key). split.
        * intros [H'|(t' & ts' & d' & Ht' & Hrest)]; [by left|].
          right. exists t', ts', d'. split; [by right|assumption].
        * intros [H'|(t' & ts' & d' & Ht' & Hts' & Hd' & -> & Hk')];
            [by left|].
          apply elem_of_cons in Ht' as [->|Ht'].
          -- rewrite Hts' in Hget. injection Hget as ->. contradiction.
          -- right. exists t', ts', d'. by repeat split. }
  intros H. rewrite (Hgen _ _ _ H). clear Hgen H.
  split; (intros [H|(t & ts & d & Ht & Hts & Hrest)]; [by left|right]);
    exists t, ts, d; (split; [|by split]).
  - apply elem_of_seq in Ht. lia.
  - apply elem_of_seq. lia.
Qed.

Lemma collect_legs_elem (self : TransportAgent)
    (resolved_from resolved_to : string) (after_minutes : option Z)
    (first_legs : list Leg) (second : gmap string (list Leg)) :
  collect_legs self resolved_from resolved_to after_minutes
  = Ok (first_legs, second) ->
  (forall leg,
      leg ∈ first_legs
      <-> exists route start_idx transfer_idx,
            route ∈ routes self
            /\ first_leg_at resolved_from after_minutes route
                 start_idx transfer_idx leg)
  /\ (forall key leg,
        leg ∈ legs_at second key
        <-> exists route transfer_idx end_idx,
              route ∈ routes self
              /\ second_leg_at resolved_to route transfer_idx end_idx leg
              /\ _normalize (l_transfer_stop leg) = key).
Proof.
  unfold collect_legs.
  assert (Hgen : forall l first0 second0 first1 second1,
             foldM
               (fun '(first_legs, second_legs_by_transfer) route =>
                  let* first_legs :=
                    match _find_stop_index (stops route) resolved_from with
                    | Some start_idx =>
                        if match after_minutes with
                           | None => true
                           | Some after => after <=? departure_minutes route
                           end
                        then add_first_legs route start_idx first_legs
                        else Ok first_legs
                    | None => Ok first_legs
                    end in
                  let* second_legs_by_transfer :=
                    match _find_stop_index (stops route) resolved_to with
                    | Some end_idx =>
                        add_second_legs route end_idx second_legs_by_transfer
                    | None => Ok second_legs_by_transfer
                    end in
                  Ok (first_legs, second_legs_by_transfer))
               l (first0, second0) = Ok (first1, second1) ->
             (forall leg,
                 leg ∈ first1
                 <-> leg ∈ first0
                     \/ exists route start_idx transfer_idx,
                          route ∈ l
                          /\ first_leg_at resolved_from after_minutes route
                               start_idx transfer_idx leg)
             /\ (forall key leg,
                   leg ∈ legs_at second1 key
                   <-> leg ∈ legs_at second0 key
                       \/ exists route transfer_idx end_idx,
                            route ∈ l
                            /\ second_leg_at resolved_to route
                                 transfer_idx end_idx leg
                            /\ _normalize (l_transfer_stop leg) = key)).
  { induction l as [|route l IH]; intros first0 second0 first1 second1; simpl.
    - intros [= <- <-]. split.
      + intros leg. split; [by left|].
        intros [H|(r & s & t & H & _)]; [assumption|inversion H].
      + intros key leg. split; [by left|].
        intros [H|(r & s & t & H & _)]; [assumption|inversion H].
    - intros H.
      apply rbind_Ok in H as ([firstm secondm] & Hstep & H).
      apply rbind_Ok in Hstep as (firstm' & Hfirst & Hstep).
      apply rbind_Ok in Hstep as (secondm' & Hsecond & [= -> ->]).
      destruct (IH _ _ _ _ H) as [IH1 IH2]. clear IH H. split.
      + intros leg. rewrite IH1. clear IH1 IH2 Hsecond.
        assert (Hm : leg ∈ firstm
                     <-> leg ∈ first0
                         \/ exists start_idx transfer_idx,
                              first_leg_at resolved_from after_minutes route
                                start_idx transfer_idx leg).
        { unfold first_leg_at.
          destruct (_find_stop_index (stops route) resolved_from)
            as [s|] eqn:Hidx.
          - destruct (match after_minutes with
                      | None => true
                      | Some after => after <=? departure_minutes route
                      end) eqn:Hafter.
            + rewrite (add_first_legs_elem _ _ _ _ leg Hfirst). split.
              * intros [H|(t & ts & d & Ht & Hts & Hd & Hleg)]; [by left|].
                right. exists s, t. split; [reflexivity|]. split; [assumption|].
                split; [|by exists ts, d].
                intros after ->. by apply Z.leb_le.
              * intros [H|(s' & t & [= <-] & Ht & _ & ts & d & Hrest)];
                  [by left|].
                right. by exists t, ts, d.
            + injection Hfirst as <-. split; [by left|].
              intros [H|(s' & t & _ & _ & Hlate & _)]; [assumption|].
              destruct after_minutes as [after|]; [|discriminate].
              specialize (Hlate after eq_refl). apply Z.leb_gt in Hafter. lia.
          - injection Hfirst as <-. split; [by left|].
            intros [H|(s' & t & Hcontra & _)]; [assumption|discriminate]. }
        rewrite Hm. split.
        * intros [[H|(s & t & Hleg)]|(r & s & t & Hr & Hleg)].
          -- by left.
          -- right. exists route, s, t. split; [left|assumption].
          -- right. exists r, s, t. split; [by right|assumption].
        * intros [H|(r & s & t & Hr & Hleg)]; [by left; left|].
          apply elem_of_cons in Hr as [->|Hr].
          -- left. right. by exists s, t.
          -- right. by exists r, s, t.
      + intros key leg. rewrite IH2. clear IH1 IH2 Hfirst.
        assert (Hm : leg ∈ legs_at secondm key
                     <-> leg ∈ legs_at second0 key
                         \/ exists transfer_idx end_idx,
                              second_leg_at resolved_to route
                                transfer_idx end_idx leg
                              /\ _normalize (l_transfer_stop leg) = key).
        { unfold second_leg_at.
          destruct (_find_stop_index (stops route) resolved_to)
            as [e|] eqn:Hidx.
          - rewrite (add_second_legs_elem _ _ _ _ key leg Hsecond). split.
            + intros [H|(t & ts & d & Ht & Hts & Hd & -> & Hkey)]; [by left|].
              right. exists t, e. split; [|assumption].
              split; [reflexivity|]. split; [assumption|]. by exists ts, d.
            + intros [H|(t & e' & ([= <-] & Ht & ts & d & Hts & Hd & ->) & Hkey)];
                [by left|].
              right. by exists t, ts, d.
          - injection Hsecond as <-. split; [by left|].
            intros [H|(t & e & (Hcontra & _) & _)]; [assumption|discriminate]. }
        rewrite Hm. split.
        * intros [[H|(t & e & Hleg)]|(r & t & e & Hr & Hleg)].
          -- by left.
          -- right. exists route, t, e. split; [left|assumption].
          -- right. exists r, t, e. split; [by right|assumption].
        * intros [H|(r & t & e & Hr & Hleg)]; [by left; left|].
          apply elem_of_cons in Hr as [->|Hr].
          -- left. right. by exists t, e.
          -- right. by exists r, t, e. }
  intros H. destruct (Hgen _ _ _ _ _ H) as [H1 H2]. split.
  - intros leg. rewrite H1. split; [|by right].
    intros [Hnil|Hleg]; [inversion Hnil|assumption].
  - intros key leg. rewrite H2. split; [|by right].
    intros [Hnil|Hleg]; [|assumption].
    unfold legs_at in Hnil. rewrite lookup_empty in Hnil. inversion Hnil.
Qed.

Lemma first_leg_at_filter (resolved_from : string) (after : Z)
    (route : RouteRow) (start_idx transfer_idx : nat) (leg : Leg) :
  first_leg_at resolved_from (Some after) route start_idx transfer_idx leg
  <-> first_leg_at resolved_from None route start_idx transfer_idx leg
      /\ after <= l_departure_minutes leg.
Proof.
  unfold first_leg_at. split.
  - intros (Hidx & Hlt & Hafter & ts & d & Hts & Hd & ->).
    split; [|by apply Hafter].
    split; [assumption|]. split; [assumption|]. split; [discriminate|].
    by exists ts, d.
  - intros [(Hidx & Hlt & _ & ts & d & Hts & Hd & ->) Hafter].
    split; [assumption|]. split; [assumption|].
    split; [by intros ? [= <-]|]. by exists ts, d.
Qed.

(** C10. The time filter of [suggest_alternative] bears on the first legs
    and on them only: with a filter the first legs are those of the
    unfiltered search that depart at or after the filter time, and the
    second legs are the same with and without it.  On the sample timetable
    [late], with the filter 09:00, the plan returned has a second leg that
    leaves at 08:00, before the filter time and before the first leg
    (10:00), and its total counts no waiting time.  On the timetable
    [soon], which has one more first bus at 08:30, that bus gives the plan
    without a filter, and the filter 09:00 excludes it. *)
Theorem second_leg_before_filter :
  (forall self resolved_from resolved_to after first first' second second',
      collect_legs self resolved_from resolved_to (Some after)
      = Ok (first, second) ->
      collect_legs self resolved_from resolved_to None = Ok (first', second') ->
      second = second'
      /\ forall leg,
           leg ∈ first
           <-> leg ∈ first' /\ after <= l_departure_minutes leg)
  /\ _parse_time "09:00" = Some 540
  /\ best_plan Sample.late "A" "C" (Some 540)
     = Ok (Some ((35, 600, 480, "30"), Sample.late_plan))
  /\ suggest_alternative Sample.late "A" "C" "09:00"
     = Ok (Some Sample.late_plan)
  /\ (exists departure1 departure2,
        _clock_to_minutes (p_departure_time (t_leg1 Sample.late_plan))
        = Ok departure1
        /\ _clock_to_minutes (p_departure_time (t_leg2 Sample.late_plan))
           = Ok departure2
        /\ departure2 < 540
        /\ departure2 < departure1
        /\ t_total_duration_minutes Sample.late_plan
           = p_duration_minutes (t_leg1 Sample.late_plan)
             + p_duration_minutes (t_leg2 Sample.late_plan) + 0)
  /\ suggest_alternative Sample.soon "A" "C" ""
     = Ok (Some Sample.soon_plan)
  /\ suggest_alternative Sample.soon "A" "C" "09:00"
     = Ok (Some Sample.late_plan)
  /\ _clock_to_minutes (p_departure_time (t_leg1 Sample.soon_plan))
     = Ok 510
  /\ 510 < 540.
Proof.
  split.
  { intros self rf rt after first first' second second' Hlegs Hlegs'.
    split; [by eapply second_legs_ignore_filter|].
    apply collect_legs_elem in Hlegs as [Hfirst _].
    apply collect_legs_elem in Hlegs' as [Hfirst' _].
    intros leg. rewrite Hfirst, Hfirst'. split.
    - intros (route & s & t & Hroute & Hleg).
      apply first_leg_at_filter in Hleg as [Hleg Hafter].
      split; [|assumption]. by exists route, s, t.
    - intros [(route & s & t & Hroute & Hleg) Hafter].
      exists route, s, t. split; [assumption|].
      by apply first_leg_at_filter. }
  split; [vm_compute; reflexivity|].
  split; [vm_compute; reflexivity|].
  split; [vm_compute; reflexivity|].
  split; [exists 600, 480; vm_compute; repeat split; reflexivity|].
  split; [vm_compute; reflexivity|].
  split; [vm_compute; reflexivity|].
  split; [vm_compute; reflexivity|].
  reflexivity.
Qed.

(** ** The plan that [suggest_alternative] keeps *)

Lemma key4_ltb_asym (x y : Z * Z * Z * string) :
  key4_ltb x y = true -> key4_ltb y x = false.
Proof.
  destruct x as [[[a1 b1] c1] d1], y as [[[a2 b2] c2] d2].
  cbn [key4_ltb].
  destruct (Z.eqb_spec a1 a2), (Z.eqb_spec a2 a1); cbn [negb]; try lia.
  apply key3_ltb_asym.
Qed.

Lemma key4_ltb_negtrans (x y z : Z * Z * Z * string) :
  key4_ltb x y = false -> key4_ltb y z = false -> key4_ltb x z = false.
Proof.
  destruct x as [[[a1 b1] c1] d1], y as [[[a2 b2] c2] d2],
    z as [[[a3 b3] c3] d3]. cbn [key4_ltb].
  destruct (Z.eqb_spec a1 a2), (Z.eqb_spec a2 a3), (Z.eqb_spec a1 a3);
    cbn [negb]; try lia.
  apply key3_ltb_negtrans.
Qed.

Lemma key4_ltb_irrefl (x : Z * Z * Z * string) : key4_ltb x x = false.
Proof.
  destruct (key4_ltb x x) eqn:H; [|reflexivity].
  by rewrite (key4_ltb_asym _ _ H) in H.
Qed.

Lemma plan_step_cases (resolved_from resolved_to : string)
    (second : gmap string (list Leg))
    (best best' : option ((Z * Z * Z * string) * TransferPlan)) (leg1 : Leg) :
  plan_step resolved_from resolved_to second best leg1 = Ok best' ->
  (best' = best /\ forall leg2, ~ pairing second leg1 leg2)
  \/ exists leg2,
       pairing second leg1 leg2
       /\ best'
          = let new :=
              (pair_key leg1 leg2,
               plan_payload resolved_from resolved_to leg1 leg2
                 (pair_total leg1 leg2)) in
            match best with
            | None => Some new
            | Some old => if key4_ltb new.1 old.1 then Some new else best
            end.
Proof.
  unfold plan_step, pairing.
  fold (legs_at second (_normalize (l_transfer_stop leg1))).
  destruct (legs_at second (_normalize (l_transfer_stop leg1)))
    as [|c legs] eqn:Hlegs.
  { intros [= <-]. left. split; [reflexivity|]. by intros leg2 [? _]. }
  destruct (_best_second_leg_for_first_leg _ _) as [leg2|] eqn:Hleg2;
    [|discriminate].
  simpl. destruct (same_endpoints leg1 leg2) as [[|]|] eqn:Hsame;
    simpl; [| |discriminate].
  - intros [= <-]. left. split; [reflexivity|].
    intros leg2' (_ & [= <-] & Hsame'). congruence.
  - intros H. right. exists leg2. split; [by repeat split|].
    destruct best as [[bkey bplan]|]; simpl.
    + revert H. unfold pair_key, pair_total. simpl.
      match goal with
      | |- (if ?c then _ else _) = _ -> _ => destruct c
      end; by intros [= <-].
    + by injection H as <-.
Qed.

Lemma plan_loop_spec (resolved_from resolved_to : string)
    (second : gmap string (list Leg)) (first_legs : list Leg)
    (best : option ((Z * Z * Z * string) * TransferPlan)) :
  foldM (plan_step resolved_from resolved_to second) first_legs None
  = Ok best ->
  match best with
  | None => forall leg1 leg2, leg1 ∈ first_legs -> ~ pairing second leg1 leg2
  | Some (key, plan) =>
      (exists leg1 leg2,
          leg1 ∈ first_legs
          /\ pairing second leg1 leg2
          /\ key = pair_key leg1 leg2
          /\ plan = plan_payload resolved_from resolved_to leg1 leg2
                      (pair_total leg1 leg2))
      /\ forall leg1 leg2,
           leg1 ∈ first_legs -> pairing second leg1 leg2 ->
           key4_ltb (pair_key leg1 leg2) key = false
  end.
Proof.
  revert best. induction first_legs as [|x l IH] using rev_ind; intros best.
  - intros [= <-]. intros leg1 leg2 H. inversion H.
  - rewrite foldM_app. intros H.
    apply rbind_Ok in H as (best0 & Hl & H). simpl in H.
    apply rbind_Ok in H as (best1 & Hstep & [= <-]).
    specialize (IH best0 Hl).
    apply plan_step_cases in Hstep as [[-> Hnone]|(leg2 & Hpair & ->)].
    + destruct best0 as [[key plan]|].
      * destruct IH as [(leg1 & leg2 & Hin & Hrest) Hmin]. split.
        -- exists leg1, leg2. split; [|assumption].
           apply elem_of_app. by left.
        -- intros leg1' leg2' [Hin'|Hin']%elem_of_app; [by apply Hmin|].
           apply list_elem_of_singleton in Hin' as ->.
           intros Hcontra. by apply Hnone in Hcontra.
      * intros leg1 leg2' [Hin|Hin]%elem_of_app; [by apply IH|].
        apply list_elem_of_singleton in Hin as ->. apply Hnone.
    + assert (Hunique : forall leg2',
                 pairing second x leg2' -> leg2' = leg2).
      { intros leg2' (_ & H2' & _). destruct Hpair as (_ & H2 & _).
        congruence. }
      destruct best0 as [[key plan]|]; cbv zeta; cbn [fst].
      * destruct IH as [(leg1 & leg2' & Hin & Hrest) Hmin].
        destruct (key4_ltb (pair_key x leg2) key) eqn:Hlt.
        -- split.
           ++ exists x, leg2. split; [|split; [assumption|by split]].
              apply elem_of_app. right. by left.
           ++ intros leg1' leg2'' [Hin'|Hin']%elem_of_app Hpair'.
              ** eapply key4_ltb_negtrans; [by apply Hmin|].
                 by apply key4_ltb_asym.
              ** apply list_elem_of_singleton in Hin' as ->.
                 rewrite (Hunique _ Hpair'). apply key4_ltb_irrefl.
        -- split.
           ++ exists leg1, leg2'. split; [|assumption].
              apply elem_of_app. by left.
           ++ intros leg1' leg2'' [Hin'|Hin']%elem_of_app Hpair'.
              ** by apply Hmin.
              ** apply list_elem_of_singleton in Hin' as ->.
                 by rewrite (Hunique _ Hpair').
      * split.
        -- exists x, leg2. split; [|split; [assumption|by split]].
           apply elem_of_app. right. by left.
        -- intros leg1' leg2'' [Hin'|Hin']%elem_of_app Hpair'.
           ++ by apply IH in Hpair'.
           ++ apply list_elem_of_singleton in Hin' as ->.
              rewrite (Hunique _ Hpair'). apply key4_ltb_irrefl.
Qed.

Lemma suggest_alternative_Ok (self : TransportAgent)
    (from_stop to_stop after_time : string) (result : option TransferPlan) :
  suggest_alternative self from_stop to_stop after_time = Ok result ->
  (result = None
   /\ (unresolved (_resolve_stop self from_stop) = true
       \/ unresolved (_resolve_stop self to_stop) = true))
  \/ exists resolved_from resolved_to first_legs second best,
       _resolve_stop self from_stop = Some resolved_from
       /\ _resolve_stop self to_stop = Some resolved_to
       /\ collect_legs self resolved_from resolved_to
            (_parse_time after_time) = Ok (first_legs, second)
       /\ foldM (plan_step resolved_from resolved_to second) first_legs None
          = Ok best
       /\ result = snd <$> best.
Proof.
  unfold suggest_alternative.
  destruct (unresolved (_resolve_stop self from_stop)) eqn:Hfrom.
  { intros [= <-]. left. split; [reflexivity|by left]. }
  destruct (unresolved (_resolve_stop self to_stop)) eqn:Hto.
  { intros [= <-]. left. split; [reflexivity|by right]. }
  simpl.
  destruct (_resolve_stop self from_stop) as [rf|]; [|discriminate].
  destruct (_resolve_stop self to_stop) as [rt|]; [|discriminate].
  simpl. intros H. apply rbind_Ok in H as (best & Hbest & [= <-]).
  unfold best_plan in Hbest.
  apply rbind_Ok in Hbest as ([first second] & Hlegs & Hfold).
  right. by exists rf, rt, first, second, best.
Qed.

(** X15. The plan that [suggest_alternative] returns pairs a first leg of
    a route through the resolved [from] stop, departing at or after the
    filter time, with a second leg of a route through the resolved [to]
    stop that starts at a stop with the normalized name of the transfer
    stop; the plan carries the bus numbers, departure times, segment
    durations and stop slices of these two legs, and its total is the sum
    of the two durations and of the time from the first departure to the
    second one when that is positive. *)
Theorem suggest_alternative_legs (self : TransportAgent)
    (from_stop to_stop after_time : string) (plan : TransferPlan) :
  suggest_alternative self from_stop to_stop after_time = Ok (Some plan) ->
  exists resolved_from resolved_to route1 start_idx transfer_idx leg1
         route2 transfer_idx2 end_idx leg2,
    _resolve_stop self from_stop = Some resolved_from
    /\ _resolve_stop self to_stop = Some resolved_to
    /\ route1 ∈ routes self
    /\ first_leg_at resolved_from (_parse_time after_time) route1
         start_idx transfer_idx leg1
    /\ route2 ∈ routes self
    /\ second_leg_at resolved_to route2 transfer_idx2 end_idx leg2
    /\ _normalize (l_transfer_stop leg2) = _normalize (l_transfer_stop leg1)
    /\ plan = plan_payload resolved_from resolved_to leg1 leg2
                (pair_total leg1 leg2).
Proof.
  intros H.
  apply suggest_alternative_Ok in H
    as [[[=] _]|(rf & rt & first & second & best & Hrf & Hrt & Hlegs
                 & Hfold & Hbest)].
  destruct best as [[key plan']|]; [|discriminate].
  injection Hbest as ->.
  apply plan_loop_spec in Hfold
    as [(leg1 & leg2 & Hin & (_ & Hleg2 & _) & _ & ->) _].
  apply collect_legs_elem in Hlegs as [Hfirst Hsecond].
  apply Hfirst in Hin as (route1 & s & t & Hroute1 & Hleg1).
  apply _best_second_leg_elem, Hsecond in Hleg2
    as (route2 & u & e & Hroute2 & Hsecond2 & Hkey).
  by exists rf, rt, route1, s, t, leg1, route2, u, e, leg2.
Qed.

Lemma _segment_duration_min (route : RouteRow) (start_idx end_idx minutes : Z) :
  _segment_duration route start_idx end_idx = Ok minutes -> 5 <= minutes.
Proof.
  unfold _segment_duration. intros H.
  apply rbind_Ok in H as (fraction & _ & H).
  apply rbind_Ok in H as (duration & _ & H).
  apply rbind_Ok in H as (rounded & _ & [= <-]). lia.
Qed.

(** X16. In a plan that [suggest_alternative] returns each leg lasts at
    least 5 minutes, and the total duration is the sum of the durations of
    the two legs and of a waiting time that is not negative. *)
Theorem suggest_alternative_durations (self : TransportAgent)
    (from_stop to_stop after_time : string) (plan : TransferPlan) :
  suggest_alternative self from_stop to_stop after_time = Ok (Some plan) ->
  5 <= p_duration_minutes (t_leg1 plan)
  /\ 5 <= p_duration_minutes (t_leg2 plan)
  /\ exists wait,
       0 <= wait
       /\ t_total_duration_minutes plan
          = p_duration_minutes (t_leg1 plan)
            + p_duration_minutes (t_leg2 plan) + wait.
Proof.
  intros H.
  apply suggest_alternative_Ok in H
    as [[[=] _]|(rf & rt & first & second & best & Hrf & Hrt & Hlegs
                 & Hfold & Hbest)].
  destruct best as [[key plan']|]; [|discriminate].
  injection Hbest as ->.
  apply plan_loop_spec in Hfold
    as [(leg1 & leg2 & Hin & (_ & Hleg2 & _) & _ & ->) _].
  apply collect_legs_elem in Hlegs as [Hfirst Hsecond].
  apply Hfirst in Hin
    as (route1 & s & t & _ & _ & _ & _ & ts & d & _ & Hd & ->).
  apply _best_second_leg_elem, Hsecond in Hleg2
    as (route2 & u & e & _ & (_ & _ & ts2 & d2 & _ & Hd2 & ->) & _).
  apply _segment_duration_min in Hd, Hd2. simpl.
  split; [assumption|]. split; [assumption|].
  exists (Z.max 0 (departure_minutes route2 - departure_minutes route1)).
  split; [lia|reflexivity].
Qed.

(** X17. Among the pairings that the loop of [suggest_alternative]
    keeps, the plan returned is one whose key (total duration, first
    departure, second departure, first bus number) no other is below: no
    kept pairing has a smaller total duration.  Nothing is returned
    exactly when no pairing is kept. *)
Theorem suggest_alternative_minimal (self : TransportAgent)
    (from_stop to_stop after_time resolved_from resolved_to : string)
    (result : option TransferPlan) :
  _resolve_stop self from_stop = Some resolved_from ->
  _resolve_stop self to_stop = Some resolved_to ->
  resolved_from <> "" ->
  resolved_to <> "" ->
  suggest_alternative self from_stop to_stop after_time = Ok result ->
  exists first_legs second,
    collect_legs self resolved_from resolved_to (_parse_time after_time)
    = Ok (first_legs, second)
    /\ match result with
       | None =>
           forall leg1 leg2,
             leg1 ∈ first_legs -> ~ pairing second leg1 leg2
       | Some plan =>
           exists leg1 leg2,
             leg1 ∈ first_legs
             /\ pairing second leg1 leg2
             /\ plan = plan_payload resolved_from resolved_to leg1 leg2
                         (pair_total leg1 leg2)
             /\ forall leg1' leg2',
                  leg1' ∈ first_legs -> pairing second leg1' leg2' ->
                  key4_ltb (pair_key leg1' leg2') (pair_key leg1 leg2)
                  = false
                  /\ t_total_duration_minutes plan <= pair_total leg1' leg2'
       end.
Proof.
  intros Hrf Hrt Hnf Hnt H.
  apply suggest_alternative_Ok in H
    as [[_ Hun]|(rf & rt & first & second & best & Hrf' & Hrt' & Hlegs
                 & Hfold & ->)].
  { exfalso. rewrite Hrf, Hrt in Hun.
    destruct resolved_from, resolved_to; try done. by destruct Hun. }
  rewrite Hrf in Hrf'. rewrite Hrt in Hrt'.
  injection Hrf' as <-. injection Hrt' as <-.
  exists first, second. split; [assumption|].
  apply plan_loop_spec in Hfold.
  destruct best as [[key plan]|]; simpl; [|assumption].
  destruct Hfold as [(leg1 & leg2 & Hin & Hpair & -> & ->) Hmin].
  exists leg1, leg2. split; [assumption|]. split; [assumption|].
  split; [reflexivity|].
  intros leg1' leg2' Hin' Hpair'.
  pose proof (Hmin leg1' leg2' Hin' Hpair') as Hle.
  split; [assumption|]. simpl.
  unfold pair_key, key4_ltb in Hle.
  destruct (Z.eqb_spec (pair_total leg1' leg2') (pair_total leg1 leg2));
    simpl in Hle; [lia|].
  destruct (Z.ltb_spec (pair_total leg1' leg2') (pair_total leg1 leg2));
    [discriminate|lia].
Qed.

(** X18. The first legs that [suggest_alternative] collects are exactly
    the legs from the first position of the resolved [from] stop to a later
    stop, on the routes that depart at or after the filter time; the second
    legs filed under a key are exactly the legs from a stop with that
    normalized name to the first position of the resolved [to] stop, which
    comes later, on any route. *)
Theorem collect_legs_complete (self : TransportAgent)
    (resolved_from resolved_to : string) (after_minutes : option Z)
    (first_legs : list Leg) (second : gmap string (list Leg)) :
  collect_legs self resolved_from resolved_to after_minutes
  = Ok (first_legs, second) ->
  (forall leg,
      leg ∈ first_legs
      <-> exists route start_idx transfer_idx,
            route ∈ routes self
            /\ first_leg_at resolved_from after_minutes route
                 start_idx transfer_idx leg)
  /\ (forall key leg,
        leg ∈ legs_at second key
        <-> exists route transfer_idx end_idx,
              route ∈ routes self
              /\ second_leg_at resolved_to route transfer_idx end_idx leg
              /\ _normalize (l_transfer_stop leg) = key).
Proof. apply collect_legs_elem. Qed.

(** ** [suggest_alternative] does not raise *)

Lemma _segment_duration_Ok (route : RouteRow) (start_idx end_idx : nat) :
  (start_idx < end_idx < length (stops route))%nat ->
  Z.of_nat (length (stops route)) < 2 ^ 63 ->
  Z.abs (duration_minutes route) < 2 ^ 53 ->
  exists minutes,
    _segment_duration route (Z.of_nat start_idx) (Z.of_nat end_idx)
    = Ok minutes.
Proof.
  intros Hleg Hlen Hduration.
  destruct (segment_duration_binary64 route start_idx end_idx
              Hleg Hlen Hduration) as (fraction & rounded & _ & _ & H).
  by eexists.
Qed.

Lemma _find_stop_index_lt (stops : list string) (stop_name : string)
    (i : nat) :
  _find_stop_index stops stop_name = Some i -> (i < length stops)%nat.
Proof.
  unfold _find_stop_index. intros [H _]%index_Some.
  apply lookup_lt_Some in H. by rewrite length_map in H.
Qed.

Lemma add_first_legs_Ok (route : RouteRow) (start_idx : nat)
    (first_legs : list Leg) :
  Z.of_nat (length (stops route)) < 2 ^ 63 ->
  Z.abs (duration_minutes route) < 2 ^ 53 ->
  exists first_legs',
    add_first_legs route start_idx first_legs = Ok first_legs'.
Proof.
  intros Hlen Hduration. unfold add_first_legs.
  destruct (foldM_Ok (fun _ => True)
              (fun first_legs transfer_idx =>
                 let* transfer_stop := Py.getitem (stops route) transfer_idx in
                 let* duration :=
                   _segment_duration route (Z.of_nat start_idx)
                     (Z.of_nat transfer_idx) in
                 Ok (first_legs
                       ++ [leg_payload route transfer_stop duration
                             start_idx (transfer_idx + 1)]))
              (seq (start_idx + 1) (length (stops route) - (start_idx + 1)))
              first_legs) as (r & Hr & _); [|done|by exists r].
  intros acc t Ht _. apply elem_of_seq in Ht.
  destruct (lookup_lt_is_Some_2 (stops route) t ltac:(lia)) as [ts Hts].
  apply getitem_Ok in Hts. rewrite Hts. simpl.
  destruct (_segment_duration_Ok route start_idx t ltac:(lia) Hlen Hduration)
    as [d ->].
  simpl. by eexists.
Qed.

Lemma add_second_legs_Ok (route : RouteRow) (end_idx : nat)
    (second : gmap string (list Leg)) :
  (end_idx < length (stops route))%nat ->
  Z.of_nat (length (stops route)) < 2 ^ 63 ->
  Z.abs (duration_minutes route) < 2 ^ 53 ->
  exists second', add_second_legs route end_idx second = Ok second'.
Proof.
  intros Hend Hlen Hduration. unfold add_second_legs.
  destruct (foldM_Ok (fun _ => True)
              (fun (second_legs_by_transfer : gmap string (list Leg))
                   transfer_idx =>
                 let* transfer_stop := Py.getitem (stops route) transfer_idx in
                 let* duration :=
                   _segment_duration route (Z.of_nat transfer_idx)
                     (Z.of_nat end_idx) in
                 let leg := leg_payload route transfer_stop duration
                              transfer_idx (end_idx + 1) in
                 let transfer_key := _normalize transfer_stop in
                 Ok (<[transfer_key :=
                         default [] (second_legs_by_transfer !! transfer_key)
                         ++ [leg]]>
                       second_legs_by_transfer))
              (seq 0 end_idx) second) as (r & Hr & _); [|done|by exists r].
  intros acc t Ht _. apply elem_of_seq in Ht.
  destruct (lookup_lt_is_Some_2 (stops route) t ltac:(lia)) as [ts Hts].
  apply getitem_Ok in Hts. rewrite Hts. simpl.
  destruct (_segment_duration_Ok route t end_idx ltac:(lia) Hlen Hduration)
    as [d ->].
  simpl. by eexists.
Qed.

Lemma collect_legs_Ok (self : TransportAgent)
    (resolved_from resolved_to : string) (after_minutes : option Z) :
  Forall (fun route =>
            Z.of_nat (length (stops route)) < 2 ^ 63
            /\ Z.abs (duration_minutes route) < 2 ^ 53)
    (routes self) ->
  exists legs,
    collect_legs self resolved_from resolved_to after_minutes = Ok legs.
Proof.
  intros Hroutes. unfold collect_legs.
  destruct (foldM_Ok (fun _ => True)
              (fun '(first_legs, second_legs_by_transfer) route =>
                 let* first_legs :=
                   match _find_stop_index (stops route) resolved_from with
                   | Some start_idx =>
                       if match after_minutes with
                          | None => true
                          | Some after => after <=? departure_minutes route
                          end
                       then add_first_legs route start_idx first_legs
                       else Ok first_legs
                   | None => Ok first_legs
                   end in
                 let* second_legs_by_transfer :=
                   match _find_stop_index (stops route) resolved_to with
                   | Some end_idx =>
                       add_second_legs route end_idx second_legs_by_transfer
                   | None => Ok second_legs_by_transfer
                   end in
                 Ok (first_legs, second_legs_by_transfer))
              (routes self) ([], ∅)) as (r & Hr & _); [|done|by exists r].
  intros [first second] route Hroute _.
  rewrite Forall_forall in Hroutes.
  destruct (Hroutes route Hroute) as [Hlen Hduration].
  assert (Hfirst : exists first',
             match _find_stop_index (stops route) resolved_from with
             | Some start_idx =>
                 if match after_minutes with
                    | None => true
                    | Some after => after <=? departure_minutes route
                    end
                 then add_first_legs route start_idx first
                 else Ok first
             | None => Ok first
             end = Ok first').
  { destruct (_find_stop_index (stops route) resolved_from) as [s|];
      [|by eexists].
    destruct (match after_minutes with None => _ | Some _ => _ end);
      [|by eexists].
    by apply add_first_legs_Ok. }
  destruct Hfirst as [first' ->]. simpl.
  assert (Hsecond : exists second',
             match _find_stop_index (stops route) resolved_to with
             | Some end_idx => add_second_legs route end_idx second
             | None => Ok second
             end = Ok second').
  { destruct (_find_stop_index (stops route) resolved_to) as [e|] eqn:He;
      [|by eexists].
    apply add_second_legs_Ok; [|assumption..].
    by eapply _find_stop_index_lt. }
  destruct Hsecond as [second' ->]. simpl. by eexists.
Qed.

Lemma plan_step_Ok (resolved_from resolved_to : string)
    (second : gmap string (list Leg))
    (best : option ((Z * Z * Z * string) * TransferPlan)) (leg1 : Leg) :
  second_legs_ok second ->
  first_leg_ok leg1 ->
  exists best', plan_step resolved_from resolved_to second best leg1 = Ok best'.
Proof.
  intros Hsecond Hleg1. unfold plan_step.
  destruct (second !! _normalize (l_transfer_stop leg1)) as [legs|] eqn:Hlegs;
    simpl; [|by eexists].
  destruct legs as [|c legs]; [by eexists|].
  unfold _best_second_leg_for_first_leg.
  destruct (Py.sorted _ (c :: legs)) as [|leg2 rest] eqn:Hsorted.
  { by apply sorted_nil_inv in Hsorted. }
  assert (Hin : leg2 ∈ c :: legs).
  { rewrite <- (sorted_perm
                  (fun x y => key3_ltb (key_fn (l_departure_minutes leg1) x)
                                (key_fn (l_departure_minutes leg1) y))
                  (c :: legs)), Hsorted. left. }
  simpl. destruct (Hsecond _ _ _ Hlegs Hin) as [Hhead2 _].
  assert (Hsame : exists same, same_endpoints leg1 leg2 = Ok same).
  { unfold first_leg_ok in Hleg1. unfold same_endpoints, Py.last.
    rewrite Hleg1.
    destruct (l_stops leg1) as [|f1 s1]; [discriminate|].
    destruct (l_stops leg2) as [|f2 s2] eqn:Hs2; [discriminate|].
    destruct (last (f2 :: s2)) as [l2|] eqn:Hl2;
      [|by apply last_None in Hl2].
    simpl. destruct (bool_decide _); simpl; by eexists. }
  destruct Hsame as [same ->]. simpl.
  destruct same; [by eexists|].
  destruct best as [[bkey bplan]|]; [|by eexists].
  match goal with
  | |- exists _, (if ?c then _ else _) = _ => destruct c
  end; by eexists.
Qed.

(** X19. On a timetable whose routes have durations below [2^53] in
    absolute value and fewer than [2^63] stops, [suggest_alternative]
    returns without raising, whatever the texts are. *)
Theorem suggest_alternative_never_raises (self : TransportAgent)
    (from_stop to_stop after_time : string) :
  Forall (fun route =>
            Z.of_nat (length (stops route)) < 2 ^ 63
            /\ Z.abs (duration_minutes route) < 2 ^ 53)
    (routes self) ->
  exists result,
    suggest_alternative self from_stop to_stop after_time = Ok result.
Proof.
  intros Hroutes. unfold suggest_alternative.
  destruct (unresolved _ || unresolved _); [by eexists|].
  unfold best_plan.
  destruct (collect_legs_Ok self (default "" (_resolve_stop self from_stop))
              (default "" (_resolve_stop self to_stop))
              (_parse_time after_time) Hroutes) as [[first second] Hlegs].
  rewrite Hlegs. simpl.
  apply collect_legs_ok in Hlegs as [Hfirst Hsecond].
  destruct (foldM_Ok (fun _ => True)
              (plan_step (default "" (_resolve_stop self from_stop))
                 (default "" (_resolve_stop self to_stop)) second)
              first None) as (best & -> & _); [|done|by eexists].
  intros acc leg1 Hleg1 _.
  rewrite Forall_forall in Hfirst.
  destruct (plan_step_Ok (default "" (_resolve_stop self from_stop))
              (default "" (_resolve_stop self to_stop)) second acc leg1
              Hsecond (Hfirst leg1 Hleg1)) as [best' ->].
  by eexists.
Qed.

(** ** The second leg that follows a first leg *)

(** X20. Of a list of candidates that is not empty,
    [_best_second_leg_for_first_leg] returns one with the least key (wait,
    duration, bus number); on the empty list it raises [IndexError]. *)
Theorem best_second_leg_minimal (candidates : list Leg) (first_departure : Z) :
  candidates <> [] ->
  exists leg,
    _best_second_leg_for_first_leg candidates first_departure = Ok leg
    /\ leg ∈ candidates
    /\ (forall other,
          other ∈ candidates ->
          key3_ltb (key_fn first_departure other) (key_fn first_departure leg)
          = false)
    /\ _best_second_leg_for_first_leg [] first_departure = Raise IndexError.
Proof.
  intros Hne. unfold _best_second_leg_for_first_leg.
  set (lt := fun x y => key3_ltb (key_fn first_departure x)
                          (key_fn first_departure y)).
  destruct (Py.sorted lt candidates) as [|leg rest] eqn:Hsorted.
  { by apply sorted_nil_inv in Hsorted. }
  destruct (sorted_head_min lt
              (fun x y => key3_ltb_asym _ _)
              (fun x y z => key3_ltb_negtrans _ _ _)
              candidates leg) as [Hin Hmin].
  { by rewrite Hsorted. }
  exists leg. by repeat split.
Qed.

(** The wait in the key of a second leg is the time from the first
    departure to the second one, counted to the next day when the second
    bus leaves earlier: for two times of day it is their difference modulo
    1440 minutes. *)
Lemma key_fn_wait (first_departure : Z) (leg : Leg) :
  0 <= first_departure < 1440 ->
  0 <= l_departure_minutes leg < 1440 ->
  key_fn first_departure leg
  = ((l_departure_minutes leg - first_departure) mod 1440,
     l_duration_minutes leg, l_bus_number leg).
Proof.
  intros Hfirst Hleg. unfold key_fn. f_equal. f_equal.
  destruct (Z.ltb_spec (l_departure_minutes leg - first_departure) 0).
  - apply Z.mod_unique with (q := -1); lia.
  - symmetry. apply Z.mod_small. lia.
Qed.

(** X21. When the first departure and the departures of the candidates
    are times of day, [_best_second_leg_for_first_leg] returns a candidate
    with the shortest wait, the wait being the time from the first
    departure to the departure of the candidate modulo 1440 minutes; of
    the candidates with that wait it returns one of the shortest
    duration. *)
Theorem best_second_leg_shortest_wait (candidates : list Leg)
    (first_departure : Z) :
  candidates <> [] ->
  0 <= first_departure < 1440 ->
  Forall (fun leg => 0 <= l_departure_minutes leg < 1440) candidates ->
  exists leg,
    _best_second_leg_for_first_leg candidates first_departure = Ok leg
    /\ leg ∈ candidates
    /\ forall other,
         other ∈ candidates ->
         (l_departure_minutes leg - first_departure) mod 1440
         <= (l_departure_minutes other - first_departure) mod 1440
         /\ ((l_departure_minutes other - first_departure) mod 1440
             = (l_departure_minutes leg - first_departure) mod 1440 ->
             l_duration_minutes leg <= l_duration_minutes other).
Proof.
  intros Hne Hfirst Hday. unfold _best_second_leg_for_first_leg.
  set (lt := fun x y => key3_ltb (key_fn first_departure x)
                          (key_fn first_departure y)).
  destruct (Py.sorted lt candidates) as [|leg rest] eqn:Hsorted.
  { by apply sorted_nil_inv in Hsorted. }
  destruct (sorted_head_min lt
              (fun x y => key3_ltb_asym _ _)
              (fun x y z => key3_ltb_negtrans _ _ _)
              candidates leg) as [Hin Hmin].
  { by rewrite Hsorted. }
  exists leg. split; [reflexivity|]. split; [assumption|].
  intros other Hother. specialize (Hmin other Hother). unfold lt in Hmin.
  rewrite Forall_forall in Hday.
  rewrite !key_fn_wait in Hmin by auto.
  set (wait := (l_departure_minutes leg - first_departure) mod 1440) in *.
  set (wait' := (l_departure_minutes other - first_departure) mod 1440) in *.
  simpl in Hmin.
  destruct (Z.eqb_spec wait' wait) as [Hw|Hw]; simpl in Hmin.
  - split; [lia|]. intros _.
    destruct (Z.eqb_spec (l_duration_minutes other) (l_duration_minutes leg));
      simpl in Hmin; [lia|].
    destruct (Z.ltb_spec (l_duration_minutes other) (l_duration_minutes leg));
      [discriminate|lia].
  - destruct (Z.ltb_spec wait' wait); [discriminate|]. split; lia.
Qed.

(** ** [_segment_duration] on the whole route and on longer segments *)

Lemma mul_one_canonical (s : bool) (m : positive) (e : Z) :
  Zpos (digits2_pos m) = 53 ->
  -1022 <= e <= 971 ->
  Float.mul (S754_finite s m e) Float.one = S754_finite s m e.
Proof.
  intros Hd He. unfold Float.mul, Float.one, SFmul.
  rewrite xorb_false_r, Pos.mul_comm.
  replace (Pos.mul 4503599627370496 m) with (Pos.iter xO m 52)
    by reflexivity.
  pose proof (digits_iter_xO m 52) as Hbig. rewrite Hd in Hbig.
  assert (Hiter : SpecFloat.iter_pos shr_1 52
                    {| shr_m := Zpos (Pos.iter xO m 52);
                       shr_r := false; shr_s := false |}
                  = {| shr_m := Zpos m; shr_r := false; shr_s := false |})
    by reflexivity.
  generalize dependent (Pos.iter xO m 52). intros big Hbig Hiter.
  unfold binary_round_aux.
  assert (Hshr : shr_fexp Float.prec Float.emax (Zpos big) (e + -52) loc_Exact
                 = ({| shr_m := Zpos m; shr_r := false; shr_s := false |}, e)).
  { unfold shr_fexp, fexp, emin, Float.prec, Float.emax. simpl Zdigits2.
    rewrite Hbig.
    replace (Z.max (53 + 52 + (e + -52) - 53) (3 - 1024 - 53) - (e + -52))
      with 52 by lia.
    unfold shr, shr_record_of_loc. rewrite Hiter. f_equal. lia. }
  rewrite Hshr. simpl.
  assert (Hshr' : shr_fexp Float.prec Float.emax (Zpos m) e loc_Exact
                  = ({| shr_m := Zpos m; shr_r := false; shr_s := false |}, e)).
  { unfold shr_fexp, fexp, emin, Float.prec, Float.emax. simpl Zdigits2.
    rewrite Hd.
    replace (Z.max (53 + e - 53) (3 - 1024 - 53) - e) with 0 by lia.
    reflexivity. }
  rewrite Hshr'. simpl. unfold Float.emax, Float.prec.
  destruct (Z.leb_spec e (1024 - 53)); [reflexivity|lia].
Qed.

Lemma round_mantissa (s : bool) (p : positive) :
  Zpos (digits2_pos p) <= 53 ->
  Float.round (S754_finite s (mantissa p) (Zpos (digits2_pos p) - 53))
  = Ok (if s then Zneg p else Zpos p).
Proof.
  intros Hd. unfold Float.round.
  pose proof (mantissa_value p Hd) as Hm.
  destruct (Zpos (digits2_pos p) - 53) as [|k|k] eqn:Hk; [|lia|].
  - replace (53 - Zpos (digits2_pos p)) with 0 in Hm by lia.
    rewrite Z.mul_1_r in *. rewrite Hm. by destruct s.
  - replace (53 - Zpos (digits2_pos p)) with (Zpos k) in Hm by lia.
    rewrite Hm. unfold Float.div_half_even.
    assert (0 < 2 ^ Zpos k) by (apply Z.pow_pos_nonneg; lia).
    rewrite Z.div_mul, Z.mod_mul by lia.
    destruct (Z.compare_spec (2 * 0) (2 ^ Zpos k)); try lia.
    by destruct s.
Qed.

Lemma int_truediv_same (a : Z) :
  0 < a -> Float.int_truediv a a = Ok Float.one.
Proof.
  intros Ha. unfold Float.int_truediv.
  destruct (Z.eqb_spec a 0); [lia|].
  destruct a as [|p|p]; try lia. simpl Float.exact. by rewrite div_same.
Qed.

(** X22. The segment that covers a whole route takes the duration of the
    route, or 5 minutes when the route is shorter than that. *)
Theorem segment_duration_whole_route (route : RouteRow) :
  (2 <= length (stops route))%nat ->
  Z.abs (duration_minutes route) < 2 ^ 53 ->
  _segment_duration route 0 (Z.of_nat (length (stops route)) - 1)
  = Ok (Z.max 5 (duration_minutes route)).
Proof.
  intros Hlen Hduration. unfold _segment_duration.
  rewrite Z.sub_0_r, int_truediv_same by lia. cbn [rbind].
  destruct (duration_minutes route) as [|p|p] eqn:Hd.
  - reflexivity.
  - assert (Hp : Zpos (digits2_pos p) <= 53) by (apply digits_le; lia).
    unfold Float.of_int_checked. rewrite of_int_exact by assumption.
    cbn [rbind].
    rewrite mul_one_canonical, round_mantissa;
      [reflexivity|assumption|by apply mantissa_digits|].
    pose proof (Pos2Z.is_pos (digits2_pos p)). lia.
  - assert (Hp : Zpos (digits2_pos p) <= 53) by (apply digits_le; lia).
    unfold Float.of_int_checked. rewrite of_int_exact_neg by assumption.
    cbn [rbind].
    rewrite mul_one_canonical, round_mantissa;
      [reflexivity|assumption|by apply mantissa_digits|].
    pose proof (Pos2Z.is_pos (digits2_pos p)). lia.
Qed.

(** X23. For a leg between two positions of a route of fewer than [2^63]
    stops whose duration is below [2^53] in absolute value,
    [_segment_duration] returns without raising, and what it returns is at
    least 5. *)
Theorem segment_duration_returns (route : RouteRow) (start_idx end_idx : nat) :
  (start_idx < end_idx < length (stops route))%nat ->
  Z.of_nat (length (stops route)) < 2 ^ 63 ->
  Z.abs (duration_minutes route) < 2 ^ 53 ->
  exists minutes,
    _segment_duration route (Z.of_nat start_idx) (Z.of_nat end_idx)
    = Ok minutes
    /\ 5 <= minutes.
Proof.
  intros Hleg Hlen Hduration.
  destruct (_segment_duration_Ok route start_idx end_idx Hleg Hlen Hduration)
    as [minutes H].
  exists minutes. split; [assumption|]. by eapply _segment_duration_min.
Qed.

Lemma _segment_duration_rounded (route : RouteRow) (start_idx end_idx : nat) :
  (start_idx < end_idx < length (stops route))%nat ->
  0 <= duration_minutes route ->
  3 * duration_minutes route * (Z.of_nat (length (stops route)) - 1) < 2 ^ 52 ->
  Z.of_nat (length (stops route)) < 2 ^ 63 ->
  let exact :=
    duration_minutes route * (Z.of_nat end_idx - Z.of_nat start_idx) in
  let total_edges := Z.of_nat (length (stops route)) - 1 in
  exists rounded,
    _segment_duration route (Z.of_nat start_idx) (Z.of_nat end_idx)
    = Ok (Z.max 5 rounded)
    /\ (2 * (exact mod total_edges) <> total_edges ->
        rounded = Float.div_half_even exact total_edges)
    /\ exact / total_edges <= rounded <= exact / total_edges + 1.
Proof.
  intros Hleg Hduration Hsmall Hlen exact total_edges.
  unfold _segment_duration. rewrite !Z.max_r by lia.
  destruct (round_product_exact (duration_minutes route)
              (Z.of_nat end_idx - Z.of_nat start_idx)
              (Z.of_nat (length (stops route)) - 1))
    as (fraction & duration & rounded & -> & -> & Hrounded & Hexact & Hnear);
    [lia..|].
  exists rounded. cbn [rbind]. rewrite Hrounded. by cbn [rbind].
Qed.

Lemma rounded_monotone (a a' te rounded rounded' : Z) :
  0 < te -> a < a' ->
  a / te <= rounded <= a / te + 1 ->
  (2 * (a mod te) <> te -> rounded = Float.div_half_even a te) ->
  a' / te <= rounded' <= a' / te + 1 ->
  (2 * (a' mod te) <> te -> rounded' = Float.div_half_even a' te) ->
  rounded <= rounded'.
Proof.
  intros Hte Ha Hr Hexact Hr' Hexact'.
  pose proof (Z.div_le_mono a a' te Hte ltac:(lia)) as Hq.
  pose proof (Z.div_mod a te ltac:(lia)) as Hdiv.
  pose proof (Z.div_mod a' te ltac:(lia)) as Hdiv'.
  pose proof (Z.mod_pos_bound a te Hte) as Hmod.
  pose proof (Z.mod_pos_bound a' te Hte) as Hmod'.
  destruct (Z.eq_dec (a / te) (a' / te)) as [Heq|Hne]; [|lia].
  assert (Hlt : a mod te < a' mod te) by (rewrite Heq in Hdiv; lia).
  unfold Float.div_half_even in *.
  destruct (Z.compare_spec (2 * (a' mod te)) te) as [Htie|Hlow|Hhigh].
  - specialize (Hexact ltac:(lia)).
    destruct (Z.compare_spec (2 * (a mod te)) te); lia.
  - specialize (Hexact ltac:(lia)).
    destruct (Z.compare_spec (2 * (a mod te)) te); lia.
  - specialize (Hexact' ltac:(lia)). lia.
Qed.

(** X24. On a route whose duration is not negative and small enough that
    three times its product with the number of edges stays below [2^52],
    a segment of more edges never gets a shorter duration than one of
    fewer edges. *)
Theorem segment_duration_monotone (route : RouteRow)
    (start_idx end_idx start_idx' end_idx' : nat) :
  (start_idx < end_idx < length (stops route))%nat ->
  (start_idx' < end_idx' < length (stops route))%nat ->
  (end_idx - start_idx <= end_idx' - start_idx')%nat ->
  0 <= duration_minutes route ->
  3 * duration_minutes route * (Z.of_nat (length (stops route)) - 1) < 2 ^ 52 ->
  Z.of_nat (length (stops route)) < 2 ^ 63 ->
  exists minutes minutes',
    _segment_duration route (Z.of_nat start_idx) (Z.of_nat end_idx)
    = Ok minutes
    /\ _segment_duration route (Z.of_nat start_idx') (Z.of_nat end_idx')
       = Ok minutes'
    /\ minutes <= minutes'.
Proof.
  intros Hleg Hleg' Hle Hduration Hsmall Hlen.
  destruct (_segment_duration_rounded route start_idx end_idx
              Hleg Hduration Hsmall Hlen) as (r & Hr & Hexact & Hnear).
  destruct (_segment_duration_rounded route start_idx' end_idx'
              Hleg' Hduration Hsmall Hlen) as (r' & Hr' & Hexact' & Hnear').
  exists (Z.max 5 r), (Z.max 5 r').
  split; [assumption|]. split; [assumption|].
  destruct (Z.eq_dec
              (duration_minutes route
               * (Z.of_nat end_idx - Z.of_nat start_idx))
              (duration_minutes route
               * (Z.of_nat end_idx' - Z.of_nat start_idx'))) as [Heq|Hne].
  - assert (Hsame : Z.max 5 r = Z.max 5 r'); [|lia].
    destruct (Z.eq_dec (duration_minutes route) 0) as [Hzero|Hpos].
    + assert (Hr0 : forall x, 0 / (Z.of_nat (length (stops route)) - 1)
                               <= x
                               <= 0 / (Z.of_nat (length (stops route)) - 1) + 1
                               -> (2 * (0 mod (Z.of_nat (length (stops route))
                                               - 1))
                                   <> Z.of_nat (length (stops route)) - 1
                                   -> x = Float.div_half_even 0
                                            (Z.of_nat (length (stops route))
                                             - 1))
                               -> x = 0).
      { intros x _ Hx. rewrite Hx.
        - unfold Float.div_half_even. rewrite Z.div_0_l, Z.mod_0_l by lia.
          by destruct (Z.compare_spec (2 * 0)
                         (Z.of_nat (length (stops route)) - 1)); [lia| |lia].
        - rewrite Z.mod_0_l by lia. lia. }
      rewrite Hzero, !Z.mul_0_l in *.
      by rewrite (Hr0 r Hnear Hexact), (Hr0 r' Hnear' Hexact').
    + assert (Hedges : Z.of_nat end_idx - Z.of_nat start_idx
                       = Z.of_nat end_idx' - Z.of_nat start_idx')
        by (by apply (Z.mul_reg_l _ _ (duration_minutes route))).
      unfold _segment_duration in Hr, Hr'. rewrite Hedges in Hr.
      rewrite Hr in Hr'. by injection Hr'.
  - assert (r <= r'); [|lia].
    assert (Hmono : duration_minutes route
                    * (Z.of_nat end_idx - Z.of_nat start_idx)
                    <= duration_minutes route
                       * (Z.of_nat end_idx' - Z.of_nat start_idx'))
      by (apply Z.mul_le_mono_nonneg_l; lia).
    apply (rounded_monotone
             (duration_minutes route
              * (Z.of_nat end_idx - Z.of_nat start_idx))
             (duration_minutes route
              * (Z.of_nat end_idx' - Z.of_nat start_idx'))
             (Z.of_nat (length (stops route)) - 1)).
    + lia.
    + lia.
    + exact Hnear.
    + exact Hexact.
    + exact Hnear'.
    + exact Hexact'.
Qed.

(** ** The rows that [_load_csv] returns *)

Lemma lbind_Loaded {A B : Type} (c : loaded A) (f : A -> loaded B) (r : B) :
  lbind c f = Loaded r -> exists a, c = Loaded a /\ f a = Loaded r.
Proof. destruct c as [a|e]; simpl; [eauto|discriminate]. Qed.

Lemma load_rows_Loaded (reader : list (gmap string (option string)))
    (acc rows : list RouteRow) :
  load_rows reader acc = Loaded rows
  <-> exists new,
        Forall2 (fun row route => load_row row = Loaded route) reader new
        /\ rows = acc ++ new.
Proof.
  revert acc. induction reader as [|row reader IH]; intros acc; simpl.
  - split.
    + intros [= <-]. exists []. split; [constructor|by rewrite app_nil_r].
    + intros (new & Hnew & ->). apply Forall2_nil_inv_l in Hnew as ->.
      by rewrite app_nil_r.
  - split.
    + intros (route & Hrow & Hrest)%lbind_Loaded.
      apply IH in Hrest as (new & Hnew & ->).
      exists (route :: new). split; [by constructor|].
      by rewrite <- app_assoc.
    + intros (new & Hnew & ->).
      apply Forall2_cons_inv_l in Hnew as (route & new' & Hrow & Hnew & ->).
      rewrite Hrow. simpl. apply IH. exists new'.
      split; [assumption|]. by rewrite <- app_assoc.
Qed.

Lemma _load_csv_Loaded (reader : list (gmap string (option string)))
    (rows : list RouteRow) :
  _load_csv reader = Loaded rows
  <-> Forall2 (fun row route => load_row row = Loaded route) reader rows.
Proof.
  unfold _load_csv. rewrite load_rows_Loaded. split.
  - by intros (new & Hnew & ->).
  - intros H. by exists rows.
Qed.

Lemma _load_csv_elem (reader : list (gmap string (option string)))
    (rows : list RouteRow) (route : RouteRow) :
  _load_csv reader = Loaded rows ->
  route ∈ rows ->
  exists row, row ∈ reader /\ load_row row = Loaded route.
Proof.
  intros H Hroute. apply _load_csv_Loaded in H.
  apply list_elem_of_lookup in Hroute as [i Hi].
  destruct (Forall2_lookup_r _ _ _ _ _ H Hi) as (row & Hrow & Hload).
  exists row. split; [|assumption]. by eapply list_elem_of_lookup_2.
Qed.

Lemma load_row_Loaded (row : gmap string (option string)) (route : RouteRow) :
  load_row row = Loaded route ->
  (exists stops_text,
      row !! "stops" = Some (Some stops_text)
      /\ stops route
         = Py.strip
             <$> List.filter (fun stop => Py.truthy (Py.strip stop))
                   (Builtin.split_char "|" stops_text))
  /\ _clock_to_minutes (departure_time route) = Ok (departure_minutes route)
  /\ exists duration_text,
       row !! "duration_minutes" = Some (Some duration_text)
       /\ Builtin.int duration_text = Ok (duration_minutes route).
Proof.
  unfold load_row, stripped, field, text. intros H.
  destruct (row !! "stops") as [[stops_text|]|]; try discriminate.
  simpl in H.
  destruct (row !! "departure_time") as [[departure|]|]; try discriminate.
  destruct (row !! "route_id") as [[route_id|]|]; try discriminate.
  destruct (row !! "from_stop") as [[from_stop|]|]; try discriminate.
  destruct (row !! "to_stop") as [[to_stop|]|]; try discriminate.
  destruct (row !! "bus_number") as [[bus_number|]|]; try discriminate.
  simpl in H.
  destruct (_clock_to_minutes (Py.strip departure)) as [minutes|] eqn:Hclock;
    try discriminate.
  simpl in H.
  destruct (row !! "duration_minutes") as [[duration_text|]|];
    try discriminate.
  simpl in H.
  destruct (Builtin.int duration_text) as [duration|] eqn:Hint;
    try discriminate.
  injection H as <-. simpl.
  split; [by exists stops_text|]. split; [assumption|].
  by exists duration_text.
Qed.

Lemma lstrip_of_blank (s : string) : blank s = true -> Py.lstrip s = "".
Proof.
  unfold blank. induction s as [|c s IH]; [done|]. simpl.
  intros [Hc Hs]%andb_true_iff. rewrite Hc. by apply IH.
Qed.

Lemma strip_not_blank (s : string) :
  Py.truthy (Py.strip s) = true -> _normalize (Py.strip s) <> "".
Proof.
  intros Htruthy Hempty. apply _normalize_empty in Hempty.
  assert (Hblank : blank s = true).
  { destruct (lstrip_blank s) as (sp & Hsp & Hs).
    destruct (rstrip_blank (Py.lstrip s)) as (sp' & Hsp' & Hs').
    rewrite Hs, Hs'. unfold blank in *. rewrite !all_chars_app.
    fold (Py.strip s). by rewrite Hsp, Hsp', Hempty. }
  unfold Py.strip in Htruthy. by rewrite (lstrip_of_blank s Hblank) in Htruthy.
Qed.

Lemma loaded_stop_normalize (reader : list (gmap string (option string)))
    (rows : list RouteRow) (route : RouteRow) (stop : string) :
  _load_csv reader = Loaded rows ->
  route ∈ rows ->
  stop ∈ stops route ->
  _normalize stop <> "".
Proof.
  intros Hload Hroute Hstop.
  destruct (_load_csv_elem _ _ _ Hload Hroute) as (row & _ & Hrow).
  apply load_row_Loaded in Hrow as [(stops_text & _ & Hstops) _].
  rewrite Hstops in Hstop.
  apply list_elem_of_fmap in Hstop as (piece & -> & Hpiece).
  apply list_elem_of_In, filter_In in Hpiece as [_ Htruthy].
  by apply strip_not_blank.
Qed.

(** X25. [_load_csv] returns one route per row of the reader, in the
    order of the rows, and returns at all only when every row loads: the
    error of a row aborts the whole loading. *)
Theorem load_csv_row_by_row (reader : list (gmap string (option string)))
    (rows : list RouteRow) :
  _load_csv reader = Loaded rows
  <-> Forall2 (fun row route => load_row row = Loaded route) reader rows.
Proof. apply _load_csv_Loaded. Qed.

(** X26. In a loaded timetable the departure minutes of every route are
    the minutes of its departure time, between 0 and 1439. *)
Theorem loaded_departure_minutes (reader : list (gmap string (option string)))
    (rows : list RouteRow) (route : RouteRow) :
  _load_csv reader = Loaded rows ->
  route ∈ rows ->
  _clock_to_minutes (departure_time route) = Ok (departure_minutes route)
  /\ 0 <= departure_minutes route <= 1439.
Proof.
  intros Hload Hroute.
  destruct (_load_csv_elem _ _ _ Hload Hroute) as (row & _ & Hrow).
  apply load_row_Loaded in Hrow as (_ & Hclock & _).
  split; [assumption|]. by eapply _clock_to_minutes_range.
Qed.

(** X27. In a loaded timetable no stop is blank: every stop of every
    route has a normalized name that is not empty. *)
Theorem loaded_stops_not_blank (reader : list (gmap string (option string)))
    (rows : list RouteRow) (route : RouteRow) (stop : string) :
  _load_csv reader = Loaded rows ->
  route ∈ rows ->
  stop ∈ stops route ->
  _normalize stop <> "".
Proof. apply loaded_stop_normalize. Qed.

(** X28. On a loaded timetable every stop name of a route resolves, unless
    its normalized form is a key of the alias table, to the known stop
    with the same normalized name. *)
Theorem loaded_stop_resolves (reader : list (gmap string (option string)))
    (rows : list RouteRow) (route : RouteRow) (stop : string) :
  _load_csv reader = Loaded rows ->
  route ∈ rows ->
  stop ∈ stops route ->
  aliases (init rows) !! _normalize stop = None ->
  exists known,
    _resolve_stop (init rows) stop = Some known
    /\ known ∈ known_stops (init rows)
    /\ _normalize known = _normalize stop.
Proof.
  intros Hload Hroute Hstop Halias.
  pose proof (loaded_stop_normalize _ _ _ _ Hload Hroute Hstop) as Hne.
  change (known_stops (init rows)) with (_build_stop_list rows).
  destruct (_build_stop_list_seen rows) as (seen & _ & Hcover & _).
  simpl in Hcover.
  assert (Hin : _normalize stop ∈ _normalize <$> all_stops rows).
  { apply list_elem_of_fmap. exists stop. split; [reflexivity|].
    apply all_stops_elem. by exists route. }
  apply Hcover, list_elem_of_fmap in Hin as (known & Heq & Hknown).
  exists known. split; [|by split].
  unfold _resolve_stop.
  replace (negb (Py.truthy (_normalize stop))) with false
    by (by destruct (_normalize stop)).
  rewrite Halias. cbn [default from_option id].
  by rewrite (proj2 (stop_lookup_init rows (_normalize stop) known)
                (conj Hknown (eq_sym Heq))).
Qed.

(** X29. A row whose departure time does not parse, or whose duration is
    not an integer, makes [_load_csv] raise [ValueError] when the rows
    before it load and its other fields are present. *)
Theorem load_csv_malformed_row
    (before after : list (gmap string (option string)))
    (row : gmap string (option string)) (loaded_before : list RouteRow)
    (stops_text departure route_id from_stop to_stop bus_number
       duration_text : string) :
  _load_csv before = Loaded loaded_before ->
  row !! "stops" = Some (Some stops_text) ->
  row !! "departure_time" = Some (Some departure) ->
  row !! "route_id" = Some (Some route_id) ->
  row !! "from_stop" = Some (Some from_stop) ->
  row !! "to_stop" = Some (Some to_stop) ->
  row !! "bus_number" = Some (Some bus_number) ->
  row !! "duration_minutes" = Some (Some duration_text) ->
  _parse_time departure = None \/ Builtin.int duration_text = Raise ValueError ->
  _load_csv (before ++ row :: after) = Failed (Builtin_exn ValueError).
Proof.
  intros Hbefore Hstops Hdeparture Hid Hfrom Hto Hbus Hduration Hbad.
  assert (Hrow : load_row row = Failed (Builtin_exn ValueError)).
  { unfold load_row, stripped, field, text.
    rewrite Hstops, Hdeparture, Hid, Hfrom, Hto, Hbus, Hduration. simpl.
    destruct (_clock_to_minutes (Py.strip departure)) as [minutes|e]
      eqn:Hclock; simpl.
    - destruct Hbad as [Hparse| ->]; [|reflexivity].
      unfold _parse_time in Hparse. rewrite Hclock in Hparse.
      destruct (Py.strip departure); [discriminate Hclock|discriminate Hparse].
    - unfold _clock_to_minutes, Strptime.strptime in Hclock.
      destruct (Strptime.regex_match _) as [[[h m] [|c rest]]|];
        simpl in Hclock; by simplify_eq. }
  unfold _load_csv in *.
  assert (Hgen : forall reader acc rows,
             load_rows reader acc = Loaded rows ->
             load_rows (reader ++ row :: after) acc
             = Failed (Builtin_exn ValueError)).
  { induction reader as [|r reader IH]; intros acc rows; simpl.
    - by rewrite Hrow.
    - destruct (load_row r) as [route|]; simpl; [apply IH|discriminate]. }
  by eapply Hgen.
Qed.

(** ** [get_options] *)

Section SortedUnique.
Context {A : Type} (lt : A -> A -> bool).
Hypothesis lt_asym : forall x y, lt x y = true -> lt y x = false.
Hypothesis lt_negtrans :
  forall x y z, lt x y = false -> lt y z = false -> lt x z = false.
Hypothesis lt_total : forall x y, lt x y = false -> lt y x = false -> x = y.

Lemma insert_sorted_ascending (x : A) (l : list A) :
  StronglySorted (fun a b => lt b a = false) l ->
  StronglySorted (fun a b => lt b a = false) (Py.insert_sorted lt x l).
Proof.
  induction l as [|y l IH]; intros Hl; simpl.
  - repeat constructor.
  - apply StronglySorted_inv in Hl as [Hl Hy].
    destruct (lt y x) eqn:Hyx.
    + constructor; [by apply IH|].
      rewrite (insert_sorted_perm lt x l). constructor; [|assumption].
      by apply lt_asym.
    + constructor; [by constructor|].
      constructor; [assumption|].
      eapply Forall_impl; [exact Hy|]. intros z Hz. simpl in Hz.
      by eapply lt_negtrans.
Qed.

Lemma sorted_ascending (l : list A) :
  StronglySorted (fun a b => lt b a = false) (Py.sorted lt l).
Proof.
  induction l as [|x l IH]; simpl; [constructor|].
  by apply insert_sorted_ascending.
Qed.

Lemma ascending_unique (l l' : list A) :
  StronglySorted (fun a b => lt b a = false) l ->
  StronglySorted (fun a b => lt b a = false) l' ->
  l ≡ₚ l' ->
  l = l'.
Proof.
  revert l'. induction l as [|x l IH]; intros l' Hl Hl' Hperm.
  - by apply Permutation_nil_l in Hperm.
  - destruct l' as [|x' l'].
    { by apply Permutation_nil_r in Hperm. }
    apply StronglySorted_inv in Hl as [Hl Hx].
    apply StronglySorted_inv in Hl' as [Hl' Hx'].
    rewrite Forall_forall in Hx, Hx'.
    assert (x = x') as <-.
    { assert (Hin : x ∈ x' :: l') by (rewrite <- Hperm; left).
      assert (Hin' : x' ∈ x :: l) by (rewrite Hperm; left).
      apply elem_of_cons in Hin as [?|Hin]; [assumption|].
      apply elem_of_cons in Hin' as [?|Hin']; [done|].
      apply lt_total; [by apply Hx'|by apply Hx]. }
    f_equal. apply IH; [assumption..|].
    by apply Permutation_cons_inv in Hperm.
Qed.

Lemma sorted_any_order (l l' : list A) :
  l ≡ₚ l' -> Py.sorted lt l = Py.sorted lt l'.
Proof.
  intros Hperm. apply ascending_unique; try apply sorted_ascending.
  by rewrite !sorted_perm.
Qed.

Lemma sorted_strictly_ascending (l : list A) :
  NoDup l -> StronglySorted (fun a b => lt a b = true) (Py.sorted lt l).
Proof.
  intros Hnodup.
  assert (Hnodup' : NoDup (Py.sorted lt l)) by by rewrite sorted_perm.
  pose proof (sorted_ascending l) as Hsorted.
  induction Hsorted as [|x s Hs IH Hx]; [constructor|].
  apply NoDup_cons in Hnodup' as [Hnotin Hnodup'].
  constructor; [by apply IH|].
  rewrite Forall_forall in Hx. apply Forall_forall. intros y Hy.
  destruct (lt x y) eqn:Hxy; [reflexivity|].
  exfalso. apply Hnotin.
  by rewrite (lt_total x y Hxy (Hx y Hy)).
Qed.
End SortedUnique.

Lemma str_ltb_total (x y : string) :
  str_ltb x y = false -> str_ltb y x = false -> x = y.
Proof.
  unfold str_ltb, String.ltb. rewrite (String.compare_antisym y x).
  destruct (String.compare x y) eqn:Hcmp; simpl; try discriminate.
  intros _ _. by apply String.compare_eq_iff.
Qed.

Lemma options_elem (field : RouteRow -> string) (routes : list RouteRow)
    (x : string) :
  x ∈ Py.sorted str_ltb (remove_dups (field <$> routes))
  <-> exists route, route ∈ routes /\ field route = x.
Proof.
  rewrite sorted_perm, elem_of_remove_dups, list_elem_of_fmap.
  split; intros (route & H1 & H2); exists route; by split.
Qed.

(** The lists of options do not depend on the order in which the set of
    stops is iterated: sorting any list without repetition that holds the
    values gives the same list. *)
Lemma options_any_order (field : RouteRow -> string) (routes : list RouteRow)
    (elements : list string) :
  NoDup elements ->
  (forall x, x ∈ elements <-> x ∈ field <$> routes) ->
  Py.sorted str_ltb elements
  = Py.sorted str_ltb (remove_dups (field <$> routes)).
Proof.
  intros Hnodup Helem.
  apply (sorted_any_order str_ltb str_ltb_asym str_ltb_negtrans
           str_ltb_total).
  apply NoDup_Permutation; [assumption|apply NoDup_remove_dups|].
  intros x. by rewrite Helem, elem_of_remove_dups.
Qed.

(** X30. The two lists that [get_options] returns are in strictly
    ascending order, hence without repetition, and hold exactly the
    [from_stop] and the [to_stop] values of the routes. *)
Theorem get_options_sorted_unique (self : TransportAgent) :
  StronglySorted (fun a b => str_ltb a b = true)
    (o_from_options (get_options self))
  /\ StronglySorted (fun a b => str_ltb a b = true)
       (o_to_options (get_options self))
  /\ (forall x,
        x ∈ o_from_options (get_options self)
        <-> exists route, route ∈ routes self /\ from_stop route = x)
  /\ (forall x,
        x ∈ o_to_options (get_options self)
        <-> exists route, route ∈ routes self /\ to_stop route = x).
Proof.
  simpl. unfold from_options, to_options.
  split; [|split; [|split]].
  - apply (sorted_strictly_ascending str_ltb str_ltb_asym str_ltb_negtrans
             str_ltb_total).
    apply NoDup_remove_dups.
  - apply (sorted_strictly_ascending str_ltb str_ltb_asym str_ltb_negtrans
             str_ltb_total).
    apply NoDup_remove_dups.
  - intros x. apply options_elem.
  - intros x. apply options_elem.
Qed.

(** ** The statements on the sample timetables *)

Lemma find_route_stops_segment_witness :
  find_route Sample.direct "a" " C " ""
  = Some (route_payload Sample.route_30 0 2)
  /\ exists route resolved_from resolved_to start_idx end_idx,
       route ∈ routes Sample.direct
       /\ _resolve_stop Sample.direct "a" = Some resolved_from
       /\ _resolve_stop Sample.direct " C " = Some resolved_to
       /\ (start_idx < end_idx < length (stops route))%nat
       /\ length (p_stops (route_payload Sample.route_30 0 2))
          = (end_idx - start_idx + 1)%nat
       /\ (forall k, (k <= end_idx - start_idx)%nat ->
             p_stops (route_payload Sample.route_30 0 2) !! k
             = stops route !! (start_idx + k)%nat)
       /\ _normalize <$> head (p_stops (route_payload Sample.route_30 0 2))
          = Some (_normalize resolved_from)
       /\ _normalize <$> last (p_stops (route_payload Sample.route_30 0 2))
          = Some (_normalize resolved_to)
       /\ (forall i, (i < start_idx)%nat ->
             _normalize <$> stops route !! i <> Some (_normalize resolved_from))
       /\ (forall i, (start_idx < i < end_idx)%nat ->
             _normalize <$> stops route !! i <> Some (_normalize resolved_to)).
Proof.
  split; [vm_compute; reflexivity|].
  apply (find_route_stops_segment Sample.direct "a" " C " "").
  vm_compute; reflexivity.
Defined.

Lemma find_route_after_time_witness :
  _parse_time "09:00" = Some 540
  /\ find_route Sample.direct "A" "C" "09:00"
     = Some (route_payload Sample.route_45 0 1)
  /\ exists route start_idx end_idx,
       route ∈ routes Sample.direct
       /\ route_payload Sample.route_45 0 1
          = route_payload route start_idx end_idx
       /\ 540 <= departure_minutes route
       /\ (_clock_to_minutes (departure_time route)
           = Ok (departure_minutes route) ->
           exists minutes,
             _clock_to_minutes
               (p_departure_time (route_payload Sample.route_45 0 1))
             = Ok minutes
             /\ 540 <= minutes).
Proof.
  split; [vm_compute; reflexivity|].
  split; [vm_compute; reflexivity|].
  apply (find_route_after_time Sample.direct "A" "C" "09:00" 540
           (route_payload Sample.route_45 0 1));
    vm_compute; reflexivity.
Defined.

Lemma find_route_shortest_witness :
  find_route Sample.direct "A" "C" ""
  = Some (route_payload Sample.route_30 0 2)
  /\ exists route start_idx end_idx,
       route ∈ routes Sample.direct
       /\ _route_leg (stops route) "A" "C" = Some (start_idx, end_idx)
       /\ find_route Sample.direct "A" "C" ""
          = Some (route_payload route start_idx end_idx)
       /\ (forall route',
             route' ∈ routes Sample.direct ->
             is_Some (_route_leg (stops route') "A" "C") ->
             key3_ltb
               (duration_minutes route', departure_minutes route',
                route_id route')
               (duration_minutes route, departure_minutes route,
                route_id route)
             = false)
       /\ (forall route',
             route' ∈ routes Sample.direct ->
             is_Some (_route_leg (stops route') "A" "C") ->
             duration_minutes route <= duration_minutes route').
Proof.
  split; [vm_compute; reflexivity|].
  apply (find_route_shortest Sample.direct "A" "C" "" "A" "C"
           Sample.route_45).
  - vm_compute; reflexivity.
  - vm_compute; reflexivity.
  - vm_compute; reflexivity.
  - discriminate.
  - discriminate.
  - left.
  - vm_compute. eexists. reflexivity.
Defined.

Lemma unparsable_time_is_no_filter_witness :
  _parse_time "24:00" = None
  /\ find_route Sample.direct "A" "C" "24:00"
     = find_route Sample.direct "A" "C" ""
  /\ suggest_alternative Sample.direct "A" "C" "24:00"
     = suggest_alternative Sample.direct "A" "C" "".
Proof.
  apply (unparsable_time_is_no_filter Sample.direct "A" "C" "24:00").
  - discriminate.
  - vm_compute; reflexivity.
Defined.

Lemma unresolvable_stop_no_result_witness :
  unresolvable Sample.direct "Zoo" = true
  /\ find_route Sample.direct "Zoo" "C" "" = None
  /\ suggest_alternative Sample.direct "Zoo" "C" "" = Ok None.
Proof.
  split; [vm_compute; reflexivity|].
  apply (unresolvable_stop_no_result Sample.direct "Zoo" "C" "").
  left. vm_compute; reflexivity.
Defined.

Lemma resolve_known_stop_witness :
  "B" ∈ known_stops Sample.direct
  /\ _resolve_stop Sample.direct "B" = Some "B"
  /\ "Airport" ∈ known_stops Sample.airport
  /\ _resolve_stop Sample.airport "Airport" = Some "Amausi Airport".
Proof.
  split; [vm_compute; right; right; left|].
  split.
  { apply (resolve_known_stop [Sample.route_45; Sample.route_30] "B").
    - vm_compute. right; right; left.
    - vm_compute. discriminate.
    - vm_compute. reflexivity. }
  split; [vm_compute; left|].
  apply (resolve_known_stop [Sample.route_airport] "Airport")
    with (target := "amausi airport").
  - vm_compute. left.
  - vm_compute. discriminate.
  - vm_compute. reflexivity.
  - vm_compute. right; left.
  - vm_compute. reflexivity.
Defined.

(** C6, as stated, fails: a stop named like an alias resolves to the
    alias target. *)
Lemma resolve_known_stop_counterexample :
  "Airport" ∈ known_stops Sample.airport
  /\ _resolve_stop Sample.airport "Airport" = Some "Amausi Airport"
  /\ _normalize "Amausi Airport" <> _normalize "Airport".
Proof.
  split; [vm_compute; left|].
  split; [vm_compute; reflexivity|].
  vm_compute. discriminate.
Qed.

Lemma suggest_alternative_transfer_witness :
  suggest_alternative Sample.transfer "A" "D" "" = Ok (Some Sample.transfer_plan)
  /\ exists first1 last1 first2 last2,
       head (p_stops (t_leg1 Sample.transfer_plan)) = Some first1
       /\ last (p_stops (t_leg1 Sample.transfer_plan)) = Some last1
       /\ head (p_stops (t_leg2 Sample.transfer_plan)) = Some first2
       /\ last (p_stops (t_leg2 Sample.transfer_plan)) = Some last2
       /\ last1 = t_transfer_stop Sample.transfer_plan
       /\ _normalize last1 = _normalize first2
       /\ (_normalize first1, _normalize last1)
          <> (_normalize first2, _normalize last2).
Proof.
  split; [vm_compute; reflexivity|].
  apply (suggest_alternative_transfer Sample.transfer "A" "D" "").
  vm_compute; reflexivity.
Defined.

Lemma score_of_equal_strings_witness :
  Difflib.str_ratio "charbagh" "charbagh" = Float.one
  /\ stop_score "charbagh" "charbagh" = Float.add Float.one Float.lit_0_12
  /\ Py.contains "alambagh" "charbagh" || Py.contains "charbagh" "alambagh"
     = Py.contains "charbagh" "alambagh" || Py.contains "alambagh" "charbagh".
Proof.
  apply (score_of_equal_strings "charbagh" "alambagh").
  vm_compute. reflexivity.
Defined.

(** C7, as stated, fails: the score of ("tide", "diet") is 0.25 and the
    score of ("diet", "tide") is 0.5. *)
Lemma score_symmetry_counterexample :
  _normalize "tide" = "tide"
  /\ _normalize "diet" = "diet"
  /\ stop_score "tide" "diet" = S754_finite false 4503599627370496 (-54)
  /\ stop_score "diet" "tide" = S754_finite false 4503599627370496 (-53)
  /\ stop_score "tide" "diet" <> stop_score "diet" "tide".
Proof.
  vm_compute. repeat split; discriminate.
Qed.

Lemma segment_duration_binary64_witness :
  exists fraction rounded,
    Float.int_truediv (Z.max 1 (Z.of_nat 2 - Z.of_nat 0))
      (Z.max 1 (Z.of_nat (length (stops Sample.route_30)) - 1))
    = Ok fraction
    /\ Float.round
         (Float.mul (Float.of_int (duration_minutes Sample.route_30)) fraction)
       = Ok rounded
    /\ _segment_duration Sample.route_30 (Z.of_nat 0) (Z.of_nat 2)
       = Ok (Z.max 5 rounded).
Proof.
  apply (segment_duration_binary64 Sample.route_30 0 2).
  - simpl. lia.
  - vm_compute. reflexivity.
  - vm_compute. reflexivity.
Defined.

Lemma segment_duration_exact_off_ties_witness :
  exists rounded,
    _segment_duration Sample.route_30 (Z.of_nat 0) (Z.of_nat 2)
    = Ok (Z.max 5 rounded)
    /\ duration_minutes Sample.route_30 * (Z.of_nat 2 - Z.of_nat 0)
       / (Z.of_nat (length (stops Sample.route_30)) - 1)
       <= rounded
       <= duration_minutes Sample.route_30 * (Z.of_nat 2 - Z.of_nat 0)
          / (Z.of_nat (length (stops Sample.route_30)) - 1) + 1
    /\ (2 * ((duration_minutes Sample.route_30
              * (Z.of_nat 2 - Z.of_nat 0))
             mod (Z.of_nat (length (stops Sample.route_30)) - 1))
        <> Z.of_nat (length (stops Sample.route_30)) - 1 ->
        _segment_duration Sample.route_30 (Z.of_nat 0) (Z.of_nat 2)
        = Ok (segment_duration_exact Sample.route_30 (Z.of_nat 0)
                (Z.of_nat 2))).
Proof.
  apply (segment_duration_exact_off_ties Sample.route_30 0 2).
  - simpl. lia.
  - simpl. lia.
  - vm_compute. reflexivity.
  - vm_compute. reflexivity.
Defined.

(** C5, as stated, fails: seven of the ten edges of a route of 45
    minutes are 31.5 minutes, which the code turns into 31, while one of
    the two edges of a route of 63 minutes, 31.5 minutes as well, becomes
    32; seven of the twelve edges of a route of 210 minutes are 122.5
    minutes, which the code turns into 123. *)
Lemma segment_duration_exact_counterexample :
  _segment_duration Sample.route_11 0 7 = Ok 31
  /\ segment_duration_exact Sample.route_11 0 7 = 32
  /\ 2 * (45 * 7) = 63 * 10
  /\ _segment_duration Sample.route_3 0 1 = Ok 32
  /\ 2 * (63 * 1) = 63 * 2
  /\ _segment_duration Sample.route_13 0 7 = Ok 123
  /\ segment_duration_exact Sample.route_13 0 7 = 122
  /\ 2 * (210 * 7) = 245 * 12.
Proof.
  vm_compute. repeat split; reflexivity.
Qed.

Lemma clock_to_minutes_within_day_witness :
  _clock_to_minutes "23:59" = Ok 1439 /\ 0 <= 1439 <= 1439.
Proof.
  split; [reflexivity|].
  apply (clock_to_minutes_within_day "23:59" 1439). reflexivity.
Defined.

Lemma clock_forms_accepted_witness :
  _clock_to_minutes ("9" +:+ ":" +:+ "05") = Ok (9 * 60 + 5).
Proof.
  apply (clock_forms_accepted 9 5 "9" "05"); [lia|lia|..].
  - vm_compute. apply list_elem_of_In. right. left. reflexivity.
  - vm_compute. apply list_elem_of_In. left. reflexivity.
Defined.

Lemma queries_ignore_case_and_spacing_witness :
  _resolve_stop Sample.direct "  a " = _resolve_stop Sample.direct "A"
  /\ find_route Sample.direct "  a " "C" " 08:00"
     = find_route Sample.direct "A" "c  " "08:00 "
  /\ suggest_alternative Sample.direct "  a " "C" " 08:00"
     = suggest_alternative Sample.direct "A" "c  " "08:00 ".
Proof.
  apply (queries_ignore_case_and_spacing Sample.direct
           "  a " "A" "C" "c  " " 08:00" "08:00 ");
    vm_compute; reflexivity.
Defined.

Lemma resolve_fuzzy_best_match_witness :
  _resolve_stop Sample.city "charbag" = Some "Charbagh"
  <-> exists i,
        best_match "charbag" (known_stops Sample.city) i "Charbagh"
        /\ Float.ltb (stop_score "charbag" (_normalize "Charbagh"))
             Float.lit_0_70
           = false.
Proof.
  apply (resolve_fuzzy_best_match Sample.city "charbag" "Charbagh").
  - vm_compute. discriminate.
  - vm_compute. reflexivity.
  - intros other Hother. vm_compute in Hother.
    repeat (apply elem_of_cons in Hother as [->|Hother];
            [vm_compute; reflexivity|]).
    inversion Hother.
Defined.

Lemma resolve_returns_known_stop_witness :
  "Charbagh" ∈ known_stops Sample.city
  /\ exists route,
       route ∈ [Sample.route_city; Sample.route_air]
       /\ "Charbagh" ∈ stops route.
Proof.
  apply (resolve_returns_known_stop [Sample.route_city; Sample.route_air]
           "charbag" "Charbagh").
  vm_compute. reflexivity.
Defined.

Lemma resolve_exact_or_alias_witness :
  _resolve_stop Sample.city " Railway  STATION " = Some "Charbagh".
Proof.
  apply (resolve_exact_or_alias [Sample.route_city; Sample.route_air]
           " Railway  STATION " "Charbagh").
  - vm_compute. discriminate.
  - vm_compute. left.
  - vm_compute. reflexivity.
Defined.

Lemma find_route_soonest_witness :
  exists route start_idx end_idx,
    route ∈ routes Sample.direct
    /\ _route_leg (stops route) "A" "C" = Some (start_idx, end_idx)
    /\ 510 <= departure_minutes route
    /\ find_route Sample.direct "a" "c" "08:30"
       = Some (route_payload route start_idx end_idx)
    /\ forall route',
         route' ∈ routes Sample.direct ->
         is_Some (_route_leg (stops route') "A" "C") ->
         510 <= departure_minutes route' ->
         departure_minutes route <= departure_minutes route'
         /\ (departure_minutes route' = departure_minutes route ->
             duration_minutes route <= duration_minutes route').
Proof.
  apply (find_route_soonest Sample.direct "a" "c" "08:30" "A" "C" 510
           Sample.route_45).
  - vm_compute. reflexivity.
  - vm_compute. reflexivity.
  - vm_compute. reflexivity.
  - discriminate.
  - discriminate.
  - vm_compute. left.
  - vm_compute. by eexists.
  - vm_compute. discriminate.
Defined.

Lemma best_second_leg_minimal_witness :
  exists leg,
    _best_second_leg_for_first_leg
      [leg_payload Sample.route_cd "C" 15 0 2;
       leg_payload Sample.route_bc_early "B" 15 0 2] 490
    = Ok leg
    /\ leg ∈ [leg_payload Sample.route_cd "C" 15 0 2;
              leg_payload Sample.route_bc_early "B" 15 0 2]
    /\ (forall other,
          other ∈ [leg_payload Sample.route_cd "C" 15 0 2;
                   leg_payload Sample.route_bc_early "B" 15 0 2] ->
          key3_ltb (key_fn 490 other) (key_fn 490 leg) = false)
    /\ _best_second_leg_for_first_leg [] 490 = Raise IndexError.
Proof.
  apply (best_second_leg_minimal
           [leg_payload Sample.route_cd "C" 15 0 2;
            leg_payload Sample.route_bc_early "B" 15 0 2] 490).
  discriminate.
Defined.


Lemma suggest_alternative_legs_witness :
  exists resolved_from resolved_to route1 start_idx transfer_idx leg1
         route2 transfer_idx2 end_idx leg2,
    _resolve_stop Sample.transfer "A" = Some resolved_from
    /\ _resolve_stop Sample.transfer "D" = Some resolved_to
    /\ route1 ∈ routes Sample.transfer
    /\ first_leg_at resolved_from (_parse_time "") route1
         start_idx transfer_idx leg1
    /\ route2 ∈ routes Sample.transfer
    /\ second_leg_at resolved_to route2 transfer_idx2 end_idx leg2
    /\ _normalize (l_transfer_stop leg2) = _normalize (l_transfer_stop leg1)
    /\ Sample.transfer_plan
       = plan_payload resolved_from resolved_to leg1 leg2
           (pair_total leg1 leg2).
Proof.
  apply (suggest_alternative_legs Sample.transfer "A" "D" ""
           Sample.transfer_plan).
  vm_compute. reflexivity.
Defined.

Lemma suggest_alternative_durations_witness :
  5 <= p_duration_minutes (t_leg1 Sample.transfer_plan)
  /\ 5 <= p_duration_minutes (t_leg2 Sample.transfer_plan)
  /\ exists wait,
       0 <= wait
       /\ t_total_duration_minutes Sample.transfer_plan
          = p_duration_minutes (t_leg1 Sample.transfer_plan)
            + p_duration_minutes (t_leg2 Sample.transfer_plan) + wait.
Proof.
  apply (suggest_alternative_durations Sample.transfer "A" "D" ""
           Sample.transfer_plan).
  vm_compute. reflexivity.
Defined.

Lemma suggest_alternative_minimal_witness :
  exists first_legs second,
    collect_legs Sample.transfer "A" "D" (_parse_time "")
    = Ok (first_legs, second)
    /\ exists leg1 leg2,
         leg1 ∈ first_legs
         /\ pairing second leg1 leg2
         /\ Sample.transfer_plan
            = plan_payload "A" "D" leg1 leg2 (pair_total leg1 leg2)
         /\ forall leg1' leg2',
              leg1' ∈ first_legs -> pairing second leg1' leg2' ->
              key4_ltb (pair_key leg1' leg2') (pair_key leg1 leg2) = false
              /\ t_total_duration_minutes Sample.transfer_plan
                 <= pair_total leg1' leg2'.
Proof.
  apply (suggest_alternative_minimal Sample.transfer "A" "D" "" "A" "D"
           (Some Sample.transfer_plan)).
  - vm_compute. reflexivity.
  - vm_compute. reflexivity.
  - discriminate.
  - discriminate.
  - vm_compute. reflexivity.
Defined.

Lemma collect_legs_complete_witness :
  (forall leg,
      leg ∈ [leg_payload Sample.route_abc "B" 15 0 2;
             leg_payload Sample.route_abc "C" 30 0 3]
      <-> exists route start_idx transfer_idx,
            route ∈ routes Sample.transfer
            /\ first_leg_at "A" None route start_idx transfer_idx leg)
  /\ (forall key leg,
        leg ∈ legs_at {["c" := [leg_payload Sample.route_cd "C" 15 0 2]]} key
        <-> exists route transfer_idx end_idx,
              route ∈ routes Sample.transfer
              /\ second_leg_at "D" route transfer_idx end_idx leg
              /\ _normalize (l_transfer_stop leg) = key).
Proof.
  apply (collect_legs_complete Sample.transfer "A" "D" None).
  vm_compute. reflexivity.
Defined.

Lemma suggest_alternative_never_raises_witness :
  exists result, suggest_alternative Sample.transfer "A" "D" "" = Ok result.
Proof.
  apply (suggest_alternative_never_raises Sample.transfer "A" "D" "").
  change (routes Sample.transfer) with [Sample.route_abc; Sample.route_cd].
  repeat (apply Forall_cons; split; [split; vm_compute; reflexivity|]).
  apply Forall_nil_2.
Defined.

Lemma segment_duration_whole_route_witness :
  _segment_duration Sample.route_abc 0
    (Z.of_nat (length (stops Sample.route_abc)) - 1)
  = Ok (Z.max 5 (duration_minutes Sample.route_abc)).
Proof.
  apply (segment_duration_whole_route Sample.route_abc).
  - simpl. lia.
  - vm_compute. reflexivity.
Defined.

Lemma segment_duration_returns_witness :
  exists minutes,
    _segment_duration Sample.route_abc (Z.of_nat 0) (Z.of_nat 1) = Ok minutes
    /\ 5 <= minutes.
Proof.
  apply (segment_duration_returns Sample.route_abc 0 1).
  - simpl. lia.
  - vm_compute. reflexivity.
  - vm_compute. reflexivity.
Defined.

Lemma segment_duration_monotone_witness :
  exists minutes minutes',
    _segment_duration Sample.route_11 (Z.of_nat 0) (Z.of_nat 6) = Ok minutes
    /\ _segment_duration Sample.route_11 (Z.of_nat 1) (Z.of_nat 8)
       = Ok minutes'
    /\ minutes <= minutes'.
Proof.
  apply (segment_duration_monotone Sample.route_11 0 6 1 8).
  - simpl. lia.
  - simpl. lia.
  - lia.
  - vm_compute. discriminate.
  - vm_compute. reflexivity.
  - vm_compute. reflexivity.
Defined.

Lemma loaded_departure_minutes_witness :
  _clock_to_minutes (departure_time Sample.csv_route)
  = Ok (departure_minutes Sample.csv_route)
  /\ 0 <= departure_minutes Sample.csv_route <= 1439.
Proof.
  apply (loaded_departure_minutes [Sample.csv_row] [Sample.csv_route]).
  - vm_compute. reflexivity.
  - left.
Defined.

Lemma loaded_stops_not_blank_witness :
  _normalize "Hazratganj" <> "".
Proof.
  apply (loaded_stops_not_blank [Sample.csv_row] [Sample.csv_route]
           Sample.csv_route "Hazratganj").
  - vm_compute. reflexivity.
  - left.
  - vm_compute. right. left.
Defined.

Lemma loaded_stop_resolves_witness :
  exists known,
    _resolve_stop (init [Sample.csv_route]) "Hazratganj" = Some known
    /\ known ∈ known_stops (init [Sample.csv_route])
    /\ _normalize known = _normalize "Hazratganj".
Proof.
  apply (loaded_stop_resolves [Sample.csv_row] [Sample.csv_route]
           Sample.csv_route "Hazratganj").
  - vm_compute. reflexivity.
  - left.
  - vm_compute. right. left.
  - vm_compute. reflexivity.
Defined.

Lemma load_csv_malformed_row_witness :
  _load_csv ([Sample.csv_row] ++ Sample.csv_row_bad_time :: [Sample.csv_row])
  = Failed (Builtin_exn ValueError).
Proof.
  apply (load_csv_malformed_row [Sample.csv_row] [Sample.csv_row]
           Sample.csv_row_bad_time [Sample.csv_route]
           "Charbagh | Hazratganj || Gomti Nagar | " "7h05" "R1" "Charbagh"
           "Gomti Nagar" " 11" "40");
    try (vm_compute; reflexivity).
  left. vm_compute. reflexivity.
Defined.

Lemma best_second_leg_shortest_wait_witness :
  exists leg,
    _best_second_leg_for_first_leg
      [leg_payload Sample.route_cd "C" 15 0 2;
       leg_payload Sample.route_bc_early "B" 15 0 2] 490
    = Ok leg
    /\ leg ∈ [leg_payload Sample.route_cd "C" 15 0 2;
              leg_payload Sample.route_bc_early "B" 15 0 2]
    /\ forall other,
         other ∈ [leg_payload Sample.route_cd "C" 15 0 2;
                  leg_payload Sample.route_bc_early "B" 15 0 2] ->
         (l_departure_minutes leg - 490) mod 1440
         <= (l_departure_minutes other - 490) mod 1440
         /\ ((l_departure_minutes other - 490) mod 1440
             = (l_departure_minutes leg - 490) mod 1440 ->
             l_duration_minutes leg <= l_duration_minutes other).
Proof.
  apply (best_second_leg_shortest_wait
           [leg_payload Sample.route_cd "C" 15 0 2;
            leg_payload Sample.route_bc_early "B" 15 0 2] 490).
  - discriminate.
  - lia.
  - repeat (apply Forall_cons; split; [simpl; lia|]). apply Forall_nil_2.
Defined.
